(** * Workflow engine of weather-alert: graph validator, node variants and
    execution engine, embedded from the Go sources.

    Layout
    - [Go]: the pieces of the Go runtime the code leans on (errors, dynamic
      values, string replacement, float formatting, the outside world).
    - [models]: api/pkg/models (nodes, edges, workflows, executions).
    - [workflow]: validateWorkflowStructure of api/internal/workflow.
    - [node] and the six variants: api/pkg/node/... .
    - [execution]: Engine.Execute of api/internal/execution.
    Theorems come after the definitions. *)

From Stdlib Require Import PrimFloat FloatOps SpecFloat ZArith DecimalString.
From stdpp Require Import gmap strings list fin_maps.

#[local] Set Warnings "-register-all".
#[local] Open Scope string_scope.

(* ===================================================================== *)
(** ** Go runtime                                                         *)
(* ===================================================================== *)
Module Go.

(** [error] values.  [errors_New] is errors.New (and fmt.Errorf without a
    %w verb); [fmt_Errorf] is fmt.Errorf with one %w verb: it carries the
    already formatted text and the error it wraps. *)
Inductive error : Type :=
  | errors_New (text : string)
  | fmt_Errorf (text : string) (wrapped : error).

Definition Error (e : error) : string :=
  match e with
  | errors_New t => t
  | fmt_Errorf t _ => t
  end.

#[global] Instance error_eq_dec : EqDecision error.
Proof. solve_decision. Defined.

(** errors.Is: the sentinels of this program have pairwise different
    texts, so identity of sentinels is equality of values. *)
Fixpoint errors_Is (e target : error) : bool :=
  bool_decide (e = target) ||
  match e with
  | errors_New _ => false
  | fmt_Errorf _ w => errors_Is w target
  end.

(** fmt.Errorf("%w" ++ rest, sentinel) *)
Definition wrapf (sentinel : error) (rest : string) : error :=
  fmt_Errorf (Error sentinel +:+ rest) sentinel.

(** Dynamic values ([any]) as they occur in metadata, node outputs and
    JSON bodies. *)
Inductive any : Type :=
  | VNil
  | VString (s : string)
  | VFloat (f : float)
  | VInt (z : Z)
  | VBool (b : bool)
  | VMap (m : gmap string any)
  | VList (l : list any)
  | VStrings (l : list string).

(** Type assertions [v, ok := m[k].(T)]; [None] is ok = false. *)
Definition as_string (v : option any) : option string :=
  match v with Some (VString s) => Some s | _ => None end.
Definition as_float (v : option any) : option float :=
  match v with Some (VFloat f) => Some f | _ => None end.
Definition as_bool (v : option any) : option bool :=
  match v with Some (VBool b) => Some b | _ => None end.
Definition as_map (v : option any) : option (gmap string any) :=
  match v with Some (VMap m) => Some m | _ => None end.
Definition as_list (v : option any) : option (list any) :=
  match v with Some (VList l) => Some l | _ => None end.

(** A call that returns [(value, nil)], returns [(zero, err)], or panics. *)
Inductive result (A : Type) : Type :=
  | Ok (a : A)
  | Err (e : error)
  | Panic (reason : string).
Arguments Ok {A} a.
Arguments Err {A} e.
Arguments Panic {A} reason.

(** *** strings *)

Fixpoint HasPrefix (s p : string) : bool :=
  match p, s with
  | EmptyString, _ => true
  | String a p', String b s' => bool_decide (a = b) && HasPrefix s' p'
  | String _ _, EmptyString => false
  end.

Fixpoint Contains (s sub : string) : bool :=
  HasPrefix s sub ||
  match s with
  | EmptyString => false
  | String _ s' => Contains s' sub
  end.

(** strings.ReplaceAll (also strings.Replace with n = -1): every
    non-overlapping occurrence of [old], left to right.  [skip] counts the
    bytes of a matched occurrence still to be dropped.  Every call site
    passes a non-empty [old]; for an empty [old] the string is returned as
    it is (Go would insert [new] at rune boundaries). *)
Fixpoint replace_from (old new : string) (skip : nat) (s : string) : string :=
  match s with
  | EmptyString => EmptyString
  | String c s' =>
      match skip with
      | S k => replace_from old new k s'
      | O =>
          if HasPrefix s old
          then new +:+ replace_from old new (String.length old - 1) s'
          else String c (replace_from old new 0 s')
      end
  end.

Definition ReplaceAll (s old new : string) : string :=
  match old with
  | EmptyString => s
  | _ => replace_from old new 0 s
  end.

(** *** fmt *)

Definition itoa (z : Z) : string :=
  match z with
  | Zneg p => "-" +:+ NilZero.string_of_uint (Pos.to_uint p)
  | _ => NilZero.string_of_uint (N.to_uint (Z.to_N z))
  end.

Fixpoint zero_pad (width : nat) (s : string) : string :=
  match width with
  | O => s
  | S w => if decide (String.length s <= w)%nat then "0" +:+ zero_pad w s else s
  end.

(** The verbs %.1f and %f (six digits) on a float64: the exact binary value
    rounded to [prec] decimals, ties to even, as strconv does. *)
Definition fixed (negative : bool) (prec : nat) (scaled : Z) : string :=
  let unit := (10 ^ Z.of_nat prec)%Z in
  (if negative then "-" else "") +:+ itoa (scaled / unit) +:+
  match prec with
  | O => ""
  | _ => "." +:+ zero_pad prec (itoa (scaled mod unit))
  end.

Definition round_half_even (num den : Z) : Z :=
  let q := (num / den)%Z in
  let r := (num mod den)%Z in
  if decide (2 * r < den)%Z then q
  else if decide (den < 2 * r)%Z then (q + 1)%Z
  else if Z.even q then q else (q + 1)%Z.

Definition Sprintf_f (prec : nat) (x : float) : string :=
  match Prim2SF x with
  | S754_nan => "NaN"
  | S754_infinity s => if s then "-Inf" else "+Inf"
  | S754_zero s => fixed s prec 0
  | S754_finite s m e =>
      let num := (Z.pos m * 10 ^ Z.of_nat prec)%Z in
      fixed s prec
        (if decide (0 <= e)%Z then (num * 2 ^ e)%Z
         else round_half_even num (2 ^ (- e))%Z)
  end.

(** *** The outside world

    What the program reads from its environment: the wall clock, the UUID
    generator, the order in which a [range] visits a map, the HTTP
    transport and the %v verb on composite values.  [Env] fixes one such
    environment; [World] counts how much of it has been consumed and logs
    the HTTP requests sent. *)

Inductive HttpResult : Type :=
  | TransportError (err : error)
  | Response (StatusCode : Z) (Body : error + gmap string any).

Record Env : Type := {
  env_Now : nat -> Z;
  env_RFC3339 : Z -> string;
  env_Parse : string -> Z;
  env_uuid : nat -> string;
  env_range : nat -> list string -> list string;
  env_range_perm : forall k l, env_range k l ≡ₚ l;
  env_NewRequest : string -> option error;
  env_Do : nat -> string -> HttpResult;
  env_Sprint : any -> string
}.

Record World : Type := mkWorld {
  clock : nat;
  draws : nat;
  requests : list string
}.

Definition M (A : Type) : Type := World -> A * World.

#[global] Instance M_ret : MRet M := fun A a w => (a, w).
#[global] Instance M_bind : MBind M :=
  fun A B f m w => let '(a, w') := m w in f a w'.

Section World.
Context (env : Env).

(** time.Now() *)
Definition Now : M Z :=
  fun w => (env_Now env (clock w), mkWorld (S (clock w)) (draws w) (requests w)).

(** time.Now().Format(time.RFC3339) *)
Definition NowRFC3339 : M string := t ← Now; mret (env_RFC3339 env t).

(** uuid.New().String() *)
Definition NewUUID : M string :=
  fun w => (env_uuid env (draws w), mkWorld (clock w) (S (draws w)) (requests w)).

(** The keys of a map in the order one [range] statement visits them. *)
Definition RangeKeys {A} (m : gmap string A) : M (list string) :=
  fun w => (env_range env (draws w) (map_to_list m).*1,
            mkWorld (clock w) (S (draws w)) (requests w)).

(** http.Client.Do on a GET request for [url] *)
Definition Do (url : string) : M HttpResult :=
  fun w => (env_Do env (length (requests w)) url,
            mkWorld (clock w) (draws w) (requests w ++ [url])).

(** end.Sub(start).Milliseconds() on instants in nanoseconds; Sub
    saturates at the bounds of an int64 duration. *)
Definition SubMilliseconds (finish start : Z) : Z :=
  let d := (finish - start)%Z in
  let d := Z.max (- 2 ^ 63) (Z.min (2 ^ 63 - 1) d) in
  Z.quot d 1000000.

(** The verb %v: booleans and nil are spelled out, composite values are
    left to the environment. *)
Definition Sprint_v (v : any) : string :=
  match v with
  | VNil => "<nil>"
  | VBool b => if b then "true" else "false"
  | VString s => s
  | VInt z => itoa z
  | _ => env_Sprint env v
  end.
End World.

End Go.
Export Go.

(* ===================================================================== *)
(** ** api/pkg/models                                                     *)
(* ===================================================================== *)
Module models.

(** NodeType, Operator, Status, NodeID and OutputKey are string types. *)
Definition NodeTypeStart : string := "start".
Definition NodeTypeForm : string := "form".
Definition NodeTypeIntegration : string := "integration".
Definition NodeTypeCondition : string := "condition".
Definition NodeTypeEmail : string := "email".
Definition NodeTypeEnd : string := "end".

Definition OperatorGreaterThan : string := "greater_than".
Definition OperatorLessThan : string := "less_than".
Definition OperatorEquals : string := "equals".
Definition OperatorGreaterThanOrEqual : string := "greater_than_or_equal".
Definition OperatorLessThanOrEqual : string := "less_than_or_equal".

Definition StatusCompleted : string := "completed".
Definition StatusFailed : string := "failed".
Definition StatusRunning : string := "running".

Definition NodeIDForm : string := "form".
Definition NodeIDWeatherAPI : string := "weather-api".
Definition NodeIDCondition : string := "condition".

Definition OutputKeyName : string := "name".
Definition OutputKeyEmail : string := "email".
Definition OutputKeyCity : string := "city".
Definition OutputKeyTemperature : string := "temperature".
Definition OutputKeyLocation : string := "location".

Module NodeData.
Record t : Type := mk {
  Label : string;
  Description : string;
  Metadata : gmap string any
}.
End NodeData.

(** The fields of Node and Edge that the validator and the engine read;
  workflow id, position and edge styling are not read by either. *)
Module Node.
Record t : Type := mk {
  ID : string;
  Type_ : string;
  Data : NodeData.t
}.
End Node.

Module Edge.
Record t : Type := mk {
  ID : string;
  Source : string;
  Target : string;
  SourceHandle : string
}.
End Edge.

Module Workflow.
Record t : Type := mk {
  ID : string;
  Name : string;
  Version : Z;
  Nodes : list Node.t;
  Edges : list Edge.t
}.
End Workflow.

Module WorkflowInput.
Record t : Type := mk {
  Name : string;
  Email : string;
  City : string;
  Threshold : float;
  Operator : string;
  Workflow : option (gmap string any)
}.
End WorkflowInput.

Module ExecutionStep.
Record t : Type := mk {
  NodeID : string;
  StepNumber : Z;
  NodeType : string;
  Status : string;
  Label : string;
  Description : string;
  Duration : Z;
  Output : gmap string any;
  Timestamp : string;
  Error : string;
  StartedAt : string;
  EndedAt : string
}.
End ExecutionStep.

Module WorkflowExecution.
Record t : Type := mk {
  ID : string;
  WorkflowID : string;
  Status : string;
  StartTime : string;
  EndTime : string;
  TotalDuration : Z;
  Steps : list ExecutionStep.t;
  Metadata : gmap string any;
  ExecutedAt : Z
}.
End WorkflowExecution.

End models.

(* ===================================================================== *)
(** ** api/internal/workflow: the structural validator                    *)
(* ===================================================================== *)
Module workflow.
Import models.

Definition ErrInvalidWorkflowStructure := errors_New "invalid workflow structure".
Definition ErrMissingStartNode := errors_New "workflow must begin with a start node".
Definition ErrMissingEndNode := errors_New "workflow must end with an end node".
Definition ErrStartNodePosition := errors_New "start node must be the first node in the workflow".
Definition ErrEndNodePosition := errors_New "end node must be the last node in the workflow".
Definition ErrDuplicateNodeID := errors_New "duplicate node ID found".
Definition ErrEmptyNodeID := errors_New "node ID cannot be empty".
Definition ErrInvalidNodeType := errors_New "node requires a type".
Definition ErrEmptyEdgeID := errors_New "edge ID cannot be empty".
Definition ErrDuplicateEdgeID := errors_New "duplicate edge ID found".
Definition ErrInvalidEdgeConnection := errors_New "edge has invalid source or target".
Definition ErrEdgeToUnknownNode := errors_New "edge references undefined node".

(** The locals of validateWorkflowStructure that its first loop updates.
    Indices are Go ints; a slice is far shorter than 2^63, so they never
    wrap. *)
Record scan : Type := Scan {
  hasStart : bool;
  hasEnd : bool;
  startNodeIndex : Z;
  endNodeIndex : Z;
  nodeIDs : gset string
}.

Definition scan0 : scan := Scan false false (-1) (-1) ∅.

(** [for i, node := range nodes { ... }], from index [i] on. *)
Fixpoint scanNodes (i : Z) (nodes : list Node.t) (st : scan) : error + scan :=
  match nodes with
  | [] => inr st
  | node :: rest =>
      let st :=
        if decide (Node.Type_ node = NodeTypeStart)
        then Scan true (hasEnd st) i (endNodeIndex st) (nodeIDs st)
        else st in
      let st :=
        if decide (Node.Type_ node = NodeTypeEnd)
        then Scan (hasStart st) true (startNodeIndex st) i (nodeIDs st)
        else st in
      if decide (Node.ID node = "")
      then inl (wrapf ErrEmptyNodeID ": node ID cannot be empty")
      else if decide (Node.ID node ∈ nodeIDs st)
      then inl (wrapf ErrDuplicateNodeID (": " +:+ Node.ID node))
      else
        let st := Scan (hasStart st) (hasEnd st) (startNodeIndex st)
                       (endNodeIndex st) ({[Node.ID node]} ∪ nodeIDs st) in
        if decide (Node.Type_ node = "")
        then inl (wrapf ErrInvalidNodeType
                    (": node " +:+ Node.ID node +:+ " requires a type"))
        else scanNodes (i + 1) rest st
  end.

(** [for _, edge := range edges { ... }] *)
Fixpoint scanEdges (nodeIDs : gset string) (edges : list Edge.t)
    (edgeIDs : gset string) : option error :=
  match edges with
  | [] => None
  | edge :: rest =>
      if decide (Edge.ID edge = "") then Some ErrEmptyEdgeID
      else if decide (Edge.ID edge ∈ edgeIDs)
      then Some (wrapf ErrDuplicateEdgeID (": " +:+ Edge.ID edge))
      else if decide (Edge.Source edge = "" ∨ Edge.Target edge = "")
      then Some (wrapf ErrInvalidEdgeConnection
                   (": edge " +:+ Edge.ID edge +:+
                    " must have non-empty source and target"))
      else if decide (Edge.Source edge ∉ nodeIDs)
      then Some (wrapf ErrEdgeToUnknownNode
                   (": edge " +:+ Edge.ID edge +:+
                    " references undefined source node " +:+ Edge.Source edge))
      else if decide (Edge.Target edge ∉ nodeIDs)
      then Some (wrapf ErrEdgeToUnknownNode
                   (": edge " +:+ Edge.ID edge +:+
                    " references undefined target node " +:+ Edge.Target edge))
      else scanEdges nodeIDs rest ({[Edge.ID edge]} ∪ edgeIDs)
  end.

(** validateWorkflowStructure; [None] is the nil error. *)
Definition validateWorkflowStructure (nodes : list Node.t)
    (edges : list Edge.t) : option error :=
  if decide (length nodes = 0%nat)
  then Some (wrapf ErrInvalidWorkflowStructure
               ": workflow must have at least one node")
  else
    match scanNodes 0 nodes scan0 with
    | inl err => Some err
    | inr st =>
        if negb (hasStart st) then Some ErrMissingStartNode
        else if negb (hasEnd st) then Some ErrMissingEndNode
        else if decide (startNodeIndex st ≠ 0%Z) then Some ErrStartNodePosition
        else if decide (endNodeIndex st ≠ (Z.of_nat (length nodes) - 1)%Z)
        then Some ErrEndNodePosition
        else scanEdges (nodeIDs st) edges ∅
    end.

End workflow.

(* ===================================================================== *)
(** ** api/pkg/node: the node contract and the registry                   *)
(* ===================================================================== *)
Module node.
Import models.

Record BaseNode : Type := mkBaseNode {
  ID : string;
  Label : string;
  Description : string
}.

Record NodeOutputs : Type := mkOutputs {
  Data : gmap string any;
  Status : string;
  StartedAt : string;
  EndedAt : string;
  NextNodeID : string
}.

Record NodeInputs : Type := mkInputs {
  WorkflowInput : WorkflowInput.t;
  NodeData : gmap string any;
  PriorOutputs : gmap string NodeOutputs
}.

(** The Node interface.  A method with a pointer receiver may change the
    node it is called on, so [Execute] hands the node back. *)
Class Node (N : Type) : Type := {
  Type_ : N -> string;
  Execute : Env -> N -> NodeInputs -> M (N * NodeOutputs * option error);
  Validate : N -> option error;
  GetBaseInfo : N -> BaseNode
}.

Definition NodeFactory (N : Type) : Type := models.Node.t -> result N.

Record Registry (N : Type) : Type := mkRegistry {
  factories : gmap string (NodeFactory N)
}.
Arguments mkRegistry {N} factories.
Arguments factories {N} r.

Definition NewRegistry {N} : Registry N := mkRegistry ∅.

Definition Register {N} (r : Registry N) (nodeType : string)
    (factory : NodeFactory N) : Registry N :=
  mkRegistry (<[nodeType := factory]> (factories r)).

Definition Create {N} (r : Registry N) (nodeModel : models.Node.t) : result N :=
  match factories r !! models.Node.Type_ nodeModel with
  | None => Err (errors_New ("no factory registered for node type " +:+
                             models.Node.Type_ nodeModel))
  | Some factory => factory nodeModel
  end.

(** Helpers shared by the variants: the outputs a node starts from and the
    Failed return of a node. *)
Definition running (started : string) : NodeOutputs :=
  mkOutputs ∅ StatusRunning started "" "".

Definition baseOf (model : models.Node.t) : BaseNode :=
  mkBaseNode (models.Node.ID model)
             (NodeData.Label (models.Node.Data model))
             (NodeData.Description (models.Node.Data model)).

End node.

(* ===================================================================== *)
(** ** api/pkg/node/start, end, form                                      *)
(* ===================================================================== *)
Module start.
Import models node.
Section Start.
Context (env : Env).

Record Node : Type := mkNode { Base : BaseNode }.

Definition NewNode (model : models.Node.t) : result Node :=
  Ok (mkNode (baseOf model)).

Definition Type_ (n : Node) : string := NodeTypeStart.
Definition GetBaseInfo (n : Node) : BaseNode := Base n.

Definition Execute (n : Node) (inputs : NodeInputs)
    : M (Node * NodeOutputs * option error) :=
  started ← NowRFC3339 env;
  ended ← NowRFC3339 env;
  mret (n, mkOutputs ∅ StatusCompleted started ended "", None).

Definition Validate (n : Node) : option error := None.
End Start.
End start.

Module end_.
Import models node.
Section End_.
Context (env : Env).

Record Node : Type := mkNode { Base : BaseNode }.

Definition NewNode (model : models.Node.t) : result Node :=
  Ok (mkNode (baseOf model)).

Definition Type_ (n : Node) : string := NodeTypeEnd.
Definition GetBaseInfo (n : Node) : BaseNode := Base n.

Definition Execute (n : Node) (inputs : NodeInputs)
    : M (Node * NodeOutputs * option error) :=
  started ← NowRFC3339 env;
  ended ← NowRFC3339 env;
  let summary : gmap string any :=
    {[ "message" := VString "Workflow execution finished" ]} in
  let data : gmap string any :=
    if decide (0 < size summary)%nat
    then {[ "summary" := VMap summary ]} else ∅ in
  mret (n, mkOutputs data StatusCompleted started ended "", None).

Definition Validate (n : Node) : option error := None.
End End_.
End end_.

Module form.
Import models node.
Section Form.
Context (env : Env).

Record Node : Type := mkNode { Base : BaseNode }.

Definition NewNode (model : models.Node.t) : result Node :=
  Ok (mkNode (baseOf model)).

Definition Type_ (n : Node) : string := NodeTypeForm.
Definition GetBaseInfo (n : Node) : BaseNode := Base n.

Definition Execute (n : Node) (inputs : NodeInputs)
    : M (Node * NodeOutputs * option error) :=
  let input := WorkflowInput inputs in
  started ← NowRFC3339 env;
  let formData : gmap string any :=
    <[ "name" := VString (WorkflowInput.Name input) ]>
    (<[ "email" := VString (WorkflowInput.Email input) ]>
    (<[ "city" := VString (WorkflowInput.City input) ]>
    (<[ "threshold" := VFloat (WorkflowInput.Threshold input) ]>
    (<[ "operator" := VString (WorkflowInput.Operator input) ]> ∅)))) in
  let formType :=
    if decide (Label (Base n) ≠ "") then Label (Base n) else "user_input" in
  let details : gmap string any :=
    <[ "formType" := VString formType ]>
    (<[ "fieldCount" := VInt (Z.of_nat (size formData)) ]> ∅) in
  ended ← NowRFC3339 env;
  let data : gmap string any :=
    <[ "message" := VString "Form data processed successfully" ]>
    (<[ "formData" := VMap formData ]>
    (<[ "details" := VMap details ]>
    (<[ OutputKeyName := VString (WorkflowInput.Name input) ]>
    (<[ OutputKeyEmail := VString (WorkflowInput.Email input) ]>
    (<[ OutputKeyCity := VString (WorkflowInput.City input) ]> ∅))))) in
  mret (n, mkOutputs data StatusCompleted started ended "", None).

Definition Validate (n : Node) : option error := None.
End Form.
End form.

(* ===================================================================== *)
(** ** api/pkg/node/integration (with its weather client)                 *)
(* ===================================================================== *)
Module weather.

Record WeatherOption : Type := mkOption {
  City : string;
  Lat : float;
  Lon : float
}.

Record WeatherData : Type := mkData {
  Temperature : float;
  Location : string;
  RawResponse : gmap string any
}.

Section Weather.
Context (env : Env).

(** Client.GetWeather; the timeout of the request context is part of
    what the transport answers. *)
Definition GetWeather (endpoint : string) (lat lon : float)
    (cityName : string) : M (error + WeatherData) :=
  let url := ReplaceAll endpoint "{lat}" (Sprintf_f 6 lat) in
  let url := ReplaceAll url "{lon}" (Sprintf_f 6 lon) in
  match env_NewRequest env url with
  | Some err =>
      mret (inl (fmt_Errorf ("error creating request: " +:+ Error err) err))
  | None =>
      resp ← Do env url;
      match resp with
      | TransportError err =>
          mret (inl (fmt_Errorf ("failed to call weather API: " +:+ Error err) err))
      | Response code body =>
          if decide (code ≠ 200%Z)
          then mret (inl (errors_New ("weather API returned status " +:+ itoa code)))
          else
            match body with
            | inl err =>
                mret (inl (fmt_Errorf
                  ("failed to parse weather API response: " +:+ Error err) err))
            | inr weatherData =>
                match as_map (weatherData !! "current_weather") with
                | None => mret (inl (errors_New "invalid weather API response format"))
                | Some currentWeather =>
                    match as_float (currentWeather !! "temperature") with
                    | None => mret (inl (errors_New
                                "invalid temperature value in API response"))
                    | Some temperature =>
                        mret (inr (mkData temperature cityName weatherData))
                    end
                end
            end
      end
  end.

(** WeatherEmoji.Emoji *)
Definition Emoji (temp : float) : string :=
  if PrimFloat.leb 35 temp then "🥵"
  else if PrimFloat.leb 25 temp then "😎"
  else if PrimFloat.leb 15 temp then "🙂"
  else if PrimFloat.leb 5 temp then "🧥"
  else "🥶".
End Weather.
End weather.

Module integration.
Import models node.

Record Config : Type := mkConfig {
  APIEndpoint : string;
  Options : list weather.WeatherOption
}.

Record Node : Type := mkNode { Base : BaseNode; config : Config }.

(** The loop of NewNode over metadata["options"]. *)
Definition parseOption (opt : any) : list weather.WeatherOption :=
  match opt with
  | VMap option =>
      [ weather.mkOption
          (default "" (as_string (option !! "city")))
          (default 0%float (as_float (option !! "lat")))
          (default 0%float (as_float (option !! "lon"))) ]
  | _ => []
  end.

Definition NewNode (model : models.Node.t) : result Node :=
  let metadata := NodeData.Metadata (models.Node.Data model) in
  match as_string (metadata !! "apiEndpoint") with
  | None => Err (errors_New "missing API endpoint")
  | Some apiEndpoint =>
      let options :=
        match as_list (metadata !! "options") with
        | Some optionsRaw => optionsRaw ≫= parseOption
        | None => []
        end in
      Ok (mkNode (baseOf model) (mkConfig apiEndpoint options))
  end.

Definition Type_ (n : Node) : string := NodeTypeIntegration.
Definition GetBaseInfo (n : Node) : BaseNode := Base n.

(** [for _, option := range n.config.Options] with its break. *)
Fixpoint findCity (options : list weather.WeatherOption) (city : string)
    : option (float * float) :=
  match options with
  | [] => None
  | option :: rest =>
      if decide (weather.City option = city)
      then Some (weather.Lat option, weather.Lon option)
      else findCity rest city
  end.

Section Integration.
Context (env : Env).

Definition fail (n : Node) (started : string) (data : gmap string any)
    (err : error) : M (Node * NodeOutputs * option error) :=
  ended ← NowRFC3339 env;
  mret (n, mkOutputs data StatusFailed started ended "", Some err).

Definition Execute (n : Node) (inputs : NodeInputs)
    : M (Node * NodeOutputs * option error) :=
  started ← NowRFC3339 env;
  match PriorOutputs inputs !! NodeIDForm with
  | None =>
      fail n started {[ "error" := VString "Failed to get form data" ]}
           (errors_New "missing form data")
  | Some formOutput =>
      match as_string (Data formOutput !! "city") with
      | None =>
          fail n started
               {[ "error" := VString "Failed to get city from form output" ]}
               (errors_New "missing city")
      | Some city =>
          let n :=
            if Contains (Description (Base n)) "{{city}}"
            then mkNode (mkBaseNode (ID (Base n)) (Label (Base n))
                           (ReplaceAll (Description (Base n)) "{{city}}" city))
                        (config n)
            else n in
          match findCity (Options (config n)) city with
          | None =>
              fail n started
                   {[ "error" := VString ("City not found: " +:+ city) ]}
                   (errors_New ("city not found: " +:+ city))
          | Some (lat, lon) =>
              weatherData ← weather.GetWeather env (APIEndpoint (config n)) lat lon city;
              match weatherData with
              | inr weatherData =>
                  let temperature := weather.Temperature weatherData in
                  let data : gmap string any :=
                    <[ "message" := VString ("Retrieved temperature for " +:+ city
                          +:+ ": " +:+ Sprintf_f 1 temperature +:+ "°C") ]>
                    (<[ "apiResponse" := VMap
                          (<[ "endpoint" := VString (APIEndpoint (config n)) ]>
                          (<[ "method" := VString "GET" ]>
                          (<[ "data" := VMap
                                (<[ "temperature" := VFloat temperature ]>
                                (<[ "location" := VString city ]> ∅)) ]> ∅))) ]>
                    (<[ OutputKeyTemperature := VFloat temperature ]>
                    (<[ OutputKeyLocation := VString city ]> ∅))) in
                  ended ← NowRFC3339 env;
                  mret (n, mkOutputs data StatusCompleted started ended "", None)
              | inl err =>
                  fail n started
                       (<[ "message" := VString "Weather API request failed" ]>
                        {[ "error" := VString ("Weather API error: " +:+ Error err) ]})
                       (fmt_Errorf ("weather API error: " +:+ Error err) err)
              end
          end
      end
  end.
End Integration.

Definition Validate (n : Node) : option error :=
  if decide (APIEndpoint (config n) = "") then Some (errors_New "missing API endpoint")
  else if decide (length (Options (config n)) = 0%nat)
  then Some (errors_New "no location options configured")
  else None.

End integration.

(* ===================================================================== *)
(** ** api/pkg/node/condition                                             *)
(* ===================================================================== *)
Module condition.
Import models node.

Record Config : Type := mkConfig {
  ConditionExpression : string;
  TrueRoute : string;
  FalseRoute : string
}.

Record Node : Type := mkNode { Base : BaseNode; config : Config }.

(** NewNode walks the source handles only to look at them, but its
    unchecked [handle.(string)] panics on a handle that is not a string. *)
Definition NewNode (model : models.Node.t) : result Node :=
  let metadata := NodeData.Metadata (models.Node.Data model) in
  let expr := default "" (as_string (metadata !! "conditionExpression")) in
  let handlesOk :=
    match as_map (metadata !! "hasHandles") with
    | Some handles =>
        match as_list (handles !! "source") with
        | Some sourceHandles =>
            forallb (fun handle => bool_decide (is_Some (as_string (Some handle))))
                    sourceHandles
        | None => true
        end
    | None => true
    end in
  if handlesOk
  then Ok (mkNode (baseOf model) (mkConfig expr "" ""))
  else Panic "interface conversion: interface {} is not string".

Definition Type_ (n : Node) : string := NodeTypeCondition.
Definition GetBaseInfo (n : Node) : BaseNode := Base n.

Definition SetTrueRoute (n : Node) (nodeID : string) : Node :=
  mkNode (Base n)
         (mkConfig (ConditionExpression (config n)) nodeID (FalseRoute (config n))).

Definition SetFalseRoute (n : Node) (nodeID : string) : Node :=
  mkNode (Base n)
         (mkConfig (ConditionExpression (config n)) (TrueRoute (config n)) nodeID).

(** The first switch of Execute; no case matches an unknown operator and
    conditionMet keeps its zero value. *)
Definition evaluate (operator : string) (temperature threshold : float) : bool :=
  if decide (operator = OperatorGreaterThan) then PrimFloat.ltb threshold temperature
  else if decide (operator = OperatorLessThan) then PrimFloat.ltb temperature threshold
  else if decide (operator = OperatorEquals) then PrimFloat.eqb temperature threshold
  else if decide (operator = OperatorGreaterThanOrEqual)
  then PrimFloat.leb threshold temperature
  else if decide (operator = OperatorLessThanOrEqual)
  then PrimFloat.leb temperature threshold
  else false.

(** The second switch of Execute. *)
Definition operatorSymbol (operator : string) : string :=
  if decide (operator = OperatorLessThan) then "<"
  else if decide (operator = OperatorEquals) then "="
  else if decide (operator = OperatorGreaterThanOrEqual) then "≥"
  else if decide (operator = OperatorLessThanOrEqual) then "≤"
  else ">".

Section Condition.
Context (env : Env).

Definition Execute (n : Node) (inputs : NodeInputs)
    : M (Node * NodeOutputs * option error) :=
  started ← NowRFC3339 env;
  let tempNode : gmap string any :=
    match PriorOutputs inputs !! "weather-api" with
    | Some out => Data out
    | None => ∅
    end in
  match as_float (tempNode !! "temperature") with
  | None =>
      ended ← NowRFC3339 env;
      mret (n, mkOutputs {[ "error" := VString "Failed to get temperature" ]}
                         StatusFailed started ended "",
            Some (errors_New "missing temperature"))
  | Some temperature =>
      let threshold := WorkflowInput.Threshold (WorkflowInput inputs) in
      let operator := WorkflowInput.Operator (WorkflowInput inputs) in
      let conditionMet := evaluate operator temperature threshold in
      let nextNodeID :=
        if conditionMet then TrueRoute (config n) else FalseRoute (config n) in
      let emoji := weather.Emoji temperature in
      let symbol := operatorSymbol operator in
      let message :=
        "Temperature " +:+ Sprintf_f 1 temperature +:+ "°C " +:+ symbol +:+ " "
        +:+ Sprintf_f 1 threshold +:+ "°C " +:+ emoji +:+ " - condition "
        +:+ (if conditionMet then "met" else "not met") in
      let expression := "temperature " +:+ symbol +:+ " threshold" in
      evaluatedAt ← NowRFC3339 env;
      let data : gmap string any :=
        <[ "message" := VString message ]>
        (<[ "conditionResult" := VMap
              (<[ "expression" := VString expression ]>
              (<[ "result" := VBool conditionMet ]>
              (<[ "temperature" := VFloat temperature ]>
              (<[ "operator" := VString operator ]>
              (<[ "threshold" := VFloat threshold ]> ∅))))) ]>
        (<[ "details" := VMap
              (<[ "conditionType" := VString "temperature" ]>
              (<[ "evaluatedAt" := VString evaluatedAt ]> ∅)) ]> ∅)) in
      ended ← NowRFC3339 env;
      mret (n, mkOutputs data StatusCompleted started ended nextNodeID, None)
  end.
End Condition.

Definition Validate (n : Node) : option error :=
  if decide (TrueRoute (config n) = "" ∨ FalseRoute (config n) = "")
  then Some (errors_New "condition node requires both true and false routes")
  else None.

End condition.

(* ===================================================================== *)
(** ** api/pkg/mailer and api/pkg/node/email                              *)
(* ===================================================================== *)
Module mailer.

Record EmailTemplate : Type := mkTemplate {
  Subject : string;
  Body : string
}.

Section Mailer.
Context (env : Env).

(** The body of the loop of processTemplate for one key. *)
Definition substitute (variables : gmap string any) (result key : string)
    : string :=
  match variables !! key with
  | None => result
  | Some value =>
      let placeholder := "{{" +:+ key +:+ "}}" in
      let stringValue :=
        match value with
        | VFloat v => Sprintf_f 1 v
        | VInt v => itoa v
        | VString v => v
        | _ => Sprint_v env value
        end in
      ReplaceAll result placeholder stringValue
  end.

(** processTemplate: one [range] over the variables. *)
Definition processTemplate (template : string) (variables : gmap string any)
    : M string :=
  keys ← RangeKeys env variables;
  mret (foldl (substitute variables) template keys).

(** PrepareAndStubSendEmail; building the gomail message and the debug
    log leave no trace in the result. *)
Definition PrepareAndStubSendEmail (to : string)
    (variables : gmap string any) (template : EmailTemplate)
    : M (gmap string any * option error) :=
  subject ← processTemplate (Subject template) variables;
  body ← processTemplate (Body template) variables;
  timestamp ← NowRFC3339 env;
  mret (<[ "to" := VString to ]>
        (<[ "from" := VString "weather-alerts@checkbox.com" ]>
        (<[ "subject" := VString subject ]>
        (<[ "body" := VString body ]>
        (<[ "variables" := VMap variables ]>
        (<[ "timestamp" := VString timestamp ]> ∅))))), None).
End Mailer.
End mailer.

Module email.
Import models node.

Record Node : Type := mkNode {
  Base : BaseNode;
  InputVariables : list string;
  EmailTemplate : mailer.EmailTemplate
}.

Definition NewNode (model : models.Node.t) : result Node :=
  let metadata := NodeData.Metadata (models.Node.Data model) in
  match metadata !! "inputVariables" with
  | None => Ok (mkNode (baseOf model) [] (mailer.mkTemplate "" ""))
  | Some meta =>
      let inputVariables :=
        match meta with
        | VList inputVars =>
            inputVars ≫= (fun v => match v with VString s => [s] | _ => [] end)
        | _ => []
        end in
      let template :=
        match as_map (metadata !! "emailTemplate") with
        | Some template =>
            mailer.mkTemplate (default "" (as_string (template !! "subject")))
                              (default "" (as_string (template !! "body")))
        | None => mailer.mkTemplate "" ""
        end in
      Ok (mkNode (baseOf model) inputVariables template)
  end.

Definition Type_ (n : Node) : string := NodeTypeEmail.
Definition GetBaseInfo (n : Node) : BaseNode := Base n.

(** [for _, output := range inputs.PriorOutputs] with its break, over the
    keys in the order the range visits them. *)
Fixpoint lookupVar (priorOutputs : gmap string NodeOutputs) (varName : string)
    (keys : list string) : option any :=
  match keys with
  | [] => None
  | key :: rest =>
      match priorOutputs !! key ≫= (fun output => Data output !! varName) with
      | Some value => Some value
      | None => lookupVar priorOutputs varName rest
      end
  end.

Section Email.
Context (env : Env).

Definition fail (n : Node) (started : string) (data : gmap string any)
    (err : error) : M (Node * NodeOutputs * option error) :=
  ended ← NowRFC3339 env;
  mret (n, mkOutputs data StatusFailed started ended "", Some err).

Definition failure (text : string) : gmap string any :=
  <[ "message" := VString "Failed to process email" ]>
  {[ "error" := VString text ]}.

(** [for _, varName := range n.InputVariables]: the template variables,
    or the first variable that no prior output has. *)
Fixpoint collect (priorOutputs : gmap string NodeOutputs)
    (vars : list string) (templateVars : gmap string any)
    : M (string + gmap string any) :=
  match vars with
  | [] => mret (inr templateVars)
  | varName :: rest =>
      keys ← RangeKeys env priorOutputs;
      match lookupVar priorOutputs varName keys with
      | Some value => collect priorOutputs rest (<[ varName := value ]> templateVars)
      | None => mret (inl varName)
      end
  end.

Definition Execute (n : Node) (inputs : NodeInputs)
    : M (Node * NodeOutputs * option error) :=
  started ← NowRFC3339 env;
  match PriorOutputs inputs !! NodeIDCondition with
  | None =>
      fail n started (failure "Failed to get condition result")
           (errors_New "failed to get condition result")
  | Some conditionNodeOutput =>
      match as_map (Data conditionNodeOutput !! "conditionResult") with
      | None =>
          fail n started (failure "Failed to get condition result")
               (errors_New "invalid condition result format")
      | Some conditionResult =>
          match as_bool (conditionResult !! "result") with
          | None =>
              fail n started (failure "Failed to get condition result")
                   (errors_New "invalid condition result format")
          | Some false =>
              let data : gmap string any :=
                <[ "message" := VString "Email not sent - condition not met" ]>
                {[ "details" := VMap {[ "reason" := VString "Condition not met" ]} ]} in
              ended ← NowRFC3339 env;
              mret (n, mkOutputs data StatusCompleted started ended "", None)
          | Some true =>
              match PriorOutputs inputs !! NodeIDForm with
              | None =>
                  fail n started (failure "Failed to get form data")
                       (errors_New "missing form data")
              | Some formOutput =>
                  match as_string (Data formOutput !! "email") with
                  | None =>
                      fail n started (failure "Failed to get email from form output")
                           (errors_New "missing email")
                  | Some email =>
                      vars ← collect (PriorOutputs inputs) (InputVariables n) ∅;
                      match vars with
                      | inl varName =>
                          fail n started
                               (failure ("Missing required variable: " +:+ varName))
                               (errors_New ("missing required variable: " +:+ varName))
                      | inr templateVars =>
                          sent ← mailer.PrepareAndStubSendEmail env email templateVars
                                   (EmailTemplate n);
                          match sent with
                          | (_, Some err) =>
                              fail n started
                                   {[ "error" := VString ("Failed to send email: "
                                                          +:+ Error err) ]}
                                   (fmt_Errorf ("email sending failed: " +:+ Error err) err)
                          | (emailPayload, None) =>
                              let subject := default "" (as_string (emailPayload !! "subject")) in
                              let body := default "" (as_string (emailPayload !! "body")) in
                              timestamp ← NowRFC3339 env;
                              let data : gmap string any :=
                                <[ "message" := VString "Email sent successfully" ]>
                                (<[ "details" := VMap
                                      {[ "outputVariables" := VStrings ["emailSent"] ]} ]>
                                (<[ "emailContent" := VMap
                                      (<[ "to" := VString email ]>
                                      (<[ "subject" := VString subject ]>
                                      (<[ "body" := VString body ]>
                                      (<[ "timestamp" := VString timestamp ]> ∅)))) ]> ∅)) in
                              ended ← NowRFC3339 env;
                              mret (n, mkOutputs data StatusCompleted started ended "", None)
                          end
                      end
                  end
              end
          end
      end
  end.
End Email.

Definition Validate (n : Node) : option error :=
  if decide (length (InputVariables n) = 0%nat)
  then Some (errors_New "email node requires at least one input variable")
  else if decide (mailer.Subject (EmailTemplate n) = "" ∨ mailer.Body (EmailTemplate n) = "")
  then Some (errors_New "email node requires both subject and body templates")
  else None.

End email.

(* ===================================================================== *)
(** ** api/internal/execution: the engine                                 *)
(* ===================================================================== *)
Module execution.
Import models node.

(** The type assertion of initializeWorkflow to a pointer to condition.Node and
    the way back: the engine holds nodes behind the interface and changes a
    condition node through the asserted pointer. *)
Class ConditionCast (N : Type) : Type := {
  asCondition : N -> option condition.Node;
  ofCondition : condition.Node -> N
}.

Section Engine.
Context {N : Type} `{!Node N} `{!ConditionCast N}.
Context (env : Env) (registry : Registry N).

(** The first loop of initializeWorkflow. *)
Fixpoint createNodes (models : list models.Node.t) (nodes : gmap string N)
    (startNodeID : string) : result (gmap string N * string) :=
  match models with
  | [] => Ok (nodes, startNodeID)
  | nodeModel :: rest =>
      match Create registry nodeModel with
      | Err err =>
          Err (fmt_Errorf ("failed to create node " +:+ models.Node.ID nodeModel
                           +:+ ": " +:+ Error err) err)
      | Panic reason => Panic reason
      | Ok n =>
          createNodes rest (<[ models.Node.ID nodeModel := n ]> nodes)
            (if decide (Type_ n = NodeTypeStart)
             then models.Node.ID nodeModel else startNodeID)
      end
  end.

(** The body of the second loop, for one edge. *)
Definition addEdge (acc : gmap string (gmap string string) * gmap string N)
    (edge : Edge.t) : gmap string (gmap string string) * gmap string N :=
  let '(edges, nodes) := acc in
  let routeKey := Edge.SourceHandle edge in
  let edges :=
    <[ Edge.Source edge :=
         <[ routeKey := Edge.Target edge ]> (default ∅ (edges !! Edge.Source edge)) ]>
      edges in
  let nodes :=
    if decide (routeKey = "true" ∨ routeKey = "false") then
      match nodes !! Edge.Source edge with
      | Some n =>
          if decide (Type_ n = NodeTypeCondition) then
            match asCondition n with
            | Some condNode =>
                <[ Edge.Source edge :=
                     ofCondition
                       (if decide (routeKey = "true")
                        then condition.SetTrueRoute condNode (Edge.Target edge)
                        else condition.SetFalseRoute condNode (Edge.Target edge)) ]>
                  nodes
            | None => nodes
            end
          else nodes
      | None => nodes
      end
    else nodes in
  (edges, nodes).

Definition initializeWorkflow (workflow : Workflow.t)
    : result (gmap string N * gmap string (gmap string string) * string) :=
  match createNodes (Workflow.Nodes workflow) ∅ "" with
  | Err err => Err err
  | Panic reason => Panic reason
  | Ok (nodes, startNodeID) =>
      if decide (startNodeID = "")
      then Err (errors_New "no start node found in workflow")
      else
        let '(edges, nodes) := foldl addEdge (∅, nodes) (Workflow.Edges workflow) in
        Ok (nodes, edges, startNodeID)
  end.

Definition createExecutionStep (n : N) (nodeID : string)
    (outputs : NodeOutputs) : ExecutionStep.t :=
  let startTime := env_Parse env (StartedAt outputs) in
  let endTime := env_Parse env (EndedAt outputs) in
  let duration := SubMilliseconds endTime startTime in
  let status :=
    if decide (Status outputs = StatusFailed) then StatusFailed
    else StatusCompleted in
  let errorMsg := default "" (as_string (Data outputs !! "error")) in
  let baseInfo := GetBaseInfo n in
  ExecutionStep.mk nodeID 0 (Type_ n) status (Label baseInfo)
    (Description baseInfo) duration (Data outputs) (StartedAt outputs)
    errorMsg (StartedAt outputs) (EndedAt outputs).

Definition route (edges : gmap string (gmap string string))
    (source routeKey : string) : option string :=
  edges !! source ≫= (fun routes => routes !! routeKey).

Definition findNextNode (currentNode : N) (currentNodeID : string)
    (outputs : NodeOutputs) (edges : gmap string (gmap string string))
    : error + string :=
  if decide (NextNodeID outputs ≠ "") then inr (NextNodeID outputs)
  else
    let conditional :=
      if decide (Type_ currentNode = NodeTypeCondition) then
        route edges currentNodeID
          (if decide (as_bool (Data outputs !! "conditionMet") = Some true)
           then "true" else "false")
      else None in
    match conditional with
    | Some nextNode => inr nextNode
    | None =>
        match route edges currentNodeID "" with
        | Some nextNode => inr nextNode
        | None => inl (errors_New ("node " +:+ currentNodeID +:+
                                   " has no outgoing edges"))
        end
    end.

(** The variables the [for] loop of Execute carries from one iteration
    to the next. *)
Record LoopState : Type := mkLoop {
  nodes : gmap string N;
  priorOutputs : gmap string NodeOutputs;
  execution : WorkflowExecution.t;
  currentNodeID : string;
  stepNumber : Z
}.

Inductive Outcome : Type :=
  | Done (r : result WorkflowExecution.t)
  | Next (st : LoopState).

(** The two places where Execute closes the record. *)
Definition finish (execution : WorkflowExecution.t) (status : string)
    : M WorkflowExecution.t :=
  endTime ← Now env;
  let startTime := env_Parse env (WorkflowExecution.StartTime execution) in
  mret (WorkflowExecution.mk
          (WorkflowExecution.ID execution)
          (WorkflowExecution.WorkflowID execution)
          status
          (WorkflowExecution.StartTime execution)
          (env_RFC3339 env endTime)
          (SubMilliseconds endTime startTime)
          (WorkflowExecution.Steps execution)
          (WorkflowExecution.Metadata execution)
          (WorkflowExecution.ExecutedAt execution)).

Definition appendStep (execution : WorkflowExecution.t)
    (step : ExecutionStep.t) : WorkflowExecution.t :=
  WorkflowExecution.mk
    (WorkflowExecution.ID execution)
    (WorkflowExecution.WorkflowID execution)
    (WorkflowExecution.Status execution)
    (WorkflowExecution.StartTime execution)
    (WorkflowExecution.EndTime execution)
    (WorkflowExecution.TotalDuration execution)
    (WorkflowExecution.Steps execution ++ [step])
    (WorkflowExecution.Metadata execution)
    (WorkflowExecution.ExecutedAt execution).

Definition numbered (step : ExecutionStep.t) (stepNumber : Z) : ExecutionStep.t :=
  ExecutionStep.mk (ExecutionStep.NodeID step) stepNumber
    (ExecutionStep.NodeType step) (ExecutionStep.Status step)
    (ExecutionStep.Label step) (ExecutionStep.Description step)
    (ExecutionStep.Duration step) (ExecutionStep.Output step)
    (ExecutionStep.Timestamp step) (ExecutionStep.Error step)
    (ExecutionStep.StartedAt step) (ExecutionStep.EndedAt step).

(** One pass through the body of the [for] loop. *)
Definition iteration (input : WorkflowInput.t)
    (edges : gmap string (gmap string string)) (st : LoopState) : M Outcome :=
  match nodes st !! currentNodeID st with
  | None =>
      mret (Done (Err (errors_New ("node " +:+ currentNodeID st +:+
                                   " not found in workflow"))))
  | Some currentNode =>
      let nodeInputs := mkInputs input ∅ (priorOutputs st) in
      '(currentNode, outputs, err) ← Execute env currentNode nodeInputs;
      let step :=
        numbered (createExecutionStep currentNode (currentNodeID st) outputs)
                 (stepNumber st) in
      let execution := appendStep (execution st) step in
      let priorOutputs := <[ currentNodeID st := outputs ]> (priorOutputs st) in
      let nodes := <[ currentNodeID st := currentNode ]> (nodes st) in
      if decide (is_Some err ∨ Status outputs = StatusFailed) then
        execution ← finish execution StatusFailed;
        mret (Done (Ok execution))
      else if decide (Type_ currentNode = NodeTypeEnd) then
        execution ← finish execution StatusCompleted;
        mret (Done (Ok execution))
      else
        match findNextNode currentNode (currentNodeID st) outputs edges with
        | inl err => mret (Done (Err err))
        | inr nextNodeID =>
            mret (Next (mkLoop nodes priorOutputs execution nextNodeID
                               (stepNumber st + 1)))
        end
  end.

(** The [for] loop, cut off after [fuel] iterations; [None] means the
    loop is still running then. *)
Fixpoint loop (fuel : nat) (input : WorkflowInput.t)
    (edges : gmap string (gmap string string)) (st : LoopState)
    : M (option (result WorkflowExecution.t)) :=
  match fuel with
  | O => mret None
  | S fuel =>
      out ← iteration input edges st;
      match out with
      | Done r => mret (Some r)
      | Next st => loop fuel input edges st
      end
  end.

(** The record Execute sets up before anything else. *)
Definition newExecution (workflow : Workflow.t) (input : WorkflowInput.t)
    : M WorkflowExecution.t :=
  startTime ← Now env;
  id ← NewUUID env;
  mret (WorkflowExecution.mk id (Workflow.ID workflow) StatusRunning
          (env_RFC3339 env startTime) "" 0 []
          (<[ "workflowVersion" := VInt (Workflow.Version workflow) ]>
           {[ "triggeredBy" := VString (WorkflowInput.Name input) ]})
          startTime).

(** Engine.Execute.  [Ok execution] is the return [(execution, nil)] and
    [Err err] the return [(nil, err)]. *)
Definition Execute (fuel : nat) (workflow : Workflow.t)
    (input : WorkflowInput.t) : M (option (result WorkflowExecution.t)) :=
  execution ← newExecution workflow input;
  match initializeWorkflow workflow with
  | Err err => mret (Some (Err err))
  | Panic reason => mret (Some (Panic reason))
  | Ok (nodes, edges, startNodeID) =>
      loop fuel input edges (mkLoop nodes ∅ execution startNodeID 1)
  end.
End Engine.

Arguments LoopState N : clear implicits.
Arguments Outcome N : clear implicits.
End execution.

(* ===================================================================== *)
(** ** api/cmd/api: the node types the program registers                  *)
(* ===================================================================== *)
Module main.
Import models node.

(** A node behind the Node interface is one of the six implementations. *)
Inductive Builtin : Type :=
  | Start (n : start.Node)
  | Form (n : form.Node)
  | Integration (n : integration.Node)
  | Condition (n : condition.Node)
  | Email (n : email.Node)
  | End_ (n : end_.Node).

Definition Builtin_Type (n : Builtin) : string :=
  match n with
  | Start n => start.Type_ n
  | Form n => form.Type_ n
  | Integration n => integration.Type_ n
  | Condition n => condition.Type_ n
  | Email n => email.Type_ n
  | End_ n => end_.Type_ n
  end.

Definition lift {A} (inj : A -> Builtin)
    (m : M (A * NodeOutputs * option error))
    : M (Builtin * NodeOutputs * option error) :=
  '(n, outputs, err) ← m; mret (inj n, outputs, err).

Definition Builtin_Execute (env : Env) (n : Builtin) (inputs : NodeInputs)
    : M (Builtin * NodeOutputs * option error) :=
  match n with
  | Start n => lift Start (start.Execute env n inputs)
  | Form n => lift Form (form.Execute env n inputs)
  | Integration n => lift Integration (integration.Execute env n inputs)
  | Condition n => lift Condition (condition.Execute env n inputs)
  | Email n => lift Email (email.Execute env n inputs)
  | End_ n => lift End_ (end_.Execute env n inputs)
  end.

Definition Builtin_Validate (n : Builtin) : option error :=
  match n with
  | Start n => start.Validate n
  | Form n => form.Validate n
  | Integration n => integration.Validate n
  | Condition n => condition.Validate n
  | Email n => email.Validate n
  | End_ n => end_.Validate n
  end.

Definition Builtin_GetBaseInfo (n : Builtin) : BaseNode :=
  match n with
  | Start n => start.GetBaseInfo n
  | Form n => form.GetBaseInfo n
  | Integration n => integration.GetBaseInfo n
  | Condition n => condition.GetBaseInfo n
  | Email n => email.GetBaseInfo n
  | End_ n => end_.GetBaseInfo n
  end.

#[global] Instance Builtin_Node : Node Builtin := {
  Type_ := Builtin_Type;
  Execute := Builtin_Execute;
  Validate := Builtin_Validate;
  GetBaseInfo := Builtin_GetBaseInfo
}.

#[global] Instance Builtin_ConditionCast : execution.ConditionCast Builtin := {
  asCondition n := match n with Condition c => Some c | _ => None end;
  ofCondition := Condition
}.

Definition factory {A} (inj : A -> Builtin) (newNode : models.Node.t -> result A)
    : NodeFactory Builtin :=
  fun model =>
    match newNode model with
    | Ok n => Ok (inj n)
    | Err e => Err e
    | Panic reason => Panic reason
    end.

Definition registerNodeTypes (registry : Registry Builtin) : Registry Builtin :=
  let registry := Register registry NodeTypeStart (factory Start start.NewNode) in
  let registry := Register registry NodeTypeForm (factory Form form.NewNode) in
  let registry := Register registry NodeTypeIntegration
                    (factory Integration integration.NewNode) in
  let registry := Register registry NodeTypeCondition
                    (factory Condition condition.NewNode) in
  let registry := Register registry NodeTypeEmail (factory Email email.NewNode) in
  Register registry NodeTypeEnd (factory End_ end_.NewNode).

Definition nodeRegistry : Registry Builtin := registerNodeTypes NewRegistry.

End main.

(* ===================================================================== *)
(** ** Vocabulary of the properties                                       *)
(* ===================================================================== *)
Module props.
Import models node workflow.

Definition ids (nodes : list Node.t) : list string := Node.ID <$> nodes.

(** Invariant 4: ids non-empty and unique, types non-empty. *)
Definition node_fields_ok (nodes : list Node.t) : Prop :=
  Forall (fun n => Node.ID n ≠ "" ∧ Node.Type_ n ≠ "") nodes ∧ NoDup (ids nodes).

Definition has_type (ty : string) (nodes : list Node.t) : Prop :=
  ∃ n, n ∈ nodes ∧ Node.Type_ n = ty.

(** Invariant 2: the start-type nodes are exactly the first node. *)
Definition start_first_only (nodes : list Node.t) : Prop :=
  ∀ i n, nodes !! i = Some n -> (Node.Type_ n = NodeTypeStart <-> i = 0%nat).

(** Invariant 3 as the specification words it: the end-type nodes are
    exactly the last node. *)
Definition end_last_only (nodes : list Node.t) : Prop :=
  ∀ i n, nodes !! i = Some n -> (Node.Type_ n = NodeTypeEnd <-> S i = length nodes).

(** Invariant 3 as far as the validator checks it: the last node is of
    end type. *)
Definition end_last (nodes : list Node.t) : Prop :=
  ∃ n, last nodes = Some n ∧ Node.Type_ n = NodeTypeEnd.

(** Invariant 5. *)
Definition edge_fields_ok (nodes : list Node.t) (edges : list Edge.t) : Prop :=
  Forall (fun e => Edge.ID e ≠ "" ∧ Edge.Source e ≠ "" ∧ Edge.Target e ≠ "" ∧
                   Edge.Source e ∈ ids nodes ∧ Edge.Target e ∈ ids nodes) edges ∧
  NoDup (Edge.ID <$> edges).

(** The invariants of the specification (section 3). *)
Definition invariants_spec (nodes : list Node.t) (edges : list Edge.t) : Prop :=
  nodes ≠ [] ∧ start_first_only nodes ∧ end_last_only nodes ∧
  node_fields_ok nodes ∧ edge_fields_ok nodes edges.

(** The graphs the validator lets through. *)
Definition accepted_shape (nodes : list Node.t) (edges : list Edge.t) : Prop :=
  nodes ≠ [] ∧ start_first_only nodes ∧ end_last nodes ∧
  node_fields_ok nodes ∧ edge_fields_ok nodes edges.

(** What each sentinel error says about the graph. *)
Inductive Violation (nodes : list Node.t) (edges : list Edge.t) : error -> Prop :=
  | V_no_nodes : nodes = [] -> Violation nodes edges ErrInvalidWorkflowStructure
  | V_empty_node_id :
      (∃ n, n ∈ nodes ∧ Node.ID n = "") -> Violation nodes edges ErrEmptyNodeID
  | V_duplicate_node_id :
      ¬ NoDup (ids nodes) -> Violation nodes edges ErrDuplicateNodeID
  | V_node_type :
      (∃ n, n ∈ nodes ∧ Node.Type_ n = "") -> Violation nodes edges ErrInvalidNodeType
  | V_missing_start :
      ¬ has_type NodeTypeStart nodes -> Violation nodes edges ErrMissingStartNode
  | V_missing_end :
      ¬ has_type NodeTypeEnd nodes -> Violation nodes edges ErrMissingEndNode
  | V_start_position :
      (∃ i n, nodes !! S i = Some n ∧ Node.Type_ n = NodeTypeStart) ->
      Violation nodes edges ErrStartNodePosition
  | V_end_position :
      (∃ n, last nodes = Some n ∧ Node.Type_ n ≠ NodeTypeEnd) ->
      Violation nodes edges ErrEndNodePosition
  | V_empty_edge_id :
      (∃ e, e ∈ edges ∧ Edge.ID e = "") -> Violation nodes edges ErrEmptyEdgeID
  | V_duplicate_edge_id :
      ¬ NoDup (Edge.ID <$> edges) -> Violation nodes edges ErrDuplicateEdgeID
  | V_edge_connection :
      (∃ e, e ∈ edges ∧ (Edge.Source e = "" ∨ Edge.Target e = "")) ->
      Violation nodes edges ErrInvalidEdgeConnection
  | V_edge_unknown :
      (∃ e, e ∈ edges ∧ (Edge.Source e ∉ ids nodes ∨ Edge.Target e ∉ ids nodes)) ->
      Violation nodes edges ErrEdgeToUnknownNode.

(** The last index at or after [i] that holds a node of type [ty], as the
    first loop of the validator tracks it. *)
Fixpoint lastOf (ty : string) (i : Z) (nodes : list Node.t) (acc : bool * Z)
    : bool * Z :=
  match nodes with
  | [] => acc
  | n :: rest =>
      lastOf ty (i + 1) rest (if decide (Node.Type_ n = ty) then (true, i) else acc)
  end.

Definition node_error (err : error) : Prop :=
  errors_Is err ErrEmptyNodeID = true ∨ errors_Is err ErrDuplicateNodeID = true ∨
  errors_Is err ErrInvalidNodeType = true.

Definition edge_error (err : error) : Prop :=
  errors_Is err ErrEmptyEdgeID = true ∨ errors_Is err ErrDuplicateEdgeID = true ∨
  errors_Is err ErrInvalidEdgeConnection = true ∨
  errors_Is err ErrEdgeToUnknownNode = true.


(** *** Nodes *)

(** What a condition node reports: status, error, the result entry of
    conditionResult and the next node. *)
Definition verdict (r : condition.Node * NodeOutputs * option error * World)
    : string * option error * option any * string :=
  let '(_, outputs, err, _) := r in
  (Status outputs, err,
   as_map (Data outputs !! "conditionResult") ≫= (fun m => m !! "result"),
   NextNodeID outputs).

(** The five operator tags of the specification. *)
Definition recognized (operator : string) : Prop :=
  operator = OperatorGreaterThan ∨ operator = OperatorLessThan ∨
  operator = OperatorEquals ∨ operator = OperatorGreaterThanOrEqual ∨
  operator = OperatorLessThanOrEqual.


Definition alert_body : string :=
  "Weather alert for {{city}}! Temperature is {{temperature}}°C!".


(** What a failed node leaves behind: status, a non-nil error and the text
    under "error" in its data. *)
Definition fails_with {N} (r : N * NodeOutputs * option error * World)
    (text : string) : Prop :=
  let '(_, outputs, err, _) := r in
  Status outputs = StatusFailed ∧ is_Some err ∧
  Data outputs !! "error" = Some (VString text).

(** The literal node id under which a node looks for upstream data, and
    the text it fails with when no output is recorded under that id. *)
Definition upstream (n : main.Builtin) : option (string * string) :=
  match n with
  | main.Integration _ => Some (NodeIDForm, "Failed to get form data")
  | main.Condition _ => Some ("weather-api", "Failed to get temperature")
  | main.Email _ => Some (NodeIDCondition, "Failed to get condition result")
  | _ => None
  end.

(** A node of a registered type either completes with a nil error or
    fails with status Failed, a non-nil error and a text under "error". *)
Definition well_reported
    (r : main.Builtin * NodeOutputs * option error * World) : Prop :=
  let '(_, outputs, err, _) := r in
  (Status outputs = StatusCompleted ∧ err = None) ∨
  (Status outputs = StatusFailed ∧ is_Some err ∧
   ∃ text, Data outputs !! "error" = Some (VString text)).

(** *** Runs of the engine *)
Section Runs.
Context {N : Type} `{!Node N} `{!execution.ConditionCast N}.
Context (env : Env) (registry : Registry N).
Context (input : WorkflowInput.t) (edges : gmap string (gmap string string)).

(** The step the loop appends for a node and its outputs. *)
Definition stepOf (st : execution.LoopState N) (n' : N) (outputs : NodeOutputs)
    : ExecutionStep.t :=
  execution.numbered
    (execution.createExecutionStep env n' (execution.currentNodeID st) outputs)
    (execution.stepNumber st).

(** The loop variables and the world after [k] passes through the loop
    body, when none of them left the loop. *)
Fixpoint after (k : nat) (st : execution.LoopState N) (w : World)
    : option (execution.LoopState N * World) :=
  match k with
  | O => Some (st, w)
  | S k =>
      match execution.iteration env input edges st w with
      | (execution.Next st', w') => after k st' w'
      | (execution.Done _, _) => None
      end
  end.

(** The ids of the nodes executed by the first [fuel] passes. *)
Fixpoint trace (fuel : nat) (st : execution.LoopState N) (w : World)
    : list string :=
  match fuel with
  | O => []
  | S fuel =>
      match execution.nodes st !! execution.currentNodeID st with
      | None => []
      | Some _ =>
          execution.currentNodeID st ::
          match execution.iteration env input edges st w with
          | (execution.Next st', w') => trace fuel st' w'
          | (execution.Done _, _) => []
          end
      end
  end.
End Runs.




(** The last step of an execution record. *)
Definition last_step (execution : WorkflowExecution.t) : option ExecutionStep.t :=
  last (WorkflowExecution.Steps execution).

End props.

(* ===================================================================== *)
(** ** Concrete graphs and inputs used by the examples                    *)
(* ===================================================================== *)
Module examples.
Import models node props execution.

Definition plain (id ty : string) : Node.t :=
  Node.mk id ty (NodeData.mk "" "" ∅).

(** A start node followed by two end nodes. *)
Definition two_ends : list Node.t :=
  [plain "a" NodeTypeStart; plain "b" NodeTypeEnd; plain "c" NodeTypeEnd].

(** One form node without an id: no start node and an empty node id. *)
Definition no_start_empty_id : list Node.t := [plain "" NodeTypeForm].

(** An environment: a clock that ticks once per reading, ranges in key
    order, and a weather service that answers every request with 25.5. *)
Definition env0 : Env := {|
  env_Now k := Z.of_nat k;
  env_RFC3339 t := itoa t;
  env_Parse s := 0%Z;
  env_uuid k := "00000000-0000-4000-8000-000000000000";
  env_range k l := l;
  env_range_perm k l := reflexivity l;
  env_NewRequest url := None;
  env_Do k url :=
    Response 200
      (inr {[ "current_weather" := VMap {[ "temperature" := VFloat 25.5 ]} ]});
  env_Sprint v := ""
|}.

Definition w0 : World := mkWorld 0 0 [].

Definition sydney : WorkflowInput.t :=
  WorkflowInput.mk "John" "john@example.com" "Sydney" 20 OperatorGreaterThan None.

Definition nowhere : WorkflowInput.t :=
  WorkflowInput.mk "John" "john@example.com" "Nowhereville" 20
                   OperatorGreaterThan None.

(** start -> form -> form: validated, no duplicate (source, routeKey)
    pair, and a cycle. *)
Definition self_loop : Workflow.t :=
  Workflow.mk "wf-loop" "loop" 1
    [plain "start" NodeTypeStart; plain "form" NodeTypeForm; plain "end" NodeTypeEnd]
    [Edge.mk "e1" "start" "form" ""; Edge.mk "e2" "form" "form" ""].

(** The weather alert workflow of the repository's seed data, reduced to
    what the nodes read. *)
Definition weather_alert : Workflow.t :=
  Workflow.mk "wf-weather" "weather alert" 1
    [ plain "start" NodeTypeStart;
      plain "form" NodeTypeForm;
      Node.mk "weather-api" NodeTypeIntegration
        (NodeData.mk "Weather API" "Weather in {{city}}"
           (<[ "apiEndpoint" := VString "https://weather.test/?lat={lat}&lon={lon}" ]>
            {[ "options" := VList
                 [VMap (<[ "city" := VString "Sydney" ]>
                        (<[ "lat" := VFloat (-33.75) ]>
                         {[ "lon" := VFloat 151.25 ]}))] ]}));
      plain "condition" NodeTypeCondition;
      Node.mk "email" NodeTypeEmail
        (NodeData.mk "Send Alert" ""
           (<[ "inputVariables" := VList [VString "city"; VString "temperature"] ]>
            {[ "emailTemplate" := VMap
                 (<[ "subject" := VString "Weather Alert" ]>
                  {[ "body" := VString
                       "Weather alert for {{city}}! Temperature is {{temperature}}°C!" ]}) ]}));
      plain "end" NodeTypeEnd ]
    [ Edge.mk "e1" "start" "form" "";
      Edge.mk "e2" "form" "weather-api" "";
      Edge.mk "e3" "weather-api" "condition" "";
      Edge.mk "e4" "condition" "email" "true";
      Edge.mk "e5" "condition" "end" "false";
      Edge.mk "e6" "email" "end" "" ].

(** The same workflow with its nodes named after their position. *)
Definition renamed : Workflow.t :=
  Workflow.mk "wf-renamed" "renamed" 1
    [ plain "n1" NodeTypeStart;
      plain "n2" NodeTypeForm;
      Node.mk "n3" NodeTypeIntegration
        (NodeData.mk "" "" {[ "apiEndpoint" := VString "https://weather.test/" ]});
      plain "n4" NodeTypeEnd ]
    [ Edge.mk "e1" "n1" "n2" ""; Edge.mk "e2" "n2" "n3" "";
      Edge.mk "e3" "n3" "n4" "" ].

(** *** Inputs of single nodes and points of a run *)

(** A condition node with both routes set, after a weather-api node that
    reported 25.5. *)
Definition hot : NodeOutputs :=
  mkOutputs {[ "temperature" := VFloat 25.5 ]} StatusCompleted "" "" "".
Definition brancher : condition.Node :=
  condition.mkNode (mkBaseNode "condition" "" "")
                   (condition.mkConfig "" "email" "end").
Definition after_weather (operator : string) : NodeInputs :=
  mkInputs (WorkflowInput.mk "John" "john@example.com" "Sydney" 20 operator None)
           ∅ {[ "weather-api" := hot ]}.

(** An integration node that knows Sydney only, after a form node that
    passed on [city]. *)
Definition form_output (city : string) : NodeOutputs :=
  mkOutputs (<[ "email" := VString "john@example.com" ]>
             {[ "city" := VString city ]}) StatusCompleted "" "" "".
Definition fetcher : integration.Node :=
  integration.mkNode (mkBaseNode "weather-api" "" "")
    (integration.mkConfig "https://weather.test/?lat={lat}&lon={lon}"
       [weather.mkOption "Sydney" (-33.75) 151.25]).
Definition after_form (city : string) : NodeInputs :=
  mkInputs nowhere ∅ {[ "form" := form_output city ]}.

(** An email node with the alert template, after form, weather-api and a
    condition node whose condition was met. *)
Definition met : NodeOutputs :=
  mkOutputs {[ "conditionResult" := VMap {[ "result" := VBool true ]} ]}
            StatusCompleted "" "" "".
Definition alerter : email.Node :=
  email.mkNode (mkBaseNode "email" "" "") ["city"; "temperature"]
               (mailer.mkTemplate "Weather Alert" alert_body).
Definition before_email : NodeInputs :=
  mkInputs sydney ∅
    (<[ "condition" := met ]>
     (<[ "form" := form_output "Sydney" ]> {[ "weather-api" := hot ]})).

(** The maps initializeWorkflow builds with the registered node types. *)
Definition initialized (workflow : Workflow.t)
    : gmap string main.Builtin * gmap string (gmap string string) * string :=
  match initializeWorkflow main.nodeRegistry workflow with
  | Ok built => built
  | _ => (∅, ∅, "")
  end.

(** The loop variables and the world with which Execute enters its loop. *)
Definition entered (workflow : Workflow.t) (input : WorkflowInput.t)
    : LoopState main.Builtin * World :=
  let '(execution, w) := newExecution env0 workflow input w0 in
  let '(nodes, _, startNodeID) := initialized workflow in
  (mkLoop nodes ∅ execution startNodeID 1, w).

(** The same after [k] passes through the loop body. *)
Definition reached (k : nat) (workflow : Workflow.t) (input : WorkflowInput.t)
    : LoopState main.Builtin * World :=
  default (entered workflow input)
    (after env0 input (initialized workflow).1.2 k
           (entered workflow input).1 (entered workflow input).2).

End examples.

(* ===================================================================== *)
(** ** api/pkg/models: validity tables and input validation               *)
(* ===================================================================== *)
Module validity.
Import models.

(** ValidNodeTypes and ValidOperators: maps from the tag to [true]. *)
Definition ValidNodeTypes : gmap string bool :=
  <[ NodeTypeStart := true ]> (<[ NodeTypeForm := true ]>
  (<[ NodeTypeIntegration := true ]> (<[ NodeTypeCondition := true ]>
  (<[ NodeTypeEmail := true ]> (<[ NodeTypeEnd := true ]> ∅))))).

Definition ValidOperators : gmap string bool :=
  <[ OperatorGreaterThan := true ]> (<[ OperatorLessThan := true ]>
  (<[ OperatorEquals := true ]> (<[ OperatorGreaterThanOrEqual := true ]>
  (<[ OperatorLessThanOrEqual := true ]> ∅)))).

(** NodeType.IsValid and Operator.IsValid: the comma-ok form of the index
    expression. *)
Definition NodeType_IsValid (t : string) : bool :=
  bool_decide (is_Some (ValidNodeTypes !! t)).

Definition Operator_IsValid (o : string) : bool :=
  bool_decide (is_Some (ValidOperators !! o)).

(** WorkflowInput.Validate; [ValidOperators[w.Operator]] is the plain index
    expression, false for a missing key. *)
Definition Validate (w : WorkflowInput.t) : option error :=
  if decide (WorkflowInput.Name w = "") then Some (errors_New "name is required")
  else if decide (WorkflowInput.Email w = "") then Some (errors_New "email is required")
  else if negb (Contains (WorkflowInput.Email w) "@")
          || negb (Contains (WorkflowInput.Email w) ".")
  then Some (errors_New "invalid email format")
  else if decide (WorkflowInput.City w = "") then Some (errors_New "city is required")
  else if negb (default false (ValidOperators !! WorkflowInput.Operator w))
  then Some (errors_New ("invalid operator: " +:+ WorkflowInput.Operator w))
  else if PrimFloat.ltb (WorkflowInput.Threshold w) 0
  then Some (errors_New "temperature cannot be negative")
  else if PrimFloat.ltb 100 (WorkflowInput.Threshold w)
  then Some (errors_New "temperature must be below 100°C")
  else None.

End validity.

(* ===================================================================== *)
(** ** Vocabulary of the properties of nodes and runs                     *)
(* ===================================================================== *)
Module run_props.
Import models node props execution.

(** Some prior output has an entry for the variable. *)
Definition offered (priorOutputs : gmap string NodeOutputs) (var : string) : Prop :=
  ∃ k o, priorOutputs !! k = Some o ∧ is_Some (Data o !! var).

(** The URL the weather client requests for an endpoint template. *)
Definition weather_url (endpoint : string) (lat lon : float) : string :=
  ReplaceAll (ReplaceAll endpoint "{lat}" (Sprintf_f 6 lat)) "{lon}" (Sprintf_f 6 lon).

(** The target of the last edge from [source] with source handle
    [routeKey]. *)
Definition lastTarget (edges : list Edge.t) (source routeKey : string)
    : option string :=
  Edge.Target <$>
    last (filter (fun e => Edge.Source e = source ∧ Edge.SourceHandle e = routeKey)
                 edges).

(** The error of initializeWorkflow for a node the registry cannot create. *)
Definition creation_error (m : Node.t) (err : error) : error :=
  fmt_Errorf ("failed to create node " +:+ Node.ID m +:+ ": " +:+ Error err) err.

(** The loop state after any number of passes: the step counter is one
    ahead of the steps recorded, the steps carry the numbers 1, 2, ... and
    status Completed, and the prior outputs are those of the steps. *)
Record consistent {N : Type} (st : LoopState N) : Prop := {
  counter_ahead :
    stepNumber st = (Z.of_nat (length (WorkflowExecution.Steps (execution st))) + 1)%Z;
  steps_numbered :
    ∀ i step, WorkflowExecution.Steps (execution st) !! i = Some step ->
              ExecutionStep.StepNumber step = (Z.of_nat i + 1)%Z;
  steps_completed :
    Forall (fun step => ExecutionStep.Status step = StatusCompleted)
           (WorkflowExecution.Steps (execution st));
  outputs_of_steps :
    dom (priorOutputs st) =
      list_to_set (ExecutionStep.NodeID <$> WorkflowExecution.Steps (execution st));
  outputs_recorded :
    ∀ id outputs, priorOutputs st !! id = Some outputs ->
      ∃ step, step ∈ WorkflowExecution.Steps (execution st) ∧
              ExecutionStep.NodeID step = id ∧
              ExecutionStep.Output step = Data outputs
}.

(** The routes of every condition node agree with the routing table. *)
Definition routes_agree
    (acc : gmap string (gmap string string) * gmap string main.Builtin) : Prop :=
  ∀ id c, acc.2 !! id = Some (main.Condition c) ->
    condition.TrueRoute (condition.config c) = default "" (route acc.1 id "true") ∧
    condition.FalseRoute (condition.config c) = default "" (route acc.1 id "false").

(** Where a run of a validated workflow can be: at a node of the workflow,
    with every route leading to a node of the workflow. *)
Record inside (edges : gmap string (gmap string string))
    (st : LoopState main.Builtin) : Prop := {
  current_inside : currentNodeID st ∈ dom (nodes st);
  table_inside : ∀ s k t, route edges s k = Some t -> t ∈ dom (nodes st);
  routes_inside :
    ∀ id c, nodes st !! id = Some (main.Condition c) ->
      (condition.TrueRoute (condition.config c) = "" ∨
       condition.TrueRoute (condition.config c) ∈ dom (nodes st)) ∧
      (condition.FalseRoute (condition.config c) = "" ∨
       condition.FalseRoute (condition.config c) ∈ dom (nodes st))
}.






End run_props.

(* ===================================================================== *)
(** ** Further graphs, inputs and environments used by the examples       *)
(* ===================================================================== *)
Module more_examples.
Import models node props execution examples.

(** The output of a condition node whose condition was not met, and of one
    whose conditionResult is not a map. *)
Definition unmet : NodeOutputs :=
  mkOutputs {[ "conditionResult" := VMap {[ "result" := VBool false ]} ]}
            StatusCompleted "" "" "".
Definition garbled : NodeOutputs :=
  mkOutputs {[ "conditionResult" := VString "true" ]} StatusCompleted "" "" "".

Definition before_email_unmet : NodeInputs :=
  mkInputs sydney ∅ (<[ "condition" := unmet ]> {[ "form" := form_output "Sydney" ]}).
Definition before_email_garbled : NodeInputs :=
  mkInputs sydney ∅ (<[ "condition" := garbled ]> {[ "form" := form_output "Sydney" ]}).

(** A form output without an email address. *)
Definition no_email_form : NodeOutputs :=
  mkOutputs {[ "city" := VString "Sydney" ]} StatusCompleted "" "" "".
Definition anonymous : NodeInputs :=
  mkInputs sydney ∅ (<[ "condition" := met ]> {[ "form" := no_email_form ]}).

(** An email node that also wants the humidity, which no node reports. *)
Definition humid : email.Node :=
  email.mkNode (mkBaseNode "email" "" "") ["city"; "humidity"]
               (mailer.mkTemplate "Weather Alert" alert_body).

(** A form output whose city is a number. *)
Definition numeric_form : NodeOutputs :=
  mkOutputs {[ "city" := VInt 2000 ]} StatusCompleted "" "" "".
Definition numbered_city : NodeInputs :=
  mkInputs sydney ∅ {[ "form" := numeric_form ]}.

(** A condition node that was given a false route only. *)
Definition one_sided : condition.Node :=
  condition.mkNode (mkBaseNode "condition" "" "") (condition.mkConfig "" "" "end").

(** The environment of the examples with a weather service that is down. *)
Definition env503 : Env := {|
  env_Now := env_Now env0;
  env_RFC3339 := env_RFC3339 env0;
  env_Parse := env_Parse env0;
  env_uuid := env_uuid env0;
  env_range := env_range env0;
  env_range_perm := env_range_perm env0;
  env_NewRequest := env_NewRequest env0;
  env_Do k url := Response 503 (inl (errors_New "unexpected end of JSON input"));
  env_Sprint := env_Sprint env0
|}.

(** The environment of the examples with ranges that visit the keys in
    the opposite order. *)
Definition env_rev : Env := {|
  env_Now := env_Now env0;
  env_RFC3339 := env_RFC3339 env0;
  env_Parse := env_Parse env0;
  env_uuid := env_uuid env0;
  env_range k l := reverse l;
  env_range_perm k l := reverse_Permutation l;
  env_NewRequest := env_NewRequest env0;
  env_Do := env_Do env0;
  env_Sprint := env_Sprint env0
|}.

(** A condition output and a form output that both carry a "message", and
    an email node that reports the message. *)
Definition met_message : NodeOutputs :=
  mkOutputs (<[ "message" := VString "Temperature condition met" ]>
             {[ "conditionResult" := VMap {[ "result" := VBool true ]} ]})
            StatusCompleted "" "" "".
Definition form_message : NodeOutputs :=
  mkOutputs (<[ "message" := VString "Form submitted" ]>
             {[ "email" := VString "john@example.com" ]})
            StatusCompleted "" "" "".
Definition two_messages : NodeInputs :=
  mkInputs sydney ∅ (<[ "condition" := met_message ]> {[ "form" := form_message ]}).
Definition reporter : email.Node :=
  email.mkNode (mkBaseNode "email" "" "") ["message"]
               (mailer.mkTemplate "Report" "Status: {{message}}").

(** start -> end. *)
Definition short : Workflow.t :=
  Workflow.mk "wf-short" "short" 1
    [plain "start" NodeTypeStart; plain "end" NodeTypeEnd]
    [Edge.mk "e1" "start" "end" ""].

(** start -> form, and nothing after the form node. *)
Definition dead_end : Workflow.t :=
  Workflow.mk "wf-dead-end" "dead end" 1
    [plain "start" NodeTypeStart; plain "form" NodeTypeForm; plain "end" NodeTypeEnd]
    [Edge.mk "e1" "start" "form" ""].

(** Two edges leave the start node by the same handle. *)
Definition rewired : Workflow.t :=
  Workflow.mk "wf-rewired" "rewired" 1
    [plain "start" NodeTypeStart; plain "form" NodeTypeForm; plain "end" NodeTypeEnd]
    [Edge.mk "e1" "start" "form" ""; Edge.mk "e2" "start" "end" ""].

(** A node of a type that is not registered. *)
Definition with_webhook : Workflow.t :=
  Workflow.mk "wf-webhook" "webhook" 1
    [plain "start" NodeTypeStart; plain "hook" "webhook"; plain "end" NodeTypeEnd]
    [Edge.mk "e1" "start" "hook" ""; Edge.mk "e2" "hook" "end" ""].

(** No start node. *)
Definition headless : Workflow.t :=
  Workflow.mk "wf-headless" "headless" 1
    [plain "form" NodeTypeForm; plain "end" NodeTypeEnd]
    [Edge.mk "e1" "form" "end" ""].

(** A condition node with a "false" edge only. *)
Definition one_way : Workflow.t :=
  Workflow.mk "wf-one-way" "one way" 1
    [plain "start" NodeTypeStart; plain "condition" NodeTypeCondition;
     plain "end" NodeTypeEnd]
    [Edge.mk "e1" "start" "condition" ""; Edge.mk "e2" "condition" "end" "false"].

(** What Execute returns for the examples, and the record in it. *)
Definition outcome (fuel : nat) (workflow : Workflow.t) (input : WorkflowInput.t)
    : option (result WorkflowExecution.t) * World :=
  execution.Execute env0 main.nodeRegistry fuel workflow input w0.

Definition record_of (r : option (result WorkflowExecution.t) * World)
    : WorkflowExecution.t :=
  match r.1 with
  | Some (Ok exec) => exec
  | _ => WorkflowExecution.mk "" "" "" "" "" 0 [] ∅ 0
  end.

End more_examples.

(* ===================================================================== *)
(** * Theorems                                                            *)
(* ===================================================================== *)

#[local] Set Warnings "-clear-no-such-hyp".

(** ** The validator *)
Section Validator.
Import models node workflow props examples.

Lemma scanNodes_inr i nodes st st' :
  scanNodes i nodes st = inr st' ->
  node_fields_ok nodes ∧ (∀ x, x ∈ ids nodes -> x ∉ nodeIDs st) ∧
  nodeIDs st' = list_to_set (ids nodes) ∪ nodeIDs st ∧
  (hasStart st', startNodeIndex st') =
    lastOf NodeTypeStart i nodes (hasStart st, startNodeIndex st) ∧
  (hasEnd st', endNodeIndex st') =
    lastOf NodeTypeEnd i nodes (hasEnd st, endNodeIndex st).
Proof.
  revert i st. induction nodes as [|n rest IH]; intros i st H; simpl in H.
  - inversion H; subst. repeat split; try constructor.
    + intros x Hx. inversion Hx.
    + set_solver.
  - repeat case_decide; try discriminate; simpl in *;
      apply IH in H as ((Hf & Hnd) & Hdis & Hids & Hs & He); simpl in *;
      (repeat split;
       [ constructor; [done|done]
       | constructor; [intros Hin; apply (Hdis _ Hin); set_solver | done]
       | intros x Hx; apply list_elem_of_In in Hx as [<-|Hx]; [done|];
         apply list_elem_of_In in Hx; specialize (Hdis _ Hx); set_solver
       | rewrite Hids; set_solver
       | rewrite Hs; repeat case_decide; try done; congruence
       | rewrite He; repeat case_decide; try done; congruence ]).
Qed.


Lemma scanNodes_inl i nodes st err :
  scanNodes i nodes st = inl err ->
  (errors_Is err ErrEmptyNodeID = true ∧ ∃ n, n ∈ nodes ∧ Node.ID n = "") ∨
  (errors_Is err ErrDuplicateNodeID = true ∧
     (¬ NoDup (ids nodes) ∨ ∃ x, x ∈ ids nodes ∧ x ∈ nodeIDs st)) ∨
  (errors_Is err ErrInvalidNodeType = true ∧ ∃ n, n ∈ nodes ∧ Node.Type_ n = "").
Proof.
  revert i st. induction nodes as [|n rest IH]; intros i st H; simpl in H;
    [discriminate|].
  assert (Hstep : ∀ st1, nodeIDs st1 = {[Node.ID n]} ∪ nodeIDs st ->
            Node.ID n ∉ nodeIDs st ->
            scanNodes (i + 1) rest st1 = inl err ->
            (errors_Is err ErrEmptyNodeID = true ∧ ∃ n0, n0 ∈ n :: rest ∧ Node.ID n0 = "") ∨
            (errors_Is err ErrDuplicateNodeID = true ∧
               (¬ NoDup (ids (n :: rest)) ∨ ∃ x, x ∈ ids (n :: rest) ∧ x ∈ nodeIDs st)) ∨
            (errors_Is err ErrInvalidNodeType = true ∧ ∃ n0, n0 ∈ n :: rest ∧ Node.Type_ n0 = "")).
  { intros st1 Hst1 Hfresh Hrec.
    apply IH in Hrec as [(He & n0 & Hn0 & Hid)|[(He & Hd)|(He & n0 & Hn0 & Hty)]].
    - left. split; [done|]. exists n0. split; [by constructor|done].
    - right; left. split; [done|].
      destruct Hd as [Hd|(x & Hx & Hin)].
      + left. intros Hnd. apply NoDup_cons in Hnd as [_ Hnd]. by apply Hd.
      + rewrite Hst1 in Hin. apply elem_of_union in Hin as [Hin|Hin].
        * apply elem_of_singleton in Hin as ->.
          left. intros Hnd. apply NoDup_cons in Hnd as [Hnd _]. by apply Hnd.
        * right. exists x. split; [by constructor|done].
    - right; right. split; [done|]. exists n0. split; [by constructor|done]. }
  repeat case_decide; simpl in *;
    try (by (eapply Hstep in H; [exact H|done|done]));
    inversion H; subst; clear H.
  all: try (left; split; [reflexivity|]; exists n; split; [by left|done]).
  all: try (right; left; split; [reflexivity|]; right; exists (Node.ID n);
            split; [by left|done]).
  all: try (right; right; split; [reflexivity|]; exists n; split; [by left|done]).
Qed.

Lemma lastOf_spec ty nodes i acc :
  (Forall (fun n => Node.Type_ n ≠ ty) nodes ∧ lastOf ty i nodes acc = acc) ∨
  (∃ j n, nodes !! j = Some n ∧ Node.Type_ n = ty ∧
          (∀ j' n', (j < j')%nat -> nodes !! j' = Some n' -> Node.Type_ n' ≠ ty) ∧
          lastOf ty i nodes acc = (true, (i + Z.of_nat j)%Z)).
Proof.
  revert i acc. induction nodes as [|n rest IH]; intros i acc; simpl.
  - left. by split.
  - destruct (IH (i + 1)%Z (if decide (Node.Type_ n = ty) then (true, i) else acc))
      as [(Hall & Heq)|(j & m & Hj & Hty & Hmax & Heq)].
    + case_decide as Hn.
      * right. exists 0%nat, n. repeat split; [done| |by rewrite Heq, Z.add_0_r].
        intros [|j'] n' Hlt Hlk; [lia|]. simpl in Hlk.
        eapply Forall_lookup_1 in Hall; [exact Hall|exact Hlk].
      * left. split; [by constructor|done].
    + right. exists (S j), m. repeat split; [done|done| |].
      * intros [|j'] n' Hlt Hlk; [lia|]. simpl in Hlk. eapply Hmax; [|exact Hlk]. lia.
      * rewrite Heq. f_equal. lia.
Qed.


Lemma has_type_Forall ty nodes :
  Forall (fun n => Node.Type_ n ≠ ty) nodes <-> ¬ has_type ty nodes.
Proof.
  rewrite Forall_forall. split.
  - intros H (n & Hin & Hty). by apply (H n).
  - intros H n Hin Hty. apply H. by exists n.
Qed.

Lemma lastOf_start nodes b k :
  lastOf NodeTypeStart 0 nodes (false, (-1)%Z) = (b, k) ->
  (b = false ∧ ¬ has_type NodeTypeStart nodes) ∨
  (b = true ∧ k = 0%Z ∧ nodes ≠ [] ∧ start_first_only nodes) ∨
  (b = true ∧ k ≠ 0%Z ∧ ∃ i n, nodes !! S i = Some n ∧ Node.Type_ n = NodeTypeStart).
Proof.
  intros H.
  destruct (lastOf_spec NodeTypeStart nodes 0 (false, (-1)%Z))
    as [(Hall & Heq)|(j & n & Hj & Hty & Hmax & Heq)]; rewrite Heq in H;
    inversion H; subst; clear H.
  - left. split; [done|]. by apply has_type_Forall.
  - right. destruct j as [|j].
    + left. split; [done|]. split; [done|]. split; [by destruct nodes|].
      intros i m Hm. split; [|intros ->; congruence].
      intros Hs. destruct i as [|i]; [done|]. exfalso.
      eapply (Hmax (S i)); [lia|exact Hm|exact Hs].
    + right. split; [done|]. split; [lia|]. by exists j, n.
Qed.

Lemma lastOf_end nodes b k :
  lastOf NodeTypeEnd 0 nodes (false, (-1)%Z) = (b, k) ->
  (b = false ∧ ¬ has_type NodeTypeEnd nodes) ∨
  (b = true ∧ k = (Z.of_nat (length nodes) - 1)%Z ∧ end_last nodes) ∨
  (b = true ∧ k ≠ (Z.of_nat (length nodes) - 1)%Z ∧
     ∃ n, last nodes = Some n ∧ Node.Type_ n ≠ NodeTypeEnd).
Proof.
  intros H.
  destruct (lastOf_spec NodeTypeEnd nodes 0 (false, (-1)%Z))
    as [(Hall & Heq)|(j & n & Hj & Hty & Hmax & Heq)]; rewrite Heq in H;
    inversion H; subst; clear H.
  - left. split; [done|]. by apply has_type_Forall.
  - right. pose proof (lookup_lt_Some _ _ _ Hj) as Hlt.
    destruct (decide (S j = length nodes)) as [Hlast|Hnot].
    + left. split; [done|]. split; [lia|]. exists n. split; [|done].
      rewrite last_lookup. by replace (pred (length nodes)) with j by lia.
    + right. split; [done|]. split; [lia|].
      destruct (lookup_lt_is_Some_2 nodes (pred (length nodes))) as [m Hm]; [lia|].
      exists m. split; [by rewrite last_lookup|].
      eapply Hmax; [|exact Hm]. lia.
Qed.

Lemma scanEdges_None nodeIDs edges seen :
  scanEdges nodeIDs edges seen = None ->
  Forall (fun e => Edge.ID e ≠ "" ∧ Edge.Source e ≠ "" ∧ Edge.Target e ≠ "" ∧
                   Edge.Source e ∈ nodeIDs ∧ Edge.Target e ∈ nodeIDs) edges ∧
  NoDup (Edge.ID <$> edges) ∧ (∀ x, x ∈ Edge.ID <$> edges -> x ∉ seen).
Proof.
  revert seen. induction edges as [|e rest IH]; intros seen H; simpl in H.
  - repeat split; [constructor|constructor|]. intros x Hx. inversion Hx.
  - repeat case_decide; try discriminate.
    apply IH in H as (Hf & Hnd & Hdis).
    repeat split.
    + constructor; [|done]. repeat split; try done; try (by apply dec_stable); tauto.
    + simpl. constructor; [|done]. intros Hin. apply (Hdis _ Hin). set_solver.
    + intros x Hx. simpl in Hx. apply elem_of_cons in Hx as [->|Hx]; [done|].
      specialize (Hdis _ Hx). set_solver.
Qed.

Lemma scanEdges_Some nodeIDs edges seen err :
  scanEdges nodeIDs edges seen = Some err ->
  (errors_Is err ErrEmptyEdgeID = true ∧ ∃ e, e ∈ edges ∧ Edge.ID e = "") ∨
  (errors_Is err ErrDuplicateEdgeID = true ∧
     (¬ NoDup (Edge.ID <$> edges) ∨ ∃ x, x ∈ Edge.ID <$> edges ∧ x ∈ seen)) ∨
  (errors_Is err ErrInvalidEdgeConnection = true ∧
     ∃ e, e ∈ edges ∧ (Edge.Source e = "" ∨ Edge.Target e = "")) ∨
  (errors_Is err ErrEdgeToUnknownNode = true ∧
     ∃ e, e ∈ edges ∧ (Edge.Source e ∉ nodeIDs ∨ Edge.Target e ∉ nodeIDs)).
Proof.
  revert seen. induction edges as [|e rest IH]; intros seen H; simpl in H;
    [discriminate|].
  repeat case_decide.
  6: { apply IH in H as [(He & e0 & Hin & Hid)|[(He & Hd)|[(He & e0 & Hin & Hc)|(He & e0 & Hin & Hc)]]].
    + left. split; [done|]. exists e0. split; [by right|done].
    + right; left. split; [done|]. destruct Hd as [Hd|(x & Hx & Hin)].
      * left. simpl. intros Hnd. apply NoDup_cons in Hnd as [_ Hnd]. by apply Hd.
      * apply elem_of_union in Hin as [Hin|Hin].
        -- apply elem_of_singleton in Hin as ->. left. simpl. intros Hnd.
           apply NoDup_cons in Hnd as [Hnd _]. by apply Hnd.
        -- right. exists x. split; [by right|done].
    + right; right; left. split; [done|]. exists e0. split; [by right|done].
    + right; right; right. split; [done|]. exists e0. split; [by right|done]. }
  all: inversion H; subst; clear H.
  - left. split; [reflexivity|]. exists e. split; [by left|done].
  - right; left. split; [reflexivity|]. right. exists (Edge.ID e).
    split; [by left|done].
  - right; right; left. split; [reflexivity|]. exists e. split; [by left|done].
  - right; right; right. split; [reflexivity|]. exists e. split; [by left|tauto].
  - right; right; right. split; [reflexivity|]. exists e. split; [by left|tauto].
Qed.


Lemma lastOf_has_type ty i nodes d k :
  lastOf ty i nodes (false, d) = (true, k) -> has_type ty nodes.
Proof.
  intros H. destruct (lastOf_spec ty nodes i (false, d))
    as [(_ & Heq)|(j & m & Hj & Hty & _ & _)].
  - rewrite Heq in H. discriminate.
  - exists m. split; [by eapply list_elem_of_lookup_2|done].
Qed.

Lemma node_fields_violated nodes edges err :
  scanNodes 0 nodes scan0 = inl err ->
  ¬ node_fields_ok nodes ∧
  ∃ s, (s = ErrEmptyNodeID ∨ s = ErrDuplicateNodeID ∨ s = ErrInvalidNodeType) ∧
       errors_Is err s = true ∧ Violation nodes edges s.
Proof.
  intros H. apply scanNodes_inl in H
    as [(He & n & Hin & Hid)|[(He & Hd)|(He & n & Hin & Hty)]].
  - split.
    + intros [Hf _]. rewrite Forall_forall in Hf. by destruct (Hf n Hin).
    + exists ErrEmptyNodeID. split; [tauto|]. split; [done|].
      apply V_empty_node_id. by exists n.
  - assert (Hnd : ¬ NoDup (ids nodes)).
    { destruct Hd as [Hd|(x & _ & Hx)]; [done|]. by apply not_elem_of_empty in Hx. }
    split; [by intros [_ Hok]|].
    exists ErrDuplicateNodeID. split; [tauto|]. split; [done|].
    by apply V_duplicate_node_id.
  - split.
    + intros [Hf _]. rewrite Forall_forall in Hf. by destruct (Hf n Hin).
    + exists ErrInvalidNodeType. split; [tauto|]. split; [done|].
      apply V_node_type. by exists n.
Qed.

(** The decision list that validateWorkflowStructure runs through. *)
Lemma validate_cases nodes edges :
  (nodes = [] ∧
   validateWorkflowStructure nodes edges =
     Some (wrapf ErrInvalidWorkflowStructure ": workflow must have at least one node")) ∨
  (nodes ≠ [] ∧ ¬ node_fields_ok nodes ∧
   ∃ err s, validateWorkflowStructure nodes edges = Some err ∧
     (s = ErrEmptyNodeID ∨ s = ErrDuplicateNodeID ∨ s = ErrInvalidNodeType) ∧
     errors_Is err s = true ∧ Violation nodes edges s) ∨
  (nodes ≠ [] ∧ node_fields_ok nodes ∧ ¬ has_type NodeTypeStart nodes ∧
   validateWorkflowStructure nodes edges = Some ErrMissingStartNode) ∨
  (nodes ≠ [] ∧ node_fields_ok nodes ∧ has_type NodeTypeStart nodes ∧
   ¬ has_type NodeTypeEnd nodes ∧
   validateWorkflowStructure nodes edges = Some ErrMissingEndNode) ∨
  (nodes ≠ [] ∧ node_fields_ok nodes ∧ has_type NodeTypeEnd nodes ∧
   (∃ i n, nodes !! S i = Some n ∧ Node.Type_ n = NodeTypeStart) ∧
   validateWorkflowStructure nodes edges = Some ErrStartNodePosition) ∨
  (nodes ≠ [] ∧ node_fields_ok nodes ∧ start_first_only nodes ∧
   has_type NodeTypeEnd nodes ∧
   (∃ n, last nodes = Some n ∧ Node.Type_ n ≠ NodeTypeEnd) ∧
   validateWorkflowStructure nodes edges = Some ErrEndNodePosition) ∨
  (nodes ≠ [] ∧ node_fields_ok nodes ∧ start_first_only nodes ∧ end_last nodes ∧
   validateWorkflowStructure nodes edges =
     scanEdges (list_to_set (ids nodes)) edges ∅).
Proof.
  unfold validateWorkflowStructure.
  case_decide as Hlen.
  { left. split; [by apply length_zero_iff_nil|done]. }
  assert (Hne : nodes ≠ []) by (by intros ->).
  right. destruct (scanNodes 0 nodes scan0) as [err|st] eqn:Hscan.
  { left. split; [done|]. destruct (node_fields_violated nodes edges err Hscan)
      as (Hbad & s & Hs & His & Hv).
    split; [done|]. by exists err, s. }
  right. apply scanNodes_inr in Hscan as (Hok & _ & Hids & Hstart & Hend).
  simpl in Hids, Hstart, Hend.
  assert (Hset : nodeIDs st = list_to_set (ids nodes)) by (rewrite Hids; set_solver).
  symmetry in Hstart, Hend.
  apply lastOf_start in Hstart as [(Hs & Hno)|[(Hs & Hk & _ & Hfirst)|(Hs & Hk & Hpos)]];
    rewrite Hs; simpl.
  { left. by repeat (split; [done|]). }
  all: right.
  all: assert (Hhas : has_type NodeTypeStart nodes).
  1: { destruct nodes as [|n0 rest]; [done|]. exists n0. split; [by left|].
       by apply (Hfirst 0%nat n0). }
  2: { destruct Hpos as (i & n & Hi & Hty). exists n.
       split; [by eapply list_elem_of_lookup_2|done]. }
  all: pose proof Hend as Hend';
    apply lastOf_end in Hend as [(He & Hno)|[(He & Hl & Hlast)|(He & Hl & Hlast)]];
    rewrite He; simpl.
  all: try (left; by repeat (split; [done|])).
  all: right.
  all: assert (Hhase : has_type NodeTypeEnd nodes)
    by (rewrite He in Hend'; by eapply lastOf_has_type).
  - right. case_decide; [done|]. case_decide; [done|].
    right. rewrite Hset. by repeat (split; [done|]).
  - right. case_decide; [done|]. case_decide; [|done].
    left. by repeat (split; [done|]).
  - left. case_decide; [|done]. by repeat (split; [done|]).
  - left. case_decide; [|done]. by repeat (split; [done|]).
Qed.


Lemma start_first_has nodes :
  nodes ≠ [] -> start_first_only nodes -> has_type NodeTypeStart nodes.
Proof.
  intros Hne H. destruct nodes as [|n rest]; [done|].
  exists n. split; [by left|]. by apply (H 0%nat n).
Qed.

Lemma end_last_has nodes : end_last nodes -> has_type NodeTypeEnd nodes.
Proof.
  intros (n & Hl & Hty). exists n. split; [|done].
  rewrite last_lookup in Hl. by eapply list_elem_of_lookup_2.
Qed.

Lemma edges_checked nodes edges :
  scanEdges (list_to_set (ids nodes)) edges ∅ = None <-> edge_fields_ok nodes edges.
Proof.
  split.
  - intros H. apply scanEdges_None in H as (Hf & Hnd & _). split; [|done].
    eapply Forall_impl; [exact Hf|]. intros e (? & ? & ? & Hs & Ht).
    rewrite !elem_of_list_to_set in Hs, Ht. done.
  - intros [Hf Hnd].
    destruct (scanEdges (list_to_set (ids nodes)) edges ∅) as [err|] eqn:H; [|done].
    exfalso. rewrite Forall_forall in Hf.
    apply scanEdges_Some in H
      as [(_ & e & Hin & Hc)|[(_ & [Hc|(x & _ & Hx)])|[(_ & e & Hin & Hc)|(_ & e & Hin & Hc)]]].
    + destruct (Hf e Hin) as (? & _). done.
    + done.
    + by apply not_elem_of_empty in Hx.
    + destruct (Hf e Hin) as (_ & ? & ? & _). tauto.
    + destruct (Hf e Hin) as (_ & _ & _ & Hs & Ht).
      rewrite !elem_of_list_to_set in Hc. tauto.
Qed.

Lemma edges_rejected nodes edges err :
  scanEdges (list_to_set (ids nodes)) edges ∅ = Some err ->
  ∃ s, (s = ErrEmptyEdgeID ∨ s = ErrDuplicateEdgeID ∨
        s = ErrInvalidEdgeConnection ∨ s = ErrEdgeToUnknownNode) ∧
       errors_Is err s = true ∧ Violation nodes edges s.
Proof.
  intros H. apply scanEdges_Some in H
    as [(He & Hc)|[(He & [Hc|(x & _ & Hx)])|[(He & Hc)|(He & e & Hin & Hc)]]].
  - exists ErrEmptyEdgeID. split; [tauto|]. split; [done|]. by apply V_empty_edge_id.
  - exists ErrDuplicateEdgeID. split; [tauto|]. split; [done|].
    by apply V_duplicate_edge_id.
  - by apply not_elem_of_empty in Hx.
  - exists ErrInvalidEdgeConnection. split; [tauto|]. split; [done|].
    by apply V_edge_connection.
  - exists ErrEdgeToUnknownNode. split; [tauto|]. split; [done|].
    apply V_edge_unknown. exists e. split; [done|].
    by rewrite !elem_of_list_to_set in Hc.
Qed.

Ltac validator_cases nodes edges :=
  destruct (validate_cases nodes edges)
    as [(Hnil & Hv)
       |[(Hne & Hbad & err0 & s0 & Hv & Hs0 & His0 & Hviol0)
       |[(Hne & Hok & Hnostart & Hv)
       |[(Hne & Hok & Hstart & Hnoend & Hv)
       |[(Hne & Hok & Hend & Hpos & Hv)
       |[(Hne & Hok & Hfirst & Hend & Hlast & Hv)
       |(Hne & Hok & Hfirst & Hlast & Hv)]]]]]].

(** C2 (amended): validateWorkflowStructure returns no error exactly on the
    graphs with at least one node, a start-type node first and nowhere
    else, an end-type node last (further end-type nodes are let through),
    non-empty unique node ids, non-empty node types, and non-empty unique
    edge ids with non-empty source and target among the node ids.  Every
    graph satisfying the invariants of the specification is accepted, and
    every error returned wraps a sentinel whose invariant the graph does
    violate. *)
Theorem validateWorkflowStructure_accepts_iff nodes edges :
  (validateWorkflowStructure nodes edges = None <-> accepted_shape nodes edges) ∧
  (invariants_spec nodes edges -> validateWorkflowStructure nodes edges = None) ∧
  (∀ err, validateWorkflowStructure nodes edges = Some err ->
     ∃ s, errors_Is err s = true ∧ Violation nodes edges s).
Proof.
  assert (Hiff : validateWorkflowStructure nodes edges = None <-> accepted_shape nodes edges).
  { split.
    - intros H. validator_cases nodes edges; rewrite Hv in H; try discriminate.
      apply edges_checked in H. by repeat (split; [done|]).
    - intros (Hne' & Hfirst' & Hlast' & Hok' & Hedges).
      validator_cases nodes edges; try done.
      + destruct Hnostart. by apply start_first_has.
      + destruct Hnoend. by apply end_last_has.
      + destruct Hpos as (i & n & Hi & Hty). by apply (Hfirst' (S i) n) in Hty.
      + destruct Hlast as (n & Hn & Hty). destruct Hlast' as (m & Hm & Htym). congruence.
      + rewrite Hv. by apply edges_checked. }
  split; [exact Hiff|]. split.
  - intros (Hne & Hfirst & Hlast & Hok & Hedges). apply Hiff.
    repeat (split; [done|]). split; [|done].
    destruct (lookup_lt_is_Some_2 nodes (pred (length nodes))) as [m Hm].
    { destruct nodes; [done|simpl; lia]. }
    exists m. split; [by rewrite last_lookup|].
    apply (Hlast _ _ Hm). destruct nodes; [done|simpl; lia].
  - intros err H. validator_cases nodes edges; rewrite Hv in H.
    + inversion H; subst. exists ErrInvalidWorkflowStructure.
      split; [reflexivity|]. by apply V_no_nodes.
    + inversion H; subst. by exists s0.
    + inversion H; subst. exists ErrMissingStartNode. split; [reflexivity|].
      by apply V_missing_start.
    + inversion H; subst. exists ErrMissingEndNode. split; [reflexivity|].
      by apply V_missing_end.
    + inversion H; subst. exists ErrStartNodePosition. split; [reflexivity|].
      by apply V_start_position.
    + inversion H; subst. exists ErrEndNodePosition. split; [reflexivity|].
      by apply V_end_position.
    + apply (edges_rejected nodes) in H as (s & _ & His & Hviol). by exists s.
Qed.

(** The first loop passes over a prefix of well-formed nodes. *)
Lemma scanNodes_prefix i pre rest st :
  node_fields_ok pre -> (∀ x, x ∈ ids pre -> x ∉ nodeIDs st) ->
  ∃ j st', scanNodes i (pre ++ rest) st = scanNodes j rest st' ∧
           nodeIDs st' = list_to_set (ids pre) ∪ nodeIDs st.
Proof.
  revert i st. induction pre as [|m pre IH]; intros i st [Hf Hnd] Hfresh.
  - exists i, st. split; [done|]. simpl. set_solver.
  - apply Forall_cons in Hf as [[Hid Hty] Hf]. apply NoDup_cons in Hnd as [Hm Hnd].
    assert (Hnew : Node.ID m ∉ nodeIDs st) by (apply Hfresh; by left).
    simpl.
    destruct (decide (Node.Type_ m = NodeTypeStart));
      destruct (decide (Node.Type_ m = NodeTypeEnd)); simpl;
      rewrite decide_False by done; rewrite decide_False by done;
      rewrite decide_False by done;
      (edestruct (IH (i + 1)%Z) as (j & st' & Hscan & Hids);
       [by split| |exists j, st'; split; [exact Hscan|rewrite Hids; simpl; set_solver]]);
      simpl; intros x Hx;
      (assert (x ≠ Node.ID m) by (intros ->; done));
      (assert (x ∉ nodeIDs st) by (apply Hfresh; by right)); set_solver.
Qed.

(** The second loop passes over a prefix of well-formed edges. *)
Lemma scanEdges_prefix nodeIDs pre rest seen :
  Forall (fun e => Edge.ID e ≠ "" ∧ Edge.Source e ≠ "" ∧ Edge.Target e ≠ "" ∧
                   Edge.Source e ∈ nodeIDs ∧ Edge.Target e ∈ nodeIDs) pre ->
  NoDup (Edge.ID <$> pre) -> (∀ x, x ∈ Edge.ID <$> pre -> x ∉ seen) ->
  scanEdges nodeIDs (pre ++ rest) seen =
    scanEdges nodeIDs rest (list_to_set (Edge.ID <$> pre) ∪ seen).
Proof.
  revert seen. induction pre as [|e pre IH]; intros seen Hf Hnd Hfresh.
  - simpl. f_equal. set_solver.
  - apply Forall_cons in Hf as [(Hid & Hs & Ht & Hsin & Htin) Hf].
    rewrite fmap_cons in Hnd. apply NoDup_cons in Hnd as [He Hnd].
    assert (Hnew : Edge.ID e ∉ seen) by (apply Hfresh; by left).
    simpl. rewrite decide_False by done. rewrite decide_False by done.
    rewrite decide_False by naive_solver. rewrite decide_False by naive_solver.
    rewrite decide_False by naive_solver.
    rewrite IH; [f_equal; set_solver|done|done|].
    intros x Hx. assert (x ≠ Edge.ID e) by (intros ->; done).
    assert (x ∉ seen) by (apply Hfresh; by right). set_solver.
Qed.

(** C8 (amended): the checks run in this order, each one deciding the
    result when the earlier ones pass: node count; the node id and type
    checks (inside the first loop, hence before any start or end check);
    missing start; missing end; start position; end position; the edge
    checks.  Inside the first loop the first node that is not well-formed
    decides, with the empty-id error before the duplicate-id error before
    the missing-type error; inside the edge loop the first edge that is
    not well-formed decides, with empty id, duplicate id, empty source or
    target, unknown source, unknown target in this order.  A graph that
    breaks both the start-node invariant and a node id or type invariant
    is reported with the node id or type error. *)
Theorem validateWorkflowStructure_check_order nodes edges :
  (nodes = [] ->
     ∃ err, validateWorkflowStructure nodes edges = Some err ∧
            errors_Is err ErrInvalidWorkflowStructure = true) ∧
  (nodes ≠ [] -> ¬ node_fields_ok nodes ->
     ∃ err, validateWorkflowStructure nodes edges = Some err ∧ node_error err) ∧
  (nodes ≠ [] -> node_fields_ok nodes -> ¬ has_type NodeTypeStart nodes ->
     validateWorkflowStructure nodes edges = Some ErrMissingStartNode) ∧
  (nodes ≠ [] -> node_fields_ok nodes -> has_type NodeTypeStart nodes ->
     ¬ has_type NodeTypeEnd nodes ->
     validateWorkflowStructure nodes edges = Some ErrMissingEndNode) ∧
  (nodes ≠ [] -> node_fields_ok nodes -> has_type NodeTypeStart nodes ->
     has_type NodeTypeEnd nodes -> ¬ start_first_only nodes ->
     validateWorkflowStructure nodes edges = Some ErrStartNodePosition) ∧
  (nodes ≠ [] -> node_fields_ok nodes -> start_first_only nodes ->
     has_type NodeTypeEnd nodes -> ¬ end_last nodes ->
     validateWorkflowStructure nodes edges = Some ErrEndNodePosition) ∧
  (nodes ≠ [] -> node_fields_ok nodes -> start_first_only nodes ->
     end_last nodes -> ¬ edge_fields_ok nodes edges ->
     ∃ err, validateWorkflowStructure nodes edges = Some err ∧ edge_error err) ∧
  (∀ pre n post, nodes = (pre ++ n :: post)%list -> node_fields_ok pre ->
     (Node.ID n = "" ->
      validateWorkflowStructure nodes edges =
        Some (wrapf ErrEmptyNodeID ": node ID cannot be empty")) ∧
     (Node.ID n ≠ "" -> Node.ID n ∈ ids pre ->
      validateWorkflowStructure nodes edges =
        Some (wrapf ErrDuplicateNodeID (": " +:+ Node.ID n))) ∧
     (Node.ID n ≠ "" -> Node.ID n ∉ ids pre -> Node.Type_ n = "" ->
      validateWorkflowStructure nodes edges =
        Some (wrapf ErrInvalidNodeType
                (": node " +:+ Node.ID n +:+ " requires a type")))) ∧
  (node_fields_ok nodes -> start_first_only nodes -> end_last nodes ->
   ∀ pre e post, edges = (pre ++ e :: post)%list -> edge_fields_ok nodes pre ->
     (Edge.ID e = "" -> validateWorkflowStructure nodes edges = Some ErrEmptyEdgeID) ∧
     (Edge.ID e ≠ "" -> Edge.ID e ∈ Edge.ID <$> pre ->
      validateWorkflowStructure nodes edges =
        Some (wrapf ErrDuplicateEdgeID (": " +:+ Edge.ID e))) ∧
     (Edge.ID e ≠ "" -> Edge.ID e ∉ Edge.ID <$> pre ->
      Edge.Source e = "" ∨ Edge.Target e = "" ->
      validateWorkflowStructure nodes edges =
        Some (wrapf ErrInvalidEdgeConnection
                (": edge " +:+ Edge.ID e +:+ " must have non-empty source and target"))) ∧
     (Edge.ID e ≠ "" -> Edge.ID e ∉ Edge.ID <$> pre ->
      Edge.Source e ≠ "" -> Edge.Target e ≠ "" -> Edge.Source e ∉ ids nodes ->
      validateWorkflowStructure nodes edges =
        Some (wrapf ErrEdgeToUnknownNode
                (": edge " +:+ Edge.ID e +:+ " references undefined source node "
                 +:+ Edge.Source e))) ∧
     (Edge.ID e ≠ "" -> Edge.ID e ∉ Edge.ID <$> pre ->
      Edge.Source e ≠ "" -> Edge.Target e ≠ "" -> Edge.Source e ∈ ids nodes ->
      Edge.Target e ∉ ids nodes ->
      validateWorkflowStructure nodes edges =
        Some (wrapf ErrEdgeToUnknownNode
                (": edge " +:+ Edge.ID e +:+ " references undefined target node "
                 +:+ Edge.Target e)))).
Proof.
  split; [|split; [|split; [|split; [|split; [|split; [|split; [|split]]]]]]].
  - intros Hnil'. validator_cases nodes edges; try done.
    eexists. split; [exact Hv|reflexivity].
  - intros Hne' Hbad'. validator_cases nodes edges; try done.
    exists err0. split; [done|]. unfold node_error.
    destruct Hs0 as [->|[->| ->]]; tauto.
  - intros Hne' Hok' Hno'. validator_cases nodes edges; try done.
    + destruct Hno'. destruct Hpos as (i & n & Hi & Hty). exists n.
      split; [by eapply list_elem_of_lookup_2|done].
    + by apply start_first_has in Hfirst.
    + by apply start_first_has in Hfirst.
  - intros Hne' Hok' Hs' Hno'. validator_cases nodes edges; try done.
    by apply end_last_has in Hlast.
  - intros Hne' Hok' Hs' He' Hnf'. validator_cases nodes edges; done.
  - intros Hne' Hok' Hf' He' Hnl'. validator_cases nodes edges; try done.
    + destruct Hnostart. by apply start_first_has.
    + destruct Hpos as (i & n & Hi & Hty). by apply (Hf' (S i) n) in Hty.
  - intros Hne' Hok' Hf' Hl' Hbad'. validator_cases nodes edges; try done.
    + destruct Hnostart. by apply start_first_has.
    + destruct Hnoend. by apply end_last_has.
    + destruct Hpos as (i & n & Hi & Hty). by apply (Hf' (S i) n) in Hty.
    + destruct Hlast as (n & Hn & Hty). destruct Hl' as (m & Hm & Htym). congruence.
    + destruct (scanEdges (list_to_set (ids nodes)) edges ∅) as [err|] eqn:Hscan.
      * exists err. split; [done|].
        apply edges_rejected in Hscan as (s & Hs & His & _). unfold edge_error.
        destruct Hs as [->|[->|[->| ->]]]; tauto.
      * by apply edges_checked in Hscan.
  - intros pre n post -> Hpre.
    assert (Hscan : ∃ j st', scanNodes 0 (pre ++ n :: post) scan0 = scanNodes j (n :: post) st' ∧
                             nodeIDs st' = list_to_set (ids pre)).
    { destruct (scanNodes_prefix 0 pre (n :: post) scan0 Hpre) as (j & st' & Hs & Hids).
      - intros x _. set_solver.
      - exists j, st'. split; [done|]. rewrite Hids. simpl. set_solver. }
    destruct Hscan as (j & st' & Hscan & Hids).
    unfold validateWorkflowStructure.
    rewrite decide_False by (rewrite length_app; simpl; lia).
    rewrite Hscan. simpl.
    split; [|split].
    + intros Hid. by rewrite decide_True.
    + intros Hid Hdup. rewrite decide_False by done.
      rewrite decide_True; [done|].
      destruct (decide (Node.Type_ n = NodeTypeStart));
        destruct (decide (Node.Type_ n = NodeTypeEnd)); simpl; rewrite Hids;
        by apply elem_of_list_to_set.
    + intros Hid Hnew Hty. rewrite decide_False by done.
      rewrite decide_False.
      * by rewrite decide_True.
      * destruct (decide (Node.Type_ n = NodeTypeStart));
          destruct (decide (Node.Type_ n = NodeTypeEnd)); simpl; rewrite Hids;
          by rewrite elem_of_list_to_set.
  - intros Hok Hfirst Hlast pre e post -> [Hpre Hnd].
    assert (Hv : validateWorkflowStructure nodes (pre ++ e :: post) =
                   scanEdges (list_to_set (ids nodes)) (pre ++ e :: post) ∅).
    { destruct (validate_cases nodes (pre ++ e :: post))
        as [(Hnil & Hv)
           |[(Hne & Hbad & err0 & s0 & Hv & Hs0 & His0 & Hviol0)
           |[(Hne & Hok' & Hnostart & Hv)
           |[(Hne & Hok' & Hstart & Hnoend & Hv)
           |[(Hne & Hok' & Hend & Hpos & Hv)
           |[(Hne & Hok' & Hfirst' & Hend & Hlast' & Hv)
           |(Hne & Hok' & Hfirst' & Hlast' & Hv)]]]]]]; try done.
      - destruct Hlast as (m & Hm & _). by subst nodes.
      - destruct Hnostart. apply start_first_has; [done|done].
      - destruct Hnoend. by apply end_last_has.
      - destruct Hpos as (i & m & Hi & Hty). by apply (Hfirst (S i) m) in Hty.
      - destruct Hlast' as (m & Hm & Hty). destruct Hlast as (m' & Hm' & Hty'). congruence. }
    rewrite Hv. rewrite scanEdges_prefix; [|
      eapply Forall_impl; [exact Hpre|]; intros x (?&?&?&?&?); repeat split; try done;
        by apply elem_of_list_to_set | done | set_solver].
    simpl. rewrite (right_id_L ∅ (∪)).
    split; [|split; [|split; [|split]]].
    + intros Hid. by rewrite decide_True.
    + intros Hid Hdup. rewrite decide_False by done.
      rewrite decide_True; [done|]. by apply elem_of_list_to_set.
    + intros Hid Hnew Hconn. rewrite decide_False by done.
      rewrite decide_False by (by rewrite elem_of_list_to_set).
      by rewrite decide_True.
    + intros Hid Hnew Hs Ht Hunknown. rewrite decide_False by done.
      rewrite decide_False by (by rewrite elem_of_list_to_set).
      rewrite decide_False by naive_solver.
      rewrite decide_True; [done|]. by rewrite elem_of_list_to_set.
    + intros Hid Hnew Hs Ht Hknown Hunknown. rewrite decide_False by done.
      rewrite decide_False by (by rewrite elem_of_list_to_set).
      rewrite decide_False by naive_solver.
      rewrite decide_False by (intros Hn; apply Hn; by apply elem_of_list_to_set).
      rewrite decide_True; [done|]. by rewrite elem_of_list_to_set.
Qed.


(** C2, counterexample: a start node followed by two end nodes breaks
    invariant 3 of the specification and is accepted. *)
Lemma two_end_nodes_accepted :
  ¬ invariants_spec two_ends [] ∧ validateWorkflowStructure two_ends [] = None.
Proof.
  split; [|reflexivity].
  intros (_ & _ & Hend & _).
  assert (H : two_ends !! 1%nat = Some (plain "b" NodeTypeEnd)) by reflexivity.
  apply Hend in H. simpl in H. destruct H as [H _]. specialize (H eq_refl). lia.
Qed.

(** The accepted graph with two end nodes has the shape the validator
    enforces. *)
Lemma validateWorkflowStructure_accepts_iff_witness : accepted_shape two_ends [].
Proof.
  apply (proj1 (proj1 (validateWorkflowStructure_accepts_iff two_ends []))).
  reflexivity.
Defined.

(** C8, counterexample: with no start node and an empty node id the error
    is the empty-id one, not a start-node one. *)
Lemma empty_id_reported_before_missing_start :
  ¬ has_type NodeTypeStart no_start_empty_id ∧
  ¬ node_fields_ok no_start_empty_id ∧
  ∃ err, validateWorkflowStructure no_start_empty_id [] = Some err ∧
         errors_Is err ErrEmptyNodeID = true ∧
         errors_Is err ErrMissingStartNode = false ∧
         errors_Is err ErrStartNodePosition = false.
Proof.
  split; [|split].
  - intros (n & Hin & Hty). apply list_elem_of_singleton in Hin as ->. discriminate.
  - intros [Hf _]. apply Forall_cons in Hf as [[Hid _] _]. by apply Hid.
  - eexists. split; [reflexivity|]. by repeat split.
Qed.

(** A single node without id and without type, and no start node: the
    error is the empty-id one. *)
Lemma validateWorkflowStructure_check_order_witness :
  validateWorkflowStructure [plain "" ""] [] =
    Some (wrapf ErrEmptyNodeID ": node ID cannot be empty").
Proof.
  apply (proj1 (proj1 (proj2 (proj2 (proj2 (proj2 (proj2 (proj2 (proj2
           (validateWorkflowStructure_check_order [plain "" ""] []))))))))
           [] (plain "" "") [] eq_refl
           (conj (Forall_nil_2 _) (NoDup_nil_2 : NoDup (ids []))))).
  reflexivity.
Defined.

End Validator.

(** ** The node variants *)
Section Nodes.
Import models node props examples.
Context (env : Env).

(** C6: for every input the form node returns status Completed and a nil
    error; its data bag holds name, email and city at the top level and
    all five input fields, unchanged, under "formData". *)
Theorem form_Execute_copies_input (n : form.Node) (inputs : NodeInputs) (w : World) :
  let input := WorkflowInput inputs in
  let '(n', outputs, err, w') := form.Execute env n inputs w in
  Status outputs = StatusCompleted ∧ err = None ∧
  Data outputs !! "name" = Some (VString (WorkflowInput.Name input)) ∧
  Data outputs !! "email" = Some (VString (WorkflowInput.Email input)) ∧
  Data outputs !! "city" = Some (VString (WorkflowInput.City input)) ∧
  ∃ formData, Data outputs !! "formData" = Some (VMap formData) ∧
    formData !! "name" = Some (VString (WorkflowInput.Name input)) ∧
    formData !! "email" = Some (VString (WorkflowInput.Email input)) ∧
    formData !! "city" = Some (VString (WorkflowInput.City input)) ∧
    formData !! "threshold" = Some (VFloat (WorkflowInput.Threshold input)) ∧
    formData !! "operator" = Some (VString (WorkflowInput.Operator input)).
Proof.
  simpl. repeat split; try reflexivity.
  eexists. repeat split; reflexivity.
Qed.


Lemma condition_Execute_numeric (n : condition.Node) (inputs : NodeInputs)
    (w : World) (weather : NodeOutputs) (temperature : float) :
  PriorOutputs inputs !! "weather-api" = Some weather ->
  Data weather !! "temperature" = Some (VFloat temperature) ->
  let met := condition.evaluate (WorkflowInput.Operator (WorkflowInput inputs))
               temperature (WorkflowInput.Threshold (WorkflowInput inputs)) in
  verdict (condition.Execute env n inputs w) =
    (StatusCompleted, None, Some (VBool met),
     if met then condition.TrueRoute (condition.config n)
     else condition.FalseRoute (condition.config n)).
Proof.
  intros Hw Ht. unfold condition.Execute, verdict. simpl.
  rewrite Hw, Ht. simpl. reflexivity.
Qed.

(** C4: with threshold 20 and operator greater_than, a weather-api output
    with temperature 25.5 makes the condition node complete with
    conditionResult.result = true and NextNodeID = its true route; with
    temperature 15.5 the result is false and NextNodeID = its false
    route. *)
Theorem condition_Execute_greater_than (n : condition.Node) (inputs : NodeInputs)
    (w : World) (weather : NodeOutputs) :
  WorkflowInput.Threshold (WorkflowInput inputs) = 20%float ->
  WorkflowInput.Operator (WorkflowInput inputs) = OperatorGreaterThan ->
  PriorOutputs inputs !! "weather-api" = Some weather ->
  (Data weather !! "temperature" = Some (VFloat 25.5) ->
   verdict (condition.Execute env n inputs w) =
     (StatusCompleted, None, Some (VBool true), condition.TrueRoute (condition.config n))) ∧
  (Data weather !! "temperature" = Some (VFloat 15.5) ->
   verdict (condition.Execute env n inputs w) =
     (StatusCompleted, None, Some (VBool false), condition.FalseRoute (condition.config n))).
Proof.
  intros Hth Hop Hw. split; intros Ht;
    rewrite (condition_Execute_numeric n inputs w weather _ Hw Ht);
    rewrite Hth, Hop; reflexivity.
Qed.

(** C10: for an operator outside the five recognized tags and a numeric
    temperature, the condition node completes with a nil error,
    conditionResult.result = false and NextNodeID = its false route. *)
Theorem condition_Execute_unknown_operator (n : condition.Node)
    (inputs : NodeInputs) (w : World) (weather : NodeOutputs) (temperature : float) :
  ¬ recognized (WorkflowInput.Operator (WorkflowInput inputs)) ->
  PriorOutputs inputs !! "weather-api" = Some weather ->
  Data weather !! "temperature" = Some (VFloat temperature) ->
  verdict (condition.Execute env n inputs w) =
    (StatusCompleted, None, Some (VBool false), condition.FalseRoute (condition.config n)).
Proof.
  intros Hop Hw Ht.
  rewrite (condition_Execute_numeric n inputs w weather _ Hw Ht).
  unfold condition.evaluate. unfold recognized in Hop.
  repeat case_decide; tauto.
Qed.

Lemma findCity_None options city :
  Forall (fun option => weather.City option ≠ city) options ->
  integration.findCity options city = None.
Proof.
  induction 1 as [|o rest Ho _ IH]; simpl; [done|]. by case_decide.
Qed.

(** C7: when the city of the form output matches no option of the
    integration node, Execute returns status Failed, a non-nil error and
    the data entry "error" = "City not found: <city>", and the log of HTTP
    requests is unchanged. *)
Theorem integration_Execute_unknown_city (n : integration.Node)
    (inputs : NodeInputs) (w : World) (formOutput : NodeOutputs) (city : string) :
  PriorOutputs inputs !! NodeIDForm = Some formOutput ->
  Data formOutput !! "city" = Some (VString city) ->
  Forall (fun option => weather.City option ≠ city)
         (integration.Options (integration.config n)) ->
  let '(_, outputs, err, w') := integration.Execute env n inputs w in
  Status outputs = StatusFailed ∧
  err = Some (errors_New ("city not found: " +:+ city)) ∧
  Data outputs !! "error" = Some (VString ("City not found: " +:+ city)) ∧
  Contains ("City not found: " +:+ city) "City not found" = true ∧
  requests w' = requests w.
Proof.
  intros Hf Hc Hopts. unfold integration.Execute. simpl.
  rewrite Hf. simpl. rewrite Hc. simpl.
  assert (Hnone : ∀ m, integration.config m = integration.config n ->
            integration.findCity (integration.Options (integration.config m)) city = None).
  { intros m ->. by apply findCity_None. }
  destruct (Contains _ _); rewrite Hnone by reflexivity; simpl; by repeat split.
Qed.






End Nodes.

(** ** The engine *)
Section EngineFacts.
Import models node props execution.
Context {N : Type} `{!Node N} `{!ConditionCast N}.
Context (env : Env) (registry : Registry N).
Context (input : WorkflowInput.t) (edges : gmap string (gmap string string)).

#[local] Abbreviation iteration := (execution.iteration env input edges).
#[local] Abbreviation loop fuel := (execution.loop env fuel input edges).
#[local] Abbreviation stepOf := (props.stepOf env).

Lemma loop_S fuel st w :
  loop (S fuel) st w =
  match iteration st w with
  | (Done r, w') => (Some r, w')
  | (Next st', w') => loop fuel st' w'
  end.
Proof.
  simpl. unfold mbind, M_bind. destruct (iteration st w) as [[r|st'] w']; done.
Qed.

Lemma loop_after k fuel st w st' w' :
  after env input edges k st w = Some (st', w') ->
  loop (k + fuel) st w = loop fuel st' w'.
Proof.
  revert st w. induction k as [|k IH]; intros st w H; simpl in H.
  - by inversion H.
  - replace (S k + fuel)%nat with (S (k + fuel)) by lia. rewrite loop_S.
    destruct (iteration st w) as [[r|st1] w1]; [done|]. by apply IH.
Qed.



Lemma iteration_failed st w n n' outputs err w2 :
  nodes st !! currentNodeID st = Some n ->
  node.Execute env n (mkInputs input ∅ (priorOutputs st)) w = (n', outputs, err, w2) ->
  is_Some err ∨ Status outputs = StatusFailed ->
  iteration st w =
    let '(exec, w3) :=
      finish env (appendStep (execution st) (stepOf st n' outputs)) StatusFailed w2 in
    (Done (Ok exec), w3).
Proof.
  intros Hn Hx Hf. unfold execution.iteration. rewrite Hn.
  unfold mbind, M_bind at 1. rewrite Hx. rewrite decide_True by done. done.
Qed.


Lemma iteration_Next st w st' w' :
  iteration st w = (Next st', w') ->
  ∃ n n' outputs,
    nodes st !! currentNodeID st = Some n ∧
    node.Execute env n (mkInputs input ∅ (priorOutputs st)) w = (n', outputs, None, w') ∧
    nodes st' = <[ currentNodeID st := n' ]> (nodes st) ∧
    priorOutputs st' = <[ currentNodeID st := outputs ]> (priorOutputs st) ∧
    execution st' = appendStep (execution st) (stepOf st n' outputs) ∧
    findNextNode n' (currentNodeID st) outputs edges = inr (currentNodeID st').
Proof.
  unfold execution.iteration.
  destruct (nodes st !! currentNodeID st) as [n|] eqn:Hn; [|done].
  unfold mbind, M_bind at 1.
  destruct (node.Execute env n _ w) as [[[n' outputs] err] w2] eqn:Hx.
  case_decide as Hf.
  { unfold mbind, M_bind. destruct (finish _ _ _ _). done. }
  case_decide as Ht.
  { unfold mbind, M_bind. destruct (finish _ _ _ _). done. }
  destruct (findNextNode _ _ _ _) as [e|next] eqn:Hnext; [done|].
  intros H. inversion H; subst. exists n, n', outputs.
  destruct err as [e|]; [destruct Hf; left; eauto|]. done.
Qed.


Lemma Execute_enters_loop fuel workflow w nodes0 startNodeID execution0 w0 :
  initializeWorkflow registry workflow = Ok (nodes0, edges, startNodeID) ->
  newExecution env workflow input w = (execution0, w0) ->
  execution.Execute env registry fuel workflow input w =
    loop fuel (mkLoop nodes0 ∅ execution0 startNodeID 1) w0.
Proof.
  intros Hinit Hnew. unfold execution.Execute, mbind, M_bind at 1.
  rewrite Hnew, Hinit. done.
Qed.

Lemma Execute_after fuel k workflow w nodes0 startNodeID execution0 w0 st w1 :
  initializeWorkflow registry workflow = Ok (nodes0, edges, startNodeID) ->
  newExecution env workflow input w = (execution0, w0) ->
  after env input edges k (mkLoop nodes0 ∅ execution0 startNodeID 1) w0 = Some (st, w1) ->
  (k < fuel)%nat ->
  execution.Execute env registry fuel workflow input w =
    match iteration st w1 with
    | (Done r, w') => (Some r, w')
    | (Next st', w') => loop (fuel - S k) st' w'
    end.
Proof.
  intros Hinit Hnew Hafter Hlt.
  rewrite (Execute_enters_loop _ _ _ _ _ _ _ Hinit Hnew).
  replace fuel with (k + S (fuel - S k))%nat at 1 by lia.
  rewrite (loop_after _ _ _ _ _ _ Hafter). apply loop_S.
Qed.



(** *** Bounded runs *)

Lemma iteration_Next_dom st w st' w' :
  iteration st w = (Next st', w') ->
  is_Some (nodes st !! currentNodeID st) ∧ dom (nodes st') = dom (nodes st) ∧
  dom (priorOutputs st') = {[ currentNodeID st ]} ∪ dom (priorOutputs st).
Proof.
  intros H. apply iteration_Next in H as (n & n' & o & Hn & _ & -> & -> & _).
  split; [by eexists|]. rewrite !dom_insert_L. split; [|done].
  apply elem_of_dom_2 in Hn. set_solver.
Qed.



Lemma loop_running_trace fuel st w :
  (loop fuel st w).1 = None ->
  length (trace env input edges fuel st w) = fuel.
Proof.
  revert st w. induction fuel as [|fuel IH]; intros st w H; [done|].
  rewrite loop_S in H. simpl.
  destruct (iteration st w) as [[r|st'] w'] eqn:Hit; [done|].
  destruct (iteration_Next_dom _ _ _ _ Hit) as ([n ->] & _). simpl.
  f_equal. by apply IH.
Qed.

Lemma createNodes_dom models0 (nodes0 : gmap string N) start nodes1 start1 :
  createNodes registry models0 nodes0 start = Ok (nodes1, start1) ->
  dom nodes1 ⊆ list_to_set (ids models0) ∪ dom nodes0.
Proof.
  revert nodes0 start. induction models0 as [|m rest IH]; intros nodes0 start H;
    simpl in H.
  - inversion H; subst. set_solver.
  - destruct (Create registry m) as [n|e|reason]; try discriminate.
    apply IH in H. rewrite dom_insert_L in H. simpl. set_solver.
Qed.

Lemma addEdge_dom (acc : gmap string (gmap string string) * gmap string N) edge :
  dom (addEdge acc edge).2 = dom acc.2.
Proof.
  destruct acc as [es ns]. unfold addEdge. simpl.
  repeat case_match; try done.
  all: simpl; rewrite dom_insert_L;
    assert (Edge.Source edge ∈ dom ns) by (by eapply elem_of_dom_2); set_solver.
Qed.

Lemma addEdges_dom edges0 (acc : gmap string (gmap string string) * gmap string N) :
  dom (foldl addEdge acc edges0).2 = dom acc.2.
Proof.
  revert acc. induction edges0 as [|e rest IH]; intros acc; simpl; [done|].
  by rewrite IH, addEdge_dom.
Qed.

Lemma initializeWorkflow_dom workflow nodes0 edges0 start :
  initializeWorkflow registry workflow = Ok (nodes0, edges0, start) ->
  dom nodes0 ⊆ list_to_set (ids (Workflow.Nodes workflow)).
Proof.
  unfold initializeWorkflow.
  destruct (createNodes _ _ _ _) as [[ns s]|e|r] eqn:Hc; try discriminate.
  case_decide as Hstart; [discriminate|].
  destruct (foldl addEdge _ _) as [es ns'] eqn:Hf. intros Hok. inversion Hok; subst.
  apply createNodes_dom in Hc. rewrite dom_empty_L in Hc.
  pose proof (addEdges_dom (Workflow.Edges workflow) (∅, ns)) as Hd.
  rewrite Hf in Hd. simpl in Hd. rewrite Hd. set_solver.
Qed.





Lemma after_dom k st w st' w' :
  after env input edges k st w = Some (st', w') ->
  dom (nodes st') = dom (nodes st) ∧
  dom (priorOutputs st') ⊆ dom (priorOutputs st) ∪ dom (nodes st).
Proof.
  revert st w. induction k as [|k IH]; intros st w H; simpl in H.
  - inversion H; subst. set_solver.
  - destruct (iteration st w) as [[r|st1] w1] eqn:Hit; [done|].
    apply IH in H as [Hn Hp].
    apply iteration_Next_dom in Hit as ([n Hcur] & Hn1 & Hp1).
    apply elem_of_dom_2 in Hcur. rewrite Hn1 in Hn, Hp. rewrite Hp1 in Hp.
    split; [done|]. set_solver.
Qed.

Lemma Execute_records_failure fuel k workflow w nodes0 startNodeID execution0
    w0 st w1 n n' outputs err w2 :
  initializeWorkflow registry workflow = Ok (nodes0, edges, startNodeID) ->
  newExecution env workflow input w = (execution0, w0) ->
  after env input edges k (mkLoop nodes0 ∅ execution0 startNodeID 1) w0 = Some (st, w1) ->
  (k < fuel)%nat ->
  nodes st !! currentNodeID st = Some n ->
  node.Execute env n (mkInputs input ∅ (priorOutputs st)) w1 = (n', outputs, err, w2) ->
  is_Some err ∨ Status outputs = StatusFailed ->
  ∃ exec w3,
    execution.Execute env registry fuel workflow input w = (Some (Ok exec), w3) ∧
    WorkflowExecution.Status exec = StatusFailed ∧
    WorkflowExecution.Steps exec =
      (WorkflowExecution.Steps (execution st) ++ [stepOf st n' outputs])%list.
Proof.
  intros Hinit Hnew Hafter Hlt Hn Hx Hf.
  pose proof (Execute_after fuel k workflow w _ _ _ _ _ _ Hinit Hnew Hafter Hlt) as Hrun.
  rewrite (iteration_failed _ _ _ _ _ _ _ Hn Hx Hf) in Hrun.
  unfold finish, mbind, M_bind, mret, M_ret, Now in Hrun. simpl in Hrun.
  eexists _, _. split; [exact Hrun|]. by split.
Qed.

End EngineFacts.


(** ** Upstream data *)
Section Upstream.
Import models node props execution.
Context (env : Env).

Lemma integration_reads_form n inputs inputs' w :
  PriorOutputs inputs !! NodeIDForm = PriorOutputs inputs' !! NodeIDForm ->
  integration.Execute env n inputs w = integration.Execute env n inputs' w.
Proof. intros H. unfold integration.Execute. by rewrite H. Qed.

Lemma condition_reads_weather_api n inputs inputs' w :
  WorkflowInput inputs = WorkflowInput inputs' ->
  PriorOutputs inputs !! "weather-api" = PriorOutputs inputs' !! "weather-api" ->
  condition.Execute env n inputs w = condition.Execute env n inputs' w.
Proof. intros Hi H. unfold condition.Execute. by rewrite H, Hi. Qed.

Lemma email_reads_condition_and_form n inputs w :
  (PriorOutputs inputs !! NodeIDCondition = None ->
   fails_with (email.Execute env n inputs w) "Failed to get condition result") ∧
  (∀ conditionOutput conditionResult,
     PriorOutputs inputs !! NodeIDCondition = Some conditionOutput ->
     Data conditionOutput !! "conditionResult" = Some (VMap conditionResult) ->
     conditionResult !! "result" = Some (VBool true) ->
     PriorOutputs inputs !! NodeIDForm = None ->
     fails_with (email.Execute env n inputs w) "Failed to get form data").
Proof.
  split.
  - intros H. unfold email.Execute. simpl. rewrite H. simpl. by repeat split.
  - intros co cr Hc Hcr Hres Hf. unfold email.Execute. simpl.
    rewrite Hc. simpl. rewrite Hcr. simpl. rewrite Hres. simpl. rewrite Hf. simpl.
    by repeat split.
Qed.

Lemma upstream_missing (n : main.Builtin) inputs w key text :
  upstream n = Some (key, text) ->
  PriorOutputs inputs !! key = None ->
  fails_with (node.Execute env n inputs w) text.
Proof.
  intros Hup Hnone. destruct n as [s|f|i|c|e|z]; simpl in Hup; try discriminate;
    inversion Hup; subst; clear Hup; simpl; unfold main.lift, mbind, M_bind.
  - unfold integration.Execute. simpl. rewrite Hnone. simpl. by repeat split.
  - unfold condition.Execute. simpl. rewrite Hnone. simpl. by repeat split.
  - unfold email.Execute. simpl. rewrite Hnone. simpl. by repeat split.
Qed.


(** C9: the integration node reads prior outputs only under "form", the
    condition node only under "weather-api"; the email node fails without
    an output under "condition" and, when the condition is met, without
    one under "form".  Consequently, in a run of a validated workflow none
    of whose nodes has the literal id, the integration (condition, email)
    node ends the execution with status Failed and the step error
    "Failed to get form data" ("Failed to get temperature", "Failed to get
    condition result"), whatever the edges are. *)
Lemma Builtin_Execute_well_reported (n : main.Builtin) inputs w :
  well_reported (node.Execute env n inputs w).
Proof.
  destruct n as [s|f|i|c|e|z]; simpl; unfold main.lift, mbind, M_bind.
  - left. done.
  - left. done.
  - unfold integration.Execute, integration.fail, weather.GetWeather.
    unfold mbind, M_bind, mret, M_ret, NowRFC3339, Now, Do. simpl.
    repeat case_match; simplify_eq/=;
      first [ by left
            | right; split; [done|]; split; [by eexists|]; eexists; reflexivity ].
  - unfold condition.Execute.
    unfold mbind, M_bind, mret, M_ret, NowRFC3339, Now. simpl.
    repeat case_match; simplify_eq/=;
      first [ by left
            | right; split; [done|]; split; [by eexists|]; eexists; reflexivity ].
  - unfold email.Execute, email.fail, mailer.PrepareAndStubSendEmail,
      mailer.processTemplate.
    unfold mbind, M_bind, mret, M_ret, NowRFC3339, Now, RangeKeys. simpl.
    repeat case_match; simplify_eq/=;
      first [ by left
            | right; split; [done|]; split; [by eexists|]; eexists; reflexivity ].
  - left. done.
Qed.

(** With the registered node types the step of a failing node has status
    Failed and carries the text the node stored under "error". *)
Lemma Execute_failure_step_registered (registry : Registry main.Builtin)
    input edges fuel k workflow w nodes0 startNodeID execution0 w0 st w1
    n n' outputs err w2 :
  initializeWorkflow registry workflow = Ok (nodes0, edges, startNodeID) ->
  newExecution env workflow input w = (execution0, w0) ->
  after env input edges k (mkLoop nodes0 ∅ execution0 startNodeID 1) w0 = Some (st, w1) ->
  (k < fuel)%nat ->
  nodes st !! currentNodeID st = Some n ->
  node.Execute env n (mkInputs input ∅ (priorOutputs st)) w1 = (n', outputs, err, w2) ->
  is_Some err ∨ Status outputs = StatusFailed ->
  ∃ exec w3 step text,
    execution.Execute env registry fuel workflow input w = (Some (Ok exec), w3) ∧
    WorkflowExecution.Status exec = StatusFailed ∧
    last_step exec = Some step ∧
    ExecutionStep.Status step = StatusFailed ∧
    ExecutionStep.Error step = text ∧
    Data outputs !! "error" = Some (VString text) ∧ is_Some err.
Proof.
  intros Hinit Hnew Hafter Hlt Hn Hx Hf.
  pose proof (Builtin_Execute_well_reported n (mkInputs input ∅ (priorOutputs st)) w1)
    as Hrep.
  rewrite Hx in Hrep. simpl in Hrep.
  destruct Hrep as [[Hs ->]|(Hs & Herr & text & Hdata)].
  { destruct Hf as [[? [=]]|Hf]. rewrite Hs in Hf. discriminate. }
  destruct (Execute_records_failure env registry input edges fuel k workflow w _ _ _ _
              _ _ _ _ _ _ _ Hinit Hnew Hafter Hlt Hn Hx Hf)
    as (exec & w3 & Hrun & Hfailed & Hsteps).
  exists exec, w3, (stepOf env st n' outputs), text.
  split; [done|]. split; [done|].
  split; [unfold last_step; by rewrite Hsteps, last_snoc|].
  simpl. rewrite Hdata, decide_True by done. done.
Qed.

Theorem upstream_data_by_literal_id (registry : Registry main.Builtin) :
  (∀ n inputs inputs' w,
     PriorOutputs inputs !! "form" = PriorOutputs inputs' !! "form" ->
     integration.Execute env n inputs w = integration.Execute env n inputs' w) ∧
  (∀ n inputs inputs' w,
     WorkflowInput inputs = WorkflowInput inputs' ->
     PriorOutputs inputs !! "weather-api" = PriorOutputs inputs' !! "weather-api" ->
     condition.Execute env n inputs w = condition.Execute env n inputs' w) ∧
  (∀ n inputs w,
     (PriorOutputs inputs !! "condition" = None ->
      fails_with (email.Execute env n inputs w) "Failed to get condition result") ∧
     (∀ conditionOutput conditionResult,
        PriorOutputs inputs !! "condition" = Some conditionOutput ->
        Data conditionOutput !! "conditionResult" = Some (VMap conditionResult) ->
        conditionResult !! "result" = Some (VBool true) ->
        PriorOutputs inputs !! "form" = None ->
        fails_with (email.Execute env n inputs w) "Failed to get form data")) ∧
  (∀ workflow input w fuel k nodes0 edges startNodeID execution0 w0 st w1 n key text,
     workflow.validateWorkflowStructure (Workflow.Nodes workflow)
                                        (Workflow.Edges workflow) = None ->
     initializeWorkflow registry workflow = Ok (nodes0, edges, startNodeID) ->
     newExecution env workflow input w = (execution0, w0) ->
     after env input edges k (mkLoop nodes0 ∅ execution0 startNodeID 1) w0 = Some (st, w1) ->
     (k < fuel)%nat ->
     nodes st !! currentNodeID st = Some n ->
     upstream n = Some (key, text) ->
     key ∉ ids (Workflow.Nodes workflow) ->
     ∃ exec w3 step,
       execution.Execute env registry fuel workflow input w = (Some (Ok exec), w3) ∧
       WorkflowExecution.Status exec = StatusFailed ∧
       last_step exec = Some step ∧
       ExecutionStep.NodeID step = currentNodeID st ∧
       ExecutionStep.Status step = StatusFailed ∧
       ExecutionStep.Error step = text).
Proof.
  split; [exact (integration_reads_form)|].
  split; [exact (condition_reads_weather_api)|].
  split; [exact (email_reads_condition_and_form)|].
  intros workflow input w fuel k nodes0 edges start exec0 w0 st w1 n key text
    _ Hinit Hnew Hafter Hlt Hn Hup Hkey.
  assert (Hnone : priorOutputs st !! key = None).
  { apply not_elem_of_dom. intros Hin.
    apply (after_dom env input edges) in Hafter as [_ Hsub]. simpl in Hsub.
    apply Hsub in Hin. rewrite dom_empty_L, (left_id_L ∅ (∪)) in Hin.
    apply (initializeWorkflow_dom registry _ _ _ _ Hinit) in Hin.
    by apply elem_of_list_to_set in Hin. }
  pose proof (upstream_missing n (mkInputs input ∅ (priorOutputs st)) w1 key text
                Hup Hnone) as Hfail.
  destruct (node.Execute env n (mkInputs input ∅ (priorOutputs st)) w1)
    as [[[n' outputs] err] w2] eqn:Hx.
  destruct Hfail as (Hstatus & Herr & Hdata).
  destruct (Execute_records_failure env registry input edges fuel k workflow w _ _ _ _
              _ _ _ _ _ _ _ Hinit Hnew Hafter Hlt Hn Hx (or_intror Hstatus))
    as (exec & w3 & Hrun & Hfailed & Hsteps).
  exists exec, w3, (stepOf env st n' outputs).
  split; [done|]. split; [done|]. split; [unfold last_step; by rewrite Hsteps, last_snoc|].
  split; [done|]. simpl. rewrite Hdata. split; [by rewrite decide_True|done].
Qed.

End Upstream.

(** ** Concrete runs *)
Section Witnesses.
Import models node props examples execution workflow.

(** The greater_than case on a condition node routed to "email" and "end". *)
Lemma condition_Execute_greater_than_witness :
  verdict (condition.Execute env0 brancher (after_weather OperatorGreaterThan) w0) =
    (StatusCompleted, None, Some (VBool true), "email").
Proof.
  apply (proj1 (condition_Execute_greater_than env0 brancher
                  (after_weather OperatorGreaterThan) w0 hot
                  eq_refl eq_refl eq_refl)).
  reflexivity.
Defined.

(** The operator "at_least" is none of the five tags. *)
Lemma condition_Execute_unknown_operator_witness :
  verdict (condition.Execute env0 brancher (after_weather "at_least") w0) =
    (StatusCompleted, None, Some (VBool false), "end").
Proof.
  apply (condition_Execute_unknown_operator env0 brancher (after_weather "at_least")
           w0 hot 25.5).
  - unfold recognized. simpl. intros [H|[H|[H|[H|H]]]]; discriminate.
  - reflexivity.
  - reflexivity.
Defined.

(** "Nowhereville" against an options table that lists Sydney. *)
Lemma integration_Execute_unknown_city_witness :
  let '(_, outputs, err, w') :=
    integration.Execute env0 fetcher (after_form "Nowhereville") w0 in
  Status outputs = StatusFailed ∧
  err = Some (errors_New "city not found: Nowhereville") ∧
  Data outputs !! "error" = Some (VString "City not found: Nowhereville") ∧
  Contains "City not found: Nowhereville" "City not found" = true ∧
  requests w' = requests w0.
Proof.
  apply (integration_Execute_unknown_city env0 fetcher (after_form "Nowhereville")
           w0 (form_output "Nowhereville") "Nowhereville").
  - reflexivity.
  - reflexivity.
  - repeat constructor. discriminate.
Defined.






(** In the renamed workflow the integration node "n3" follows the form
    node "n2" and still fails for lack of an output under "form". *)
Lemma upstream_data_by_literal_id_witness :
  ∃ exec w3 step,
    execution.Execute env0 main.nodeRegistry 10 renamed sydney w0 = (Some (Ok exec), w3) ∧
    WorkflowExecution.Status exec = StatusFailed ∧
    last_step exec = Some step ∧
    ExecutionStep.NodeID step = "n3" ∧
    ExecutionStep.Status step = StatusFailed ∧
    ExecutionStep.Error step = "Failed to get form data".
Proof.
  pose (st := (reached 2 renamed sydney).1).
  pose (w2 := (reached 2 renamed sydney).2).
  pose (n := default (main.Start (start.mkNode (mkBaseNode "" "" "")))
                     (nodes st !! currentNodeID st)).
  destruct (proj2 (proj2 (proj2 (upstream_data_by_literal_id env0 main.nodeRegistry)))
              renamed sydney w0 10%nat 2%nat
              (initialized renamed).1.1 (initialized renamed).1.2 (initialized renamed).2
              (newExecution env0 renamed sydney w0).1
              (newExecution env0 renamed sydney w0).2 st w2 n
              "form" "Failed to get form data")
    as (exec & w3 & step & Hrun & Hfailed & Hlast & Hid & Hstatus & Herr);
    try reflexivity.
  - lia.
  - exact (bool_decide_eq_true_1 ("form" ∉ ids (Workflow.Nodes renamed)) eq_refl).
  - exists exec, w3, step. by repeat (split; [done|]).
Defined.

Lemma self_loop_form_pass (st : LoopState main.Builtin) (w : World) (f : form.Node) :
  currentNodeID st = "form" ->
  nodes st !! "form" = Some (main.Form f) ->
  ∃ st' w',
    iteration env0 sydney (initialized self_loop).1.2 st w = (Next st', w') ∧
    currentNodeID st' = "form" ∧ nodes st' !! "form" = Some (main.Form f).
Proof.
  destruct st as [ns ps ex cur num]. simpl. intros -> Hn.
  unfold iteration. simpl. rewrite Hn. simpl.
  eexists _, _. split; [reflexivity|]. split; [reflexivity|].
  simpl. apply lookup_insert_eq.
Qed.

Lemma self_loop_stays_in_loop fuel (st : LoopState main.Builtin) (w : World)
    (f : form.Node) :
  currentNodeID st = "form" ->
  nodes st !! "form" = Some (main.Form f) ->
  (loop env0 fuel sydney (initialized self_loop).1.2 st w).1 = None.
Proof.
  revert st w. induction fuel as [|fuel IH]; intros st w Hcur Hn; [done|].
  rewrite loop_S.
  destruct (self_loop_form_pass st w f Hcur Hn) as (st' & w' & -> & Hcur' & Hn').
  by apply IH.
Qed.

(** The self-loop workflow never returns, whatever the number of passes. *)
Lemma self_loop_runs_forever fuel :
  (execution.Execute env0 main.nodeRegistry fuel self_loop sydney w0).1 = None.
Proof.
  destruct fuel as [|fuel]; [reflexivity|].
  pose (st := (reached 1 self_loop sydney).1).
  pose (w1 := (reached 1 self_loop sydney).2).
  assert (Hrun : execution.Execute env0 main.nodeRegistry (S fuel) self_loop sydney w0 =
                   loop env0 fuel sydney (initialized self_loop).1.2 st w1).
  { rewrite (Execute_after env0 main.nodeRegistry sydney (initialized self_loop).1.2
               (S fuel) 0 self_loop w0 (initialized self_loop).1.1
               (initialized self_loop).2
               (newExecution env0 self_loop sydney w0).1
               (newExecution env0 self_loop sydney w0).2
               (entered self_loop sydney).1 (entered self_loop sydney).2);
      [|reflexivity|reflexivity|reflexivity|lia].
    replace (S fuel - 1)%nat with fuel by lia. reflexivity. }
  rewrite Hrun.
  apply (self_loop_stays_in_loop fuel st w1 (form.mkNode (mkBaseNode "form" "" "")));
    reflexivity.
Qed.

End Witnesses.

(* ===================================================================== *)
(** * Further properties of the code                                      *)
(* ===================================================================== *)

(** ** The registry and the registered node types *)
Section RegistryFacts.
Import models node props examples validity.

(** X1: Create looks the factory up by the type of the model: after
    Register for a type, Create runs the new factory on models of that type
    (replacing a factory registered before) and behaves as before on all
    other types; an empty registry answers every model with
    "no factory registered for node type <type>". *)
Theorem Register_then_Create {N : Type} (r : Registry N) (t : string)
    (f : NodeFactory N) (model : Node.t) :
  (Node.Type_ model = t -> Create (Register r t f) model = f model) ∧
  (Node.Type_ model ≠ t -> Create (Register r t f) model = Create r model) ∧
  Create (NewRegistry (N := N)) model =
    Err (errors_New ("no factory registered for node type " +:+ Node.Type_ model)).
Proof.
  unfold Create, Register, NewRegistry. simpl. split; [|split].
  - intros <-. by rewrite lookup_insert_eq.
  - intros Hne. by rewrite lookup_insert_ne.
  - by rewrite lookup_empty.
Qed.

Lemma factory_inv {A} (inj : A -> main.Builtin) (newNode : Node.t -> result A) model n :
  main.factory inj newNode model = Ok n -> ∃ a, newNode model = Ok a ∧ n = inj a.
Proof.
  unfold main.factory. destruct (newNode model) as [a| |]; intros [=]. by exists a.
Qed.

(** What the registry of the program creates for a model. *)
Lemma Create_nodeRegistry_inv model n :
  Create main.nodeRegistry model = Ok n ->
  Type_ n = Node.Type_ model ∧
  (∀ c, n = main.Condition c ->
        condition.TrueRoute (condition.config c) = "" ∧
        condition.FalseRoute (condition.config c) = "").
Proof.
  unfold Create, main.nodeRegistry, main.registerNodeTypes, Register, NewRegistry.
  simpl.
  destruct (decide (Node.Type_ model = NodeTypeEnd)) as [->|H1];
    [rewrite lookup_insert_eq; intros (a & _ & ->)%factory_inv; by split
    |rewrite lookup_insert_ne by done].
  destruct (decide (Node.Type_ model = NodeTypeEmail)) as [->|H2];
    [rewrite lookup_insert_eq; intros (a & _ & ->)%factory_inv; by split
    |rewrite lookup_insert_ne by done].
  destruct (decide (Node.Type_ model = NodeTypeCondition)) as [->|H3];
    [rewrite lookup_insert_eq; intros (a & Ha & ->)%factory_inv
    |rewrite lookup_insert_ne by done].
  { split; [done|]. intros c [= <-]. unfold condition.NewNode in Ha.
    case_match; by simplify_eq/=. }
  destruct (decide (Node.Type_ model = NodeTypeIntegration)) as [->|H4];
    [rewrite lookup_insert_eq; intros (a & _ & ->)%factory_inv; by split
    |rewrite lookup_insert_ne by done].
  destruct (decide (Node.Type_ model = NodeTypeForm)) as [->|H5];
    [rewrite lookup_insert_eq; intros (a & _ & ->)%factory_inv; by split
    |rewrite lookup_insert_ne by done].
  destruct (decide (Node.Type_ model = NodeTypeStart)) as [->|H6];
    [rewrite lookup_insert_eq; intros (a & _ & ->)%factory_inv; by split
    |rewrite lookup_insert_ne by done].
  by rewrite lookup_empty.
Qed.

(** X2: registerNodeTypes registers a factory for exactly the node types
    NodeType.IsValid accepts; a node the program's registry creates reports
    the type of its model; for a model of any other type Create returns
    "no factory registered for node type <type>". *)
Theorem registered_node_types (t : string) (model : Node.t) :
  (is_Some (factories main.nodeRegistry !! t) <-> NodeType_IsValid t = true) ∧
  (∀ n, Create main.nodeRegistry model = Ok n -> Type_ n = Node.Type_ model) ∧
  (NodeType_IsValid (Node.Type_ model) = false ->
   Create main.nodeRegistry model =
     Err (errors_New ("no factory registered for node type " +:+ Node.Type_ model))).
Proof.
  assert (Hkeys : ∀ t0, is_Some (factories main.nodeRegistry !! t0) <->
                        is_Some (ValidNodeTypes !! t0)).
  { intros t0. unfold main.nodeRegistry, main.registerNodeTypes, Register, NewRegistry,
      ValidNodeTypes. simpl. rewrite !lookup_insert_is_Some', !lookup_empty.
    pose proof (@is_Some_None (NodeFactory main.Builtin)).
    pose proof (@is_Some_None bool). tauto. }
  split; [|split].
  - unfold NodeType_IsValid. rewrite bool_decide_eq_true. apply Hkeys.
  - intros n Hn. by apply Create_nodeRegistry_inv in Hn as [Hty _].
  - unfold NodeType_IsValid. rewrite bool_decide_eq_false. intros Hno.
    unfold Create. destruct (factories main.nodeRegistry !! Node.Type_ model) eqn:Hl; [|done].
    destruct Hno. apply Hkeys. by eexists.
Qed.

End RegistryFacts.

(** ** The condition node *)
Section ConditionFacts.
Import models node props examples.

(** X3: Validate accepts a condition node exactly when both routes are
    non-empty, in whichever order SetTrueRoute and SetFalseRoute were
    called; the node NewNode creates has no routes and is rejected. *)
Theorem condition_Validate_after_routes (n : condition.Node) (a b : string)
    (model : Node.t) :
  (condition.Validate (condition.SetFalseRoute (condition.SetTrueRoute n a) b) = None
     <-> a ≠ "" ∧ b ≠ "") ∧
  (condition.Validate (condition.SetTrueRoute (condition.SetFalseRoute n b) a) = None
     <-> a ≠ "" ∧ b ≠ "") ∧
  (∀ n0, condition.NewNode model = Ok n0 -> is_Some (condition.Validate n0)).
Proof.
  unfold condition.Validate. simpl. split; [|split].
  - case_decide; [split; [done|tauto]|split; [intros _; tauto|done]].
  - case_decide; [split; [done|tauto]|split; [intros _; tauto|done]].
  - intros n0 Hnew. unfold condition.NewNode in Hnew.
    repeat case_match; simplify_eq/=; (case_decide; [by eexists|naive_solver]).
Qed.

(** X4: when no output is recorded under "weather-api", or its
    "temperature" entry is not a float64, the condition node fails with the
    error "missing temperature", the only data entry
    "error" = "Failed to get temperature" and no next node; the node and
    the log of HTTP requests are unchanged. *)
Theorem condition_Execute_missing_temperature (env : Env) (n : condition.Node)
    (inputs : NodeInputs) (w : World) :
  (∀ weather, PriorOutputs inputs !! "weather-api" = Some weather ->
              as_float (Data weather !! "temperature") = None) ->
  let '(n', outputs, err, w') := condition.Execute env n inputs w in
  n' = n ∧ Status outputs = StatusFailed ∧
  err = Some (errors_New "missing temperature") ∧
  Data outputs = {[ "error" := VString "Failed to get temperature" ]} ∧
  NextNodeID outputs = "" ∧ requests w' = requests w.
Proof.
  intros H. unfold condition.Execute. simpl.
  destruct (PriorOutputs inputs !! "weather-api") as [weather|] eqn:Hw.
  - rewrite (H weather eq_refl). by simpl.
  - by simpl.
Qed.

(** X5: when the weather-api output has a float64 temperature, the
    condition node completes for every operator: conditionResult records
    the temperature, the threshold and the operator of the input and the
    result of the comparison (temperature > threshold for greater_than,
    < for less_than, == for equals, >= for greater_than_or_equal, <= for
    less_than_or_equal, on float64; false for any other operator), the
    next node is the true or the false route by that result, and no
    "conditionMet" entry is written at the top level of the data. *)
Theorem condition_Execute_records_comparison (env : Env) (n : condition.Node)
    (inputs : NodeInputs) (w : World) (weather : NodeOutputs) (temperature : float) :
  PriorOutputs inputs !! "weather-api" = Some weather ->
  Data weather !! "temperature" = Some (VFloat temperature) ->
  let operator := WorkflowInput.Operator (WorkflowInput inputs) in
  let threshold := WorkflowInput.Threshold (WorkflowInput inputs) in
  let '(n', outputs, err, w') := condition.Execute env n inputs w in
  n' = n ∧ Status outputs = StatusCompleted ∧ err = None ∧ requests w' = requests w ∧
  ∃ (conditionResult : gmap string any) (result : bool),
    Data outputs !! "conditionResult" = Some (VMap conditionResult) ∧
    conditionResult !! "result" = Some (VBool result) ∧
    conditionResult !! "temperature" = Some (VFloat temperature) ∧
    conditionResult !! "threshold" = Some (VFloat threshold) ∧
    conditionResult !! "operator" = Some (VString operator) ∧
    (operator = OperatorGreaterThan -> result = (threshold <? temperature)%float) ∧
    (operator = OperatorLessThan -> result = (temperature <? threshold)%float) ∧
    (operator = OperatorEquals -> result = (temperature =? threshold)%float) ∧
    (operator = OperatorGreaterThanOrEqual ->
     result = (threshold <=? temperature)%float) ∧
    (operator = OperatorLessThanOrEqual ->
     result = (temperature <=? threshold)%float) ∧
    (¬ recognized operator -> result = false) ∧
    NextNodeID outputs =
      (if result then condition.TrueRoute (condition.config n)
       else condition.FalseRoute (condition.config n)) ∧
    Data outputs !! "conditionMet" = None.
Proof.
  intros Hw Ht operator threshold. unfold condition.Execute. simpl. rewrite Hw, Ht. simpl.
  fold operator threshold. repeat (split; [done|]).
  exists (<[ "expression" :=
              VString ("temperature " +:+ condition.operatorSymbol operator
                       +:+ " threshold") ]>
          (<[ "result" := VBool (condition.evaluate operator temperature threshold) ]>
          (<[ "temperature" := VFloat temperature ]>
          (<[ "operator" := VString operator ]>
          (<[ "threshold" := VFloat threshold ]> ∅))))),
         (condition.evaluate operator temperature threshold).
  repeat (split; [reflexivity|]).
  split; [by intros ->|]. split; [by intros ->|]. split; [by intros ->|].
  split; [by intros ->|]. split; [by intros ->|].
  split; [|by split].
  intros Hno. unfold condition.evaluate, recognized in *.
  repeat case_decide; naive_solver.
Qed.

End ConditionFacts.

(** ** The email node and the mailer *)
Section EmailFacts.
Import models node props examples run_props.

(** X6: when the condition node recorded the result false, the email node
    completes with the message "Email not sent - condition not met" and no
    "emailContent" entry; it ranges over no map and sends nothing. *)
Theorem email_Execute_condition_not_met (env : Env) (n : email.Node)
    (inputs : NodeInputs) (w : World) (conditionOutput : NodeOutputs)
    (conditionResult : gmap string any) :
  PriorOutputs inputs !! NodeIDCondition = Some conditionOutput ->
  Data conditionOutput !! "conditionResult" = Some (VMap conditionResult) ->
  conditionResult !! "result" = Some (VBool false) ->
  let '(n', outputs, err, w') := email.Execute env n inputs w in
  n' = n ∧ Status outputs = StatusCompleted ∧ err = None ∧
  Data outputs !! "message" = Some (VString "Email not sent - condition not met") ∧
  Data outputs !! "emailContent" = None ∧
  draws w' = draws w ∧ requests w' = requests w.
Proof.
  intros Hc Hcr Hres. unfold email.Execute. simpl.
  rewrite Hc. simpl. rewrite Hcr. simpl. rewrite Hres. simpl. by repeat split.
Qed.

(** X7: when the conditionResult entry of the condition output is not a
    map, or its "result" entry is not a bool, the email node fails with the
    error "invalid condition result format" and the data
    "message" = "Failed to process email",
    "error" = "Failed to get condition result", before it looks at the form
    output or at any variable. *)
Theorem email_Execute_invalid_condition_result (env : Env) (n : email.Node)
    (inputs : NodeInputs) (w : World) (conditionOutput : NodeOutputs) :
  PriorOutputs inputs !! NodeIDCondition = Some conditionOutput ->
  as_map (Data conditionOutput !! "conditionResult") = None ∨
  (∃ conditionResult,
     Data conditionOutput !! "conditionResult" = Some (VMap conditionResult) ∧
     as_bool (conditionResult !! "result") = None) ->
  let '(n', outputs, err, w') := email.Execute env n inputs w in
  n' = n ∧ Status outputs = StatusFailed ∧
  err = Some (errors_New "invalid condition result format") ∧
  Data outputs = email.failure "Failed to get condition result" ∧
  draws w' = draws w ∧ requests w' = requests w.
Proof.
  intros Hc Hbad. unfold email.Execute. simpl. rewrite Hc. simpl.
  destruct Hbad as [Hnone|(conditionResult & Hcr & Hnone)].
  - rewrite Hnone. by repeat split.
  - rewrite Hcr. simpl. rewrite Hnone. by repeat split.
Qed.

(** X8: when the condition was met and the form output has no string
    under "email", the email node fails with the error "missing email" and
    "error" = "Failed to get email from form output", whatever the
    variables and the template are. *)
Theorem email_Execute_missing_recipient (env : Env) (n : email.Node)
    (inputs : NodeInputs) (w : World) (conditionOutput formOutput : NodeOutputs)
    (conditionResult : gmap string any) :
  PriorOutputs inputs !! NodeIDCondition = Some conditionOutput ->
  Data conditionOutput !! "conditionResult" = Some (VMap conditionResult) ->
  conditionResult !! "result" = Some (VBool true) ->
  PriorOutputs inputs !! NodeIDForm = Some formOutput ->
  as_string (Data formOutput !! "email") = None ->
  let '(n', outputs, err, w') := email.Execute env n inputs w in
  n' = n ∧ Status outputs = StatusFailed ∧
  err = Some (errors_New "missing email") ∧
  Data outputs = email.failure "Failed to get email from form output" ∧
  draws w' = draws w ∧ requests w' = requests w.
Proof.
  intros Hc Hcr Hres Hf Hmail. unfold email.Execute. simpl.
  rewrite Hc. simpl. rewrite Hcr. simpl. rewrite Hres. simpl.
  rewrite Hf. simpl. rewrite Hmail. by repeat split.
Qed.

Lemma lookupVar_None (priorOutputs : gmap string NodeOutputs) var keys :
  (∀ k o, priorOutputs !! k = Some o -> Data o !! var = None) ->
  email.lookupVar priorOutputs var keys = None.
Proof.
  intros H. induction keys as [|key rest IH]; [done|]. simpl.
  destruct (priorOutputs !! key) as [o|] eqn:Hk; simpl; [|done].
  by rewrite (H key o Hk).
Qed.

Lemma lookupVar_Some (priorOutputs : gmap string NodeOutputs) var keys :
  (∃ k o, k ∈ keys ∧ priorOutputs !! k = Some o ∧ is_Some (Data o !! var)) ->
  is_Some (email.lookupVar priorOutputs var keys).
Proof.
  intros (k & o & Hin & Hk & Hv).
  induction keys as [|key rest IH]; [by apply elem_of_nil in Hin|]. simpl.
  destruct (priorOutputs !! key ≫= λ output, Data output !! var) as [v|] eqn:Hkey;
    [by eexists|].
  apply IH. apply elem_of_cons in Hin as [->|Hin]; [|done].
  rewrite Hk in Hkey. simpl in Hkey. rewrite Hkey in Hv. by destruct Hv.
Qed.

Lemma collect_first_missing (env : Env) (priorOutputs : gmap string NodeOutputs)
    pre v post templateVars w :
  Forall (offered priorOutputs) pre ->
  (∀ k o, priorOutputs !! k = Some o -> Data o !! v = None) ->
  ∃ w', email.collect env priorOutputs (pre ++ v :: post)%list templateVars w
          = (inl v, w') ∧
        clock w' = clock w ∧ requests w' = requests w.
Proof.
  intros Hpre Hv. revert templateVars w.
  induction Hpre as [|x pre (k & o & Hk & Hx) _ IH]; intros templateVars w; simpl.
  - unfold mbind, M_bind, RangeKeys. rewrite lookupVar_None by done. by eexists.
  - unfold mbind, M_bind, RangeKeys.
    destruct (lookupVar_Some priorOutputs x
                (env_range env (draws w) (map_to_list priorOutputs).*1)) as [val Hval].
    { exists k, o. split; [|done]. rewrite (env_range_perm env).
      apply list_elem_of_fmap. exists (k, o). split; [done|]. by apply elem_of_map_to_list. }
    rewrite Hval. destruct (IH (<[x:=val]> templateVars)
                              (mkWorld (clock w) (S (draws w)) (requests w)))
      as (w' & -> & Hc & Hr). by eexists.
Qed.

(** X9: when the condition was met and the recipient is known, the email
    node fails at the first of its input variables that no prior output
    has an entry for: error "missing required variable: <name>", data
    entry "error" = "Missing required variable: <name>"; nothing is sent. *)
Theorem email_Execute_missing_variable (env : Env) (n : email.Node)
    (inputs : NodeInputs) (w : World) (conditionOutput formOutput : NodeOutputs)
    (conditionResult : gmap string any) (to : string) (pre post : list string)
    (v : string) :
  PriorOutputs inputs !! NodeIDCondition = Some conditionOutput ->
  Data conditionOutput !! "conditionResult" = Some (VMap conditionResult) ->
  conditionResult !! "result" = Some (VBool true) ->
  PriorOutputs inputs !! NodeIDForm = Some formOutput ->
  Data formOutput !! "email" = Some (VString to) ->
  email.InputVariables n = (pre ++ v :: post)%list ->
  Forall (offered (PriorOutputs inputs)) pre ->
  (∀ k o, PriorOutputs inputs !! k = Some o -> Data o !! v = None) ->
  let '(n', outputs, err, w') := email.Execute env n inputs w in
  n' = n ∧ Status outputs = StatusFailed ∧
  err = Some (errors_New ("missing required variable: " +:+ v)) ∧
  Data outputs = email.failure ("Missing required variable: " +:+ v) ∧
  requests w' = requests w.
Proof.
  intros Hc Hcr Hres Hf Hto Hvars Hpre Hv.
  unfold email.Execute. simpl.
  rewrite Hc. simpl. rewrite Hcr. simpl. rewrite Hres. simpl.
  rewrite Hf. simpl. rewrite Hto. simpl. rewrite Hvars.
  unfold mbind, M_bind at 1. unfold NowRFC3339, mbind, M_bind, Now, mret, M_ret.
  destruct (collect_first_missing env (PriorOutputs inputs) pre v post ∅
              (mkWorld (S (clock w)) (draws w) (requests w)) Hpre Hv)
    as (w' & Hcol & _ & Hr).
  rewrite Hcol. simpl. by repeat split.
Qed.

Lemma replace_from_absent old new s :
  Contains s old = false -> replace_from old new 0 s = s.
Proof.
  induction s as [|c s IH]; [done|]. intros H.
  change (Contains (String c s) old) with (HasPrefix (String c s) old || Contains s old) in H.
  apply orb_false_iff in H as [Hp Hc].
  cbn [replace_from]. rewrite Hp. by rewrite IH.
Qed.

Lemma ReplaceAll_absent s old new :
  Contains s old = false -> ReplaceAll s old new = s.
Proof. intros H. destruct old; [done|]. by apply replace_from_absent. Qed.

(** X10: processTemplate returns the template unchanged when the
    placeholder {{key}} of no variable occurs in it, in whatever order the
    range visits the variables. *)
Theorem processTemplate_without_placeholders (env : Env) (template : string)
    (variables : gmap string any) (w : World) :
  (∀ key, is_Some (variables !! key) ->
          Contains template ("{{" +:+ key +:+ "}}") = false) ->
  mailer.processTemplate env template variables w =
    (template, mkWorld (clock w) (S (draws w)) (requests w)).
Proof.
  intros H. unfold mailer.processTemplate, mbind, M_bind, RangeKeys, mret, M_ret.
  f_equal.
  assert (Hkeys : ∀ key, key ∈ env_range env (draws w) (map_to_list variables).*1 ->
                         is_Some (variables !! key)).
  { intros key Hin. rewrite (env_range_perm env) in Hin.
    apply list_elem_of_fmap in Hin as ([k v] & -> & Hin).
    apply elem_of_map_to_list in Hin. by eexists. }
  induction (env_range env (draws w) (map_to_list variables).*1) as [|key keys IH];
    [done|].
  simpl. unfold mailer.substitute at 2.
  destruct (variables !! key) as [v|] eqn:Hv.
  - rewrite ReplaceAll_absent; [|apply H; by eexists].
    apply IH. intros k Hk. apply Hkeys. by right.
  - apply IH. intros k Hk. apply Hkeys. by right.
Qed.

Lemma range_single (env : Env) (d : nat) (var : string) (value : any) :
  env_range env d (map_to_list (<[ var := value ]> (∅ : gmap string any))).*1 = [var].
Proof.
  pose proof (env_range_perm env d
                (map_to_list (<[ var := value ]> (∅ : gmap string any))).*1) as Hperm.
  rewrite insert_empty, map_to_list_singleton in *. simpl in *.
  by apply Permutation_singleton_r in Hperm.
Qed.

(** X30: when two prior outputs have an entry for the same variable, the
    email node takes the one of the output its range over the prior
    outputs visits first: with a single input variable, the subject and
    the body sent are the templates with the placeholder replaced by that
    value. *)
Theorem email_Execute_first_visited_wins (env : Env) (n : email.Node)
    (inputs : NodeInputs) (w : World) (conditionOutput formOutput : NodeOutputs)
    (conditionResult : gmap string any) (to var k : string) (rest : list string)
    (o : NodeOutputs) (v : string) :
  PriorOutputs inputs !! NodeIDCondition = Some conditionOutput ->
  Data conditionOutput !! "conditionResult" = Some (VMap conditionResult) ->
  conditionResult !! "result" = Some (VBool true) ->
  PriorOutputs inputs !! NodeIDForm = Some formOutput ->
  Data formOutput !! "email" = Some (VString to) ->
  email.InputVariables n = [var] ->
  env_range env (draws w) (map_to_list (PriorOutputs inputs)).*1 = k :: rest ->
  PriorOutputs inputs !! k = Some o ->
  Data o !! var = Some (VString v) ->
  let '(n', outputs, err, w') := email.Execute env n inputs w in
  Status outputs = StatusCompleted ∧ err = None ∧
  ∃ content : gmap string any,
    Data outputs !! "emailContent" = Some (VMap content) ∧
    content !! "to" = Some (VString to) ∧
    content !! "subject" =
      Some (VString (ReplaceAll (mailer.Subject (email.EmailTemplate n))
                                ("{{" +:+ var +:+ "}}") v)) ∧
    content !! "body" =
      Some (VString (ReplaceAll (mailer.Body (email.EmailTemplate n))
                                ("{{" +:+ var +:+ "}}") v)).
Proof.
  intros Hc Hcr Hres Hf Hto Hvars Hrange Hk Hv.
  unfold email.Execute. simpl.
  rewrite Hc. simpl. rewrite Hcr. simpl. rewrite Hres. simpl.
  rewrite Hf. simpl. rewrite Hto. simpl. rewrite Hvars.
  unfold mbind, M_bind at 1. unfold NowRFC3339, mbind, M_bind, Now, mret, M_ret.
  simpl. unfold mbind, M_bind, RangeKeys. simpl. rewrite Hrange. simpl.
  rewrite Hk. simpl. rewrite Hv.
  unfold mret, M_ret. simpl. rewrite !range_single. simpl.
  unfold mailer.substitute. rewrite lookup_insert_eq.
  split; [done|]. split; [done|]. eexists. split; [reflexivity|]. done.
Qed.

End EmailFacts.

(** ** The integration node *)
Section IntegrationFacts.
Import models node props examples run_props.

(** X11: when the form output has no string under "city", the integration
    node fails with the error "missing city" and the only data entry
    "error" = "Failed to get city from form output"; the node is unchanged
    and no request is sent. *)
Theorem integration_Execute_missing_city (env : Env) (n : integration.Node)
    (inputs : NodeInputs) (w : World) (formOutput : NodeOutputs) :
  PriorOutputs inputs !! NodeIDForm = Some formOutput ->
  as_string (Data formOutput !! "city") = None ->
  let '(n', outputs, err, w') := integration.Execute env n inputs w in
  n' = n ∧ Status outputs = StatusFailed ∧
  err = Some (errors_New "missing city") ∧
  Data outputs = {[ "error" := VString "Failed to get city from form output" ]} ∧
  requests w' = requests w.
Proof.
  intros Hf Hc. unfold integration.Execute. simpl. rewrite Hf. simpl.
  rewrite Hc. by repeat split.
Qed.


(** X13: when the weather service answers with a status other than 200,
    the integration node fails; its error wraps
    "weather API returned status <code>", the data entry "error" is
    "Weather API error: weather API returned status <code>", no temperature
    is recorded, and the one request was sent. *)
Theorem integration_Execute_bad_status (env : Env) (n : integration.Node)
    (inputs : NodeInputs) (w : World) (formOutput : NodeOutputs)
    (city : string) (lat lon : float) (code : Z) body :
  PriorOutputs inputs !! NodeIDForm = Some formOutput ->
  Data formOutput !! "city" = Some (VString city) ->
  integration.findCity (integration.Options (integration.config n)) city = Some (lat, lon) ->
  let url := weather_url (integration.APIEndpoint (integration.config n)) lat lon in
  env_NewRequest env url = None ->
  env_Do env (length (requests w)) url = Response code body ->
  code ≠ 200%Z ->
  let '(n', outputs, err, w') := integration.Execute env n inputs w in
  Status outputs = StatusFailed ∧
  err = Some (fmt_Errorf
                ("weather API error: weather API returned status " +:+ itoa code)
                (errors_New ("weather API returned status " +:+ itoa code))) ∧
  Data outputs !! "error" =
    Some (VString ("Weather API error: weather API returned status " +:+ itoa code)) ∧
  Data outputs !! OutputKeyTemperature = None ∧
  requests w' = (requests w ++ [url])%list.
Proof.
  intros Hf Hc Hopt url Hreq Hdo Hcode. unfold integration.Execute. simpl.
  rewrite Hf. simpl. rewrite Hc. simpl.
  destruct (Contains _ _); simpl; rewrite Hopt; unfold weather.GetWeather;
    fold (weather_url (integration.APIEndpoint (integration.config n)) lat lon);
    fold url; rewrite Hreq; unfold mbind, M_bind, Do; simpl; rewrite Hdo;
    rewrite decide_True by done; simpl; by repeat split.
Qed.

(** X14: Execute changes nothing of an integration node but its
    description: id, label, endpoint and options stay, and the description
    either stays or is the old one with "{{city}}" replaced by the city of
    the form output. *)
Theorem integration_Execute_keeps_config (env : Env) (n : integration.Node)
    (inputs : NodeInputs) (w : World) :
  let '(n', outputs, err, w') := integration.Execute env n inputs w in
  integration.config n' = integration.config n ∧
  ID (integration.Base n') = ID (integration.Base n) ∧
  Label (integration.Base n') = Label (integration.Base n) ∧
  (Description (integration.Base n') = Description (integration.Base n) ∨
   ∃ formOutput city,
     PriorOutputs inputs !! NodeIDForm = Some formOutput ∧
     Data formOutput !! "city" = Some (VString city) ∧
     Description (integration.Base n') =
       ReplaceAll (Description (integration.Base n)) "{{city}}" city).
Proof.
  unfold integration.Execute, integration.fail, weather.GetWeather.
  unfold mbind, M_bind, mret, M_ret, NowRFC3339, Now, Do. simpl.
  destruct n as [[id label description] cfg]. simpl.
  repeat case_match; simplify_eq/=; repeat split; try by left.
  all: right; unfold as_string in *; repeat case_match; simplify_eq;
    by eexists _, _.
Qed.

End IntegrationFacts.

(** ** What the registered nodes do to the world *)
Section Effects.
Import models node props examples run_props.

Lemma collect_requests (env : Env) (priorOutputs : gmap string NodeOutputs)
    vars templateVars w :
  requests (email.collect env priorOutputs vars templateVars w).2 = requests w.
Proof.
  revert templateVars w. induction vars as [|v vars IH]; intros templateVars w; [done|].
  simpl. unfold mbind, M_bind, RangeKeys. case_match; [|done]. by rewrite IH.
Qed.

Lemma email_Execute_requests (env : Env) (n : email.Node) inputs w :
  requests (email.Execute env n inputs w).2 = requests w.
Proof.
  unfold email.Execute, email.fail, mailer.PrepareAndStubSendEmail,
    mailer.processTemplate.
  unfold mbind at 1, M_bind at 1, NowRFC3339, mbind, M_bind, mret, M_ret, Now.
  repeat case_match; simplify_eq/=; try done.
  all: match goal with
       | H : email.collect ?e ?p ?v ?t ?w = (_, ?w') |- _ =>
           pose proof (collect_requests e p v t w) as Hreq; rewrite H in Hreq
       end; simpl in *; unfold RangeKeys in *; simplify_eq/=; done.
Qed.

(** X15: of the six registered node types only the integration node
    sends HTTP requests, at most one per execution, and only after it found
    the city of the form output among its options; the email node sends
    none (the mailer is a stub). *)
Theorem Builtin_Execute_requests (env : Env) (b : main.Builtin)
    (inputs : NodeInputs) (w : World) :
  let '(b', outputs, err, w') := node.Execute env b inputs w in
  requests w' = requests w ∨
  ∃ n formOutput city lat lon,
    b = main.Integration n ∧
    PriorOutputs inputs !! NodeIDForm = Some formOutput ∧
    Data formOutput !! "city" = Some (VString city) ∧
    integration.findCity (integration.Options (integration.config n)) city
      = Some (lat, lon) ∧
    requests w' =
      (requests w ++
       [weather_url (integration.APIEndpoint (integration.config n)) lat lon])%list.
Proof.
  destruct b as [s|f|i|c|e|z]; simpl; unfold main.lift, mbind, M_bind.
  - by left.
  - by left.
  - unfold integration.Execute, integration.fail, weather.GetWeather, weather_url.
    unfold mbind, M_bind, mret, M_ret, NowRFC3339, Now, Do. simpl.
    repeat case_match; simplify_eq/=; try (by left).
    all: right; unfold as_string in *; repeat case_match; simplify_eq/=;
      by eexists _, _, _, _, _.
  - unfold condition.Execute.
    unfold mbind, M_bind, mret, M_ret, NowRFC3339, Now. simpl.
    repeat case_match; simplify_eq/=; by left.
  - pose proof (email_Execute_requests env e inputs w) as H.
    destruct (email.Execute env e inputs w) as [[[n' o] er] w']. by left.
  - by left.
Qed.

End Effects.

(** ** The workflow input *)
Section InputFacts.
Import models node props examples validity.

Lemma ValidOperators_lookup (o : string) :
  ValidOperators !! o = if bool_decide (recognized o) then Some true else None.
Proof.
  unfold ValidOperators, recognized.
  destruct (decide (o = OperatorGreaterThan)) as [->|H1]; [done|].
  rewrite lookup_insert_ne by done.
  destruct (decide (o = OperatorLessThan)) as [->|H2]; [done|].
  rewrite lookup_insert_ne by done.
  destruct (decide (o = OperatorEquals)) as [->|H3]; [done|].
  rewrite lookup_insert_ne by done.
  destruct (decide (o = OperatorGreaterThanOrEqual)) as [->|H4]; [done|].
  rewrite lookup_insert_ne by done.
  destruct (decide (o = OperatorLessThanOrEqual)) as [->|H5]; [done|].
  rewrite lookup_insert_ne by done. rewrite lookup_empty.
  rewrite bool_decide_eq_false_2; [done|]. naive_solver.
Qed.

(** X16: the operators of ValidOperators are exactly those the switch of
    the condition node has a case for (those for which the comparison can
    come out true), and an input that passes WorkflowInput.Validate
    carries one of them, next to a non-empty name and city and an email
    address with an at sign and a dot. *)
Theorem valid_operators_have_a_case (o : string) (w : WorkflowInput.t) :
  (Operator_IsValid o = true <->
   ∃ temperature threshold, condition.evaluate o temperature threshold = true) ∧
  (Validate w = None ->
   Operator_IsValid (WorkflowInput.Operator w) = true ∧
   WorkflowInput.Name w ≠ "" ∧ WorkflowInput.City w ≠ "" ∧
   Contains (WorkflowInput.Email w) "@" = true ∧
   Contains (WorkflowInput.Email w) "." = true).
Proof.
  split.
  - unfold Operator_IsValid. rewrite bool_decide_eq_true, ValidOperators_lookup.
    split.
    + intros Hsome. case_bool_decide as Hrec; [|by destruct Hsome].
      destruct Hrec as [-> | [-> | [-> | [-> | ->]]]].
      * by exists 1%float, 0%float.
      * by exists 0%float, 1%float.
      * by exists 0%float, 0%float.
      * by exists 0%float, 0%float.
      * by exists 0%float, 0%float.
    + intros (temperature & threshold & Heval).
      rewrite bool_decide_eq_true_2; [by eexists|].
      unfold condition.evaluate, recognized in *.
      repeat case_decide; naive_solver.
  - unfold Validate, Operator_IsValid. intros H.
    destruct (decide (WorkflowInput.Name w = "")) as [|Hname]; [discriminate|].
    destruct (decide (WorkflowInput.Email w = "")) as [|Hemail]; [discriminate|].
    destruct (negb (Contains _ "@") || negb (Contains _ ".")) eqn:Hmail;
      [discriminate|].
    destruct (decide (WorkflowInput.City w = "")) as [|Hcity]; [discriminate|].
    apply orb_false_iff in Hmail as [Hat Hdot].
    apply negb_false_iff in Hat, Hdot.
    destruct (ValidOperators !! WorkflowInput.Operator w) as [b|] eqn:Hop;
      [|discriminate].
    split; [|done]. apply bool_decide_eq_true. by eexists.
Qed.

End InputFacts.

(** ** What the factories create *)
Section FactoryFacts.
Import models node props examples validity.

Lemma factory_Err {A} (inj : A -> main.Builtin) (newNode : Node.t -> result A) model err :
  main.factory inj newNode model = Err err <-> newNode model = Err err.
Proof.
  unfold main.factory. destruct (newNode model); split; intros [=]; by subst.
Qed.

(** X28: the registry of the program refuses a model with an error in two
    cases only: its type is none of the six registered ones
    ("no factory registered for node type <type>"), or it is an integration
    node whose metadata has no string under "apiEndpoint"
    ("missing API endpoint"). *)
Theorem nodeRegistry_creation_errors (model : Node.t) (err : error) :
  Create main.nodeRegistry model = Err err <->
  (NodeType_IsValid (Node.Type_ model) = false ∧
   err = errors_New ("no factory registered for node type " +:+ Node.Type_ model)) ∨
  (Node.Type_ model = NodeTypeIntegration ∧
   as_string (NodeData.Metadata (Node.Data model) !! "apiEndpoint") = None ∧
   err = errors_New "missing API endpoint").
Proof.
  unfold Create, main.nodeRegistry, main.registerNodeTypes, Register, NewRegistry,
    NodeType_IsValid, ValidNodeTypes.
  simpl.
  destruct (decide (Node.Type_ model = NodeTypeEnd)) as [Hty|H1].
  { rewrite Hty, lookup_insert_eq, factory_Err. split; [done|].
    intros [[Hno _]|[[=] _]]. discriminate Hno. }
  rewrite lookup_insert_ne by done.
  destruct (decide (Node.Type_ model = NodeTypeEmail)) as [Hty|H2].
  { rewrite Hty, lookup_insert_eq, factory_Err. split.
    - unfold email.NewNode. by repeat case_match.
    - intros [[Hno _]|[[=] _]]. discriminate Hno. }
  rewrite lookup_insert_ne by done.
  destruct (decide (Node.Type_ model = NodeTypeCondition)) as [Hty|H3].
  { rewrite Hty, lookup_insert_eq, factory_Err. split.
    - unfold condition.NewNode. by repeat case_match.
    - intros [[Hno _]|[[=] _]]. discriminate Hno. }
  rewrite lookup_insert_ne by done.
  destruct (decide (Node.Type_ model = NodeTypeIntegration)) as [Hty|H4].
  { rewrite Hty, lookup_insert_eq, factory_Err. unfold integration.NewNode. split.
    - intros H. right. split; [done|].
      destruct (as_string _); [discriminate|]. by inversion H.
    - intros [[Hno _]|(_ & Hnone & ->)]; [discriminate Hno|]. by rewrite Hnone. }
  rewrite lookup_insert_ne by done.
  destruct (decide (Node.Type_ model = NodeTypeForm)) as [Hty|H5].
  { rewrite Hty, lookup_insert_eq, factory_Err. split; [done|].
    intros [[Hno _]|[[=] _]]. discriminate Hno. }
  rewrite lookup_insert_ne by done.
  destruct (decide (Node.Type_ model = NodeTypeStart)) as [Hty|H6].
  { rewrite Hty, lookup_insert_eq, factory_Err. split; [done|].
    intros [[Hno _]|[[=] _]]. discriminate Hno. }
  rewrite lookup_insert_ne by done. rewrite lookup_empty.
  split.
  - intros [= <-]. left. split; [|done]. apply bool_decide_eq_false.
    rewrite !lookup_insert_is_Some', lookup_empty.
    pose proof (@is_Some_None bool). naive_solver.
  - intros [[_ ->]|[? _]]; done.
Qed.

Lemma strings_of_nil (vars : list any) :
  vars ≫= (fun v => match v with VString s => [s] | _ => [] end) = [] <->
  ∀ s, VString s ∉ vars.
Proof.
  induction vars as [|v vars IH].
  - split; [intros _ s H; inversion H|done].
  - rewrite bind_cons. split.
    + intros H s Hin. apply app_eq_nil in H as [Hv Hrest].
      apply elem_of_cons in Hin as [<-|Hin]; [discriminate|].
      by apply (proj1 IH Hrest s).
    + intros H. rewrite (proj2 IH); [|intros s Hin; apply (H s); by right].
      destruct v; try done. destruct (H s). by left.
Qed.

(** X29: email.NewNode never fails, keeps the strings of "inputVariables"
    in their order, and reads "emailTemplate" only when the metadata has an
    "inputVariables" entry.  The node it creates passes Validate exactly
    when "inputVariables" is a list with a string in it and
    "emailTemplate" is a map with non-empty strings under "subject" and
    "body". *)
Theorem email_NewNode_Validate (model : Node.t) :
  let metadata := NodeData.Metadata (Node.Data model) in
  ∃ n, email.NewNode model = Ok n ∧
    (metadata !! "inputVariables" = None ->
     email.InputVariables n = [] ∧ email.EmailTemplate n = mailer.mkTemplate "" "") ∧
    (email.Validate n = None <->
     (∃ vars s, metadata !! "inputVariables" = Some (VList vars) ∧ VString s ∈ vars) ∧
     (∃ template subject body,
        metadata !! "emailTemplate" = Some (VMap template) ∧
        template !! "subject" = Some (VString subject) ∧ subject ≠ "" ∧
        template !! "body" = Some (VString body) ∧ body ≠ "")).
Proof.
  intros metadata. unfold email.NewNode. fold metadata.
  destruct (metadata !! "inputVariables") as [meta|] eqn:Hmeta.
  - eexists. split; [reflexivity|]. split; [done|].
    unfold email.Validate. simpl.
    assert (Hvars : (match meta with
              | VList inputVars =>
                  inputVars ≫= (fun v => match v with VString s => [s] | _ => [] end)
              | _ => []
              end = []) <-> ¬ ∃ vars s, Some meta = Some (VList vars) ∧ VString s ∈ vars).
    { destruct meta as [| | | | | |vars|]; try (split; [intros _ (? & ? & [=] & _)|done]).
      rewrite strings_of_nil. split.
      - intros H (vars' & s & [= <-] & Hin). by apply (H s).
      - intros H s Hin. apply H. by exists vars, s. }
    case_decide as Hlen.
    { split; [done|]. intros [Hsome _]. apply length_zero_iff_nil in Hlen.
      by apply Hvars in Hlen. }
    assert (Hsome : ∃ vars s, Some meta = Some (VList vars) ∧ VString s ∈ vars).
    { destruct meta as [| | | | | |vars|]; try done.
      destruct (vars ≫= _) as [|s l] eqn:Hl; [done|].
      assert (Hin : s ∈ vars ≫= λ v : any, match v with VString s0 => [s0] | _ => [] end)
        by (rewrite Hl; by left).
      apply list_elem_of_bind in Hin as (v & Hs & Hv).
      exists vars, s. split; [done|]. destruct v; try by apply elem_of_nil in Hs.
      by apply list_elem_of_singleton in Hs as ->. }
    assert (Htemplate :
      ∀ t : mailer.EmailTemplate,
        t = match as_map (metadata !! "emailTemplate") with
            | Some template =>
                mailer.mkTemplate (default "" (as_string (template !! "subject")))
                                  (default "" (as_string (template !! "body")))
            | None => mailer.mkTemplate "" ""
            end ->
        (¬ (mailer.Subject t = "" ∨ mailer.Body t = "") <->
         ∃ template subject body,
           metadata !! "emailTemplate" = Some (VMap template) ∧
           template !! "subject" = Some (VString subject) ∧ subject ≠ "" ∧
           template !! "body" = Some (VString body) ∧ body ≠ "")).
    { intros t ->. destruct (metadata !! "emailTemplate") as [tv|]; simpl;
        [|split; [naive_solver|intros (? & ? & ? & [=] & _)]].
      destruct tv as [| | | | |template| |]; simpl;
        try (split; [naive_solver|intros (? & ? & ? & [=] & _)]).
      split.
      - intros Hne. exists template.
        destruct (template !! "subject") as [[|subject| | | | | |]|];
          destruct (template !! "body") as [[|body| | | | | |]|];
          simpl in Hne; naive_solver.
      - intros (tpl & subject & body & [= <-] & Hs & Hsne & Hb & Hbne).
        rewrite Hs, Hb. simpl. naive_solver. }
    specialize (Htemplate _ eq_refl).
    case_decide as Hempty.
    + split; [done|]. intros [_ Hex]. by apply Htemplate in Hex.
    + split; [|done]. intros _. split; [done|]. by apply Htemplate.
  - eexists. split; [reflexivity|]. split; [done|].
    unfold email.Validate. simpl. split; [done|]. by intros [(? & ? & [=] & _) _].
Qed.

End FactoryFacts.

(** ** Runs of the engine *)
Section RunFacts.
Import models node props execution run_props.
Context {N : Type} `{!Node N} `{!ConditionCast N}.
Context (env : Env) (registry : Registry N).
Context (input : WorkflowInput.t) (edges : gmap string (gmap string string)).

#[local] Abbreviation iteration := (execution.iteration env input edges).
#[local] Abbreviation loop fuel := (execution.loop env fuel input edges).
#[local] Abbreviation stepOf := (props.stepOf env).
#[local] Abbreviation after := (props.after env input edges).

(** Everything one pass through the loop body can do. *)
Lemma iteration_inv st w out w' :
  iteration st w = (out, w') ->
  (nodes st !! currentNodeID st = None ∧ w' = w ∧
   out = Done (Err (errors_New ("node " +:+ currentNodeID st +:+
                                " not found in workflow")))) ∨
  ∃ n n' outputs err w2,
    nodes st !! currentNodeID st = Some n ∧
    node.Execute env n (mkInputs input ∅ (priorOutputs st)) w = (n', outputs, err, w2) ∧
    (((is_Some err ∨ Status outputs = StatusFailed) ∧
      ∃ exec, out = Done (Ok exec) ∧
        (exec, w') = finish env (appendStep (execution st) (stepOf st n' outputs))
                       StatusFailed w2) ∨
     (err = None ∧ Status outputs ≠ StatusFailed ∧ Type_ n' = NodeTypeEnd ∧
      ∃ exec, out = Done (Ok exec) ∧
        (exec, w') = finish env (appendStep (execution st) (stepOf st n' outputs))
                       StatusCompleted w2) ∨
     (err = None ∧ Status outputs ≠ StatusFailed ∧ Type_ n' ≠ NodeTypeEnd ∧ w' = w2 ∧
      ∃ e, findNextNode n' (currentNodeID st) outputs edges = inl e ∧
           out = Done (Err e)) ∨
     (err = None ∧ Status outputs ≠ StatusFailed ∧ Type_ n' ≠ NodeTypeEnd ∧ w' = w2 ∧
      ∃ next, findNextNode n' (currentNodeID st) outputs edges = inr next ∧
           out = Next (mkLoop (<[ currentNodeID st := n' ]> (nodes st))
                              (<[ currentNodeID st := outputs ]> (priorOutputs st))
                              (appendStep (execution st) (stepOf st n' outputs))
                              next (stepNumber st + 1)))).
Proof.
  unfold execution.iteration. intros H.
  destruct (nodes st !! currentNodeID st) as [n|] eqn:Hn.
  - right. unfold mbind, M_bind in H.
    destruct (node.Execute env n _ w) as [[[n' outputs] err] w2] eqn:Hx.
    exists n, n', outputs, err, w2. split; [done|]. split; [done|].
    case_decide as Hfail.
    + left. split; [done|]. unfold mret, M_ret in H.
      destruct (finish env _ StatusFailed w2) as [exec w3] eqn:Hfin.
      inversion H; subst. by eexists.
    + assert (err = None ∧ Status outputs ≠ StatusFailed) as [-> Hst].
      { split; [destruct err; [exfalso; apply Hfail; left; by eexists|done]|].
        intros Hs. apply Hfail. by right. }
      right. case_decide as Hend.
      * left. repeat split; try done. unfold mret, M_ret in H.
        destruct (finish env _ StatusCompleted w2) as [exec w3] eqn:Hfin.
        inversion H; subst. by eexists.
      * right. destruct (findNextNode n' _ outputs edges) as [e|next] eqn:Hnext;
          inversion H; subst.
        -- left. repeat split; try done. by eexists.
        -- right. repeat split; try done. by eexists.
  - left. by inversion H.
Qed.

Lemma loop_Some fuel st w r w' :
  loop fuel st w = (Some r, w') ->
  ∃ k st1 w1, (k < fuel)%nat ∧ after k st w = Some (st1, w1) ∧
              iteration st1 w1 = (Done r, w').
Proof.
  revert st w. induction fuel as [|fuel IH]; intros st w H; [discriminate|].
  simpl in H. unfold mbind, M_bind in H.
  destruct (iteration st w) as [[r0|st'] w1] eqn:Hit.
  - inversion H; subst. exists 0%nat, st, w. split; [lia|]. done.
  - apply IH in H as (k & st1 & w2 & Hk & Haft & Hdone).
    exists (S k), st1, w2. split; [lia|]. simpl. rewrite Hit. done.
Qed.

Lemma after_S k st w st' w' :
  after (S k) st w = Some (st', w') ->
  ∃ st1 w1, after k st w = Some (st1, w1) ∧ iteration st1 w1 = (Next st', w').
Proof.
  revert st w. induction k as [|k IH]; intros st w H.
  - simpl in H. destruct (iteration st w) as [[r|st1] w1] eqn:Hit; [done|].
    inversion H; subst. by exists st, w.
  - change (props.after env input edges (S (S k)) st w) with
      (match iteration st w with
       | (Next st1, w1) => after (S k) st1 w1
       | (Done _, _) => None
       end) in H.
    destruct (iteration st w) as [[r|st1] w1] eqn:Hit; [done|].
    apply IH in H as (st2 & w2 & Ha & Hi). exists st2, w2. split; [|done].
    simpl. by rewrite Hit.
Qed.

Lemma stepOf_fields st n' outputs :
  ExecutionStep.NodeID (stepOf st n' outputs) = currentNodeID st ∧
  ExecutionStep.StepNumber (stepOf st n' outputs) = stepNumber st ∧
  ExecutionStep.NodeType (stepOf st n' outputs) = Type_ n' ∧
  ExecutionStep.Output (stepOf st n' outputs) = Data outputs ∧
  ExecutionStep.Status (stepOf st n' outputs) =
    (if decide (Status outputs = StatusFailed) then StatusFailed else StatusCompleted).
Proof. done. Qed.

Lemma consistent_Next st w st' w' :
  consistent st -> iteration st w = (Next st', w') -> consistent st'.
Proof.
  intros [Hc Hn Hs Hd Hr] Hit.
  apply iteration_inv in Hit as [(_ & _ & ?)|(n & n' & outputs & err & w2 & Hn0 & Hx & Hcase)];
    [done|].
  destruct Hcase as [(_ & exec & ? & _)|[(_ & _ & _ & exec & ? & _)|
    [(_ & _ & _ & _ & e & _ & ?)|(-> & Hst & Hty & -> & next & Hnext & Heq)]]];
    try done.
  inversion Heq; subst st'; clear Heq.
  split; simpl.
  - rewrite length_app, Hc. simpl. lia.
  - intros i step Hi. apply lookup_app_Some in Hi as [Hi|[Hlen Hi]]; [by apply Hn|].
    apply list_lookup_singleton_Some in Hi as [Hi <-].
    simpl. rewrite Hc. lia.
  - apply Forall_app. split; [done|]. constructor; [|constructor].
    simpl. by rewrite decide_False.
  - rewrite dom_insert_L, Hd, fmap_app, list_to_set_app_L. simpl. set_solver.
  - intros id out Hid. destruct (decide (id = currentNodeID st)) as [->|Hne].
    + rewrite lookup_insert_eq in Hid. inversion Hid; subst.
      exists (stepOf st n' out). split; [|done]. apply elem_of_app. right. by left.
    + rewrite lookup_insert_ne in Hid by done.
      destruct (Hr id out Hid) as (step & Hin & Hid' & Hout).
      exists step. split; [|done]. apply elem_of_app. by left.
Qed.

Lemma consistent_after k st w st' w' :
  consistent st -> after k st w = Some (st', w') -> consistent st'.
Proof.
  revert st' w'. induction k as [|k IH]; intros st' w' Hc Ha.
  - by inversion Ha; subst.
  - apply after_S in Ha as (st1 & w1 & Ha & Hit).
    eapply consistent_Next; [|exact Hit]. by eapply IH.
Qed.

Lemma consistent_initial (nodes0 : gmap string N) exec0 start :
  WorkflowExecution.Steps exec0 = [] ->
  consistent (mkLoop nodes0 ∅ exec0 start 1).
Proof.
  intros H. split; simpl; rewrite ?H; done.
Qed.

Lemma finish_fields exec status w exec' w' :
  finish env exec status w = (exec', w') ->
  WorkflowExecution.Status exec' = status ∧
  WorkflowExecution.Steps exec' = WorkflowExecution.Steps exec ∧
  WorkflowExecution.ID exec' = WorkflowExecution.ID exec ∧
  WorkflowExecution.WorkflowID exec' = WorkflowExecution.WorkflowID exec ∧
  WorkflowExecution.StartTime exec' = WorkflowExecution.StartTime exec ∧
  WorkflowExecution.Metadata exec' = WorkflowExecution.Metadata exec ∧
  requests w' = requests w.
Proof. intros H. inversion H; subst. done. Qed.

(** What a returned record looks like, in terms of the state in which the
    last pass started. *)
Lemma loop_Ok_inv fuel st0 w exec w' :
  loop fuel st0 w = (Some (Ok exec), w') ->
  consistent st0 ->
  ∃ st n' outputs (err : option error),
    consistent st ∧
    (∃ n w1 w2, nodes st !! currentNodeID st = Some n ∧
       node.Execute env n (mkInputs input ∅ (priorOutputs st)) w1
         = (n', outputs, err, w2)) ∧
    WorkflowExecution.Steps exec =
      (WorkflowExecution.Steps (execution st) ++ [stepOf st n' outputs])%list ∧
    WorkflowExecution.WorkflowID exec = WorkflowExecution.WorkflowID (execution st0) ∧
    WorkflowExecution.Metadata exec = WorkflowExecution.Metadata (execution st0) ∧
    WorkflowExecution.ID exec = WorkflowExecution.ID (execution st0) ∧
    WorkflowExecution.StartTime exec = WorkflowExecution.StartTime (execution st0) ∧
    ((WorkflowExecution.Status exec = StatusFailed ∧
      (is_Some err ∨ Status outputs = StatusFailed)) ∨
     (WorkflowExecution.Status exec = StatusCompleted ∧
      err = None ∧ Status outputs ≠ StatusFailed ∧ Type_ n' = NodeTypeEnd)).
Proof.
  intros Hloop Hcons0.
  apply loop_Some in Hloop as (k & st & w1 & _ & Ha & Hit).
  pose proof (consistent_after k _ _ _ _ Hcons0 Ha) as Hcons.
  assert (Hkeep : WorkflowExecution.WorkflowID (execution st) =
                    WorkflowExecution.WorkflowID (execution st0) ∧
            WorkflowExecution.Metadata (execution st) =
              WorkflowExecution.Metadata (execution st0) ∧
            WorkflowExecution.ID (execution st) = WorkflowExecution.ID (execution st0) ∧
            WorkflowExecution.StartTime (execution st) =
              WorkflowExecution.StartTime (execution st0)).
  { clear Hit Hcons. revert st w1 Ha. induction k as [|k IH]; intros st w1 Ha.
    - by inversion Ha; subst.
    - apply after_S in Ha as (st1 & w2 & Ha & Hit).
      destruct (IH _ _ Ha) as (H1 & H2 & H3 & H4).
      apply iteration_inv in Hit as [(_ & _ & ?)|(n & n' & outputs & err & w3 & _ & _ & Hcase)];
        [done|].
      destruct Hcase as [(_ & exec1 & ? & _)|[(_ & _ & _ & exec1 & ? & _)|
        [(_ & _ & _ & _ & e & _ & ?)|(_ & _ & _ & _ & next & _ & Heq)]]]; try done.
      by inversion Heq; subst st. }
  destruct Hkeep as (Hid & Hmeta & Huuid & Hstart).
  apply iteration_inv in Hit as [(_ & _ & ?)|(n & n' & outputs & err & w2 & Hn & Hx & Hcase)];
    [done|].
  destruct Hcase as [(Hfail & exec1 & Heq & Hfin)|[(-> & Hst & Hty & exec1 & Heq & Hfin)|
    [(_ & _ & _ & _ & e & _ & ?)|(_ & _ & _ & _ & next & _ & ?)]]]; try done.
  - inversion Heq; subst exec1. symmetry in Hfin.
    apply finish_fields in Hfin as (Hs & Hsteps & Hu & Hwid & Hst' & Hm & _).
    exists st, n', outputs, err. split; [done|].
    split; [by exists n, w1, w2|].
    rewrite Hsteps, Hwid, Hm, Hu, Hst'. simpl.
    repeat (split; [done|]). left. done.
  - inversion Heq; subst exec1. symmetry in Hfin.
    apply finish_fields in Hfin as (Hs & Hsteps & Hu & Hwid & Hst' & Hm & _).
    exists st, n', outputs, None. split; [done|].
    split; [by exists n, w1, w2|].
    rewrite Hsteps, Hwid, Hm, Hu, Hst'. simpl.
    repeat (split; [done|]). right. done.
Qed.

End RunFacts.

Section RunTheorems.
Import models node props execution run_props.
Context {N : Type} `{!Node N} `{!ConditionCast N}.
Context (env : Env) (registry : Registry N).

Lemma newExecution_fields workflow input w exec0 w0 :
  newExecution env workflow input w = (exec0, w0) ->
  WorkflowExecution.Steps exec0 = [] ∧
  WorkflowExecution.WorkflowID exec0 = Workflow.ID workflow ∧
  WorkflowExecution.Metadata exec0 =
    <[ "workflowVersion" := VInt (Workflow.Version workflow) ]>
    {[ "triggeredBy" := VString (WorkflowInput.Name input) ]} ∧
  WorkflowExecution.ID exec0 = env_uuid env (draws w) ∧
  WorkflowExecution.StartTime exec0 = env_RFC3339 env (env_Now env (clock w)).
Proof.
  unfold newExecution, mbind, M_bind, Now, NewUUID, mret, M_ret. intros H.
  by inversion H.
Qed.

Lemma Execute_Ok_inv fuel workflow input w exec w' :
  execution.Execute env registry fuel workflow input w = (Some (Ok exec), w') ->
  ∃ st (n' : N) outputs (err : option error),
    consistent st ∧
    (∃ n w1 w2, nodes st !! currentNodeID st = Some n ∧
       node.Execute env n (mkInputs input ∅ (priorOutputs st)) w1
         = (n', outputs, err, w2)) ∧
    WorkflowExecution.Steps exec =
      (WorkflowExecution.Steps (execution st) ++
       [props.stepOf env st n' outputs])%list ∧
    WorkflowExecution.WorkflowID exec = Workflow.ID workflow ∧
    WorkflowExecution.Metadata exec =
      <[ "workflowVersion" := VInt (Workflow.Version workflow) ]>
      {[ "triggeredBy" := VString (WorkflowInput.Name input) ]} ∧
    WorkflowExecution.ID exec = env_uuid env (draws w) ∧
    WorkflowExecution.StartTime exec = env_RFC3339 env (env_Now env (clock w)) ∧
    ((WorkflowExecution.Status exec = StatusFailed ∧
      (is_Some err ∨ Status outputs = StatusFailed)) ∨
     (WorkflowExecution.Status exec = StatusCompleted ∧
      err = None ∧ Status outputs ≠ StatusFailed ∧ Type_ n' = NodeTypeEnd)).
Proof.
  unfold execution.Execute. unfold mbind at 1, M_bind at 1.
  destruct (newExecution env workflow input w) as [exec0 w0] eqn:Hnew.
  apply newExecution_fields in Hnew as (Hsteps0 & Hid0 & Hmeta0 & Hu0 & Hs0).
  destruct (initializeWorkflow registry workflow) as [[[nodes0 edges0] start]|e|p];
    [|discriminate..].
  intros Hloop.
  apply loop_Ok_inv in Hloop
    as (st & n' & outputs & err & Hc & Hrun & Hsteps & Hid & Hm & Hu & Hs & Hcase);
    [|by apply consistent_initial].
  simpl in *. exists st, n', outputs, err.
  rewrite Hid, Hm, Hu, Hs. done.
Qed.

(** X17: in a record Execute returns, the steps carry the numbers 1, 2,
    ... in order, there is at least one step, every step but the last has
    status Completed, and the record keeps the workflow id, the generated
    id and the metadata (workflow version and the name of the input) set
    up before the first node ran. *)
Theorem Execute_steps_numbered fuel workflow input w exec w' :
  execution.Execute env registry fuel workflow input w = (Some (Ok exec), w') ->
  WorkflowExecution.Steps exec ≠ [] ∧
  (∀ i step, WorkflowExecution.Steps exec !! i = Some step ->
     ExecutionStep.StepNumber step = (Z.of_nat i + 1)%Z ∧
     (S i < length (WorkflowExecution.Steps exec) ->
      ExecutionStep.Status step = StatusCompleted)%nat) ∧
  WorkflowExecution.WorkflowID exec = Workflow.ID workflow ∧
  WorkflowExecution.ID exec = env_uuid env (draws w) ∧
  WorkflowExecution.Metadata exec =
    <[ "workflowVersion" := VInt (Workflow.Version workflow) ]>
    {[ "triggeredBy" := VString (WorkflowInput.Name input) ]}.
Proof.
  intros H. apply Execute_Ok_inv in H
    as (st & n' & outputs & err & [Hc Hn Hs _ _] & _ & Hsteps & Hid & Hm & Hu & _ & _).
  rewrite Hsteps. split; [by destruct (WorkflowExecution.Steps (execution st))|].
  split; [|done].
  intros i step Hi. apply lookup_app_Some in Hi as [Hi|[Hlen Hi]].
  - split; [by apply Hn|]. intros _.
    by apply (proj1 (Forall_lookup _ _) Hs i step).
  - apply list_lookup_singleton_Some in Hi as [Hi <-]. split.
    + simpl. rewrite Hc. lia.
    + rewrite length_app. simpl. lia.
Qed.

(** X18: a record Execute returns has status Completed or Failed, never
    Running; when it is Completed, its last step is that of a node of type
    "end" and every step has status Completed. *)
Theorem Execute_completed_at_end_node fuel workflow input w exec w' :
  execution.Execute env registry fuel workflow input w = (Some (Ok exec), w') ->
  (WorkflowExecution.Status exec = StatusCompleted ∨
   WorkflowExecution.Status exec = StatusFailed) ∧
  (WorkflowExecution.Status exec = StatusCompleted ->
   (∃ step, last_step exec = Some step ∧
            ExecutionStep.NodeType step = NodeTypeEnd) ∧
   Forall (fun step => ExecutionStep.Status step = StatusCompleted)
          (WorkflowExecution.Steps exec)).
Proof.
  intros H. apply Execute_Ok_inv in H
    as (st & n' & outputs & err & [Hc Hn Hs _ _] & _ & Hsteps & _ & _ & _ & _ & Hcase).
  split; [destruct Hcase as [[? _]|[? _]]; [by right|by left]|].
  intros Hdone. destruct Hcase as [[Hf _]|(_ & -> & Hst & Hty)].
  { rewrite Hdone in Hf. discriminate. }
  unfold last_step. rewrite Hsteps, last_snoc. split; [by eexists|].
  apply Forall_app. split; [done|]. constructor; [|constructor].
  simpl. by rewrite decide_False.
Qed.

(** X19: after k passes of the loop, k steps are recorded, the prior
    outputs handed to the next node are stored under exactly the node ids
    of those steps, and each of them is the output of a recorded step of
    that node. *)
Theorem prior_outputs_of_steps input edges k workflow w nodes0 startNodeID
    execution0 w0 st w1 :
  initializeWorkflow registry workflow = Ok (nodes0, edges, startNodeID) ->
  newExecution env workflow input w = (execution0, w0) ->
  props.after env input edges k (mkLoop nodes0 ∅ execution0 startNodeID 1) w0
    = Some (st, w1) ->
  length (WorkflowExecution.Steps (execution st)) = k ∧
  dom (priorOutputs st) =
    list_to_set (ExecutionStep.NodeID <$> WorkflowExecution.Steps (execution st)) ∧
  (∀ id outputs, priorOutputs st !! id = Some outputs ->
     ∃ step, step ∈ WorkflowExecution.Steps (execution st) ∧
             ExecutionStep.NodeID step = id ∧
             ExecutionStep.Output step = Data outputs).
Proof.
  intros _ Hnew Ha. apply newExecution_fields in Hnew as (Hsteps0 & _).
  pose proof (consistent_after env input edges k _ _ _ _
                (consistent_initial nodes0 execution0 startNodeID Hsteps0) Ha)
    as [Hc _ _ Hd Hr].
  split; [|done].
  assert (Hk : stepNumber st = (Z.of_nat k + 1)%Z).
  { clear Hc Hd Hr. revert st w1 Ha. induction k as [|k IH]; intros st w1 Ha.
    - by inversion Ha; subst.
    - apply after_S in Ha as (st1 & w2 & Ha & Hit). specialize (IH _ _ Ha).
      apply iteration_inv in Hit
        as [(_ & _ & ?)|(n & n' & outputs & err & w3 & _ & _ & Hcase)]; [done|].
      destruct Hcase as [(_ & exec1 & ? & _)|[(_ & _ & _ & exec1 & ? & _)|
        [(_ & _ & _ & _ & e & _ & ?)|(_ & _ & _ & _ & next & _ & Heq)]]]; try done.
      inversion Heq; subst st. simpl. lia. }
  lia.
Qed.

End RunTheorems.

(** ** initializeWorkflow *)
Section Initialize.
Import models node props execution run_props.
Context {N : Type} `{!Node N} `{!ConditionCast N}.
Context (env : Env) (registry : Registry N).

Lemma addEdge_route (acc : gmap string (gmap string string) * gmap string N) e s k :
  route (addEdge acc e).1 s k =
    if decide (Edge.Source e = s ∧ Edge.SourceHandle e = k)
    then Some (Edge.Target e) else route acc.1 s k.
Proof.
  destruct acc as [edges nodes]. unfold addEdge, route. simpl.
  destruct (decide (Edge.Source e = s)) as [<-|Hs].
  - rewrite lookup_insert_eq. simpl.
    destruct (decide (Edge.SourceHandle e = k)) as [<-|Hk].
    + rewrite lookup_insert_eq. by rewrite decide_True.
    + rewrite lookup_insert_ne by done. rewrite decide_False by naive_solver.
      by destruct (edges !! Edge.Source e).
  - rewrite lookup_insert_ne by done. by rewrite decide_False by naive_solver.
Qed.

Lemma lastTarget_snoc l e s k :
  lastTarget (l ++ [e]) s k =
    if decide (Edge.Source e = s ∧ Edge.SourceHandle e = k)
    then Some (Edge.Target e) else lastTarget l s k.
Proof.
  unfold lastTarget. rewrite filter_app, filter_cons, filter_nil.
  case_decide.
  - by rewrite last_snoc.
  - by rewrite app_nil_r.
Qed.

Lemma addEdges_route l (acc : gmap string (gmap string string) * gmap string N) s k :
  route (foldl addEdge acc l).1 s k =
    match lastTarget l s k with
    | Some t => Some t
    | None => route acc.1 s k
    end.
Proof.
  induction l as [|e l IH] using rev_ind; [done|].
  rewrite foldl_app. simpl. rewrite addEdge_route, lastTarget_snoc.
  case_decide; [done|]. apply IH.
Qed.

Lemma initializeWorkflow_inv workflow nodes edges start :
  initializeWorkflow registry workflow = Ok (nodes, edges, start) ->
  ∃ nodes1, createNodes registry (Workflow.Nodes workflow) ∅ "" = Ok (nodes1, start) ∧
            start ≠ "" ∧
            foldl addEdge (∅, nodes1) (Workflow.Edges workflow) = (edges, nodes).
Proof.
  unfold initializeWorkflow. intros H.
  destruct (createNodes registry _ ∅ "") as [[nodes1 start1]|e|p] eqn:Hc; [|done..].
  case_decide as Hs; [done|].
  destruct (foldl addEdge _ _) as [edges1 nodes2] eqn:Hf. inversion H; subst.
  exists nodes1. by rewrite Hf.
Qed.

(** X20: the routing table initializeWorkflow builds maps a source and a
    source handle to the target of the last edge of the workflow with that
    source and handle; earlier edges with the same pair are overwritten. *)
Theorem initializeWorkflow_last_edge_wins workflow nodes edges start :
  initializeWorkflow registry workflow = Ok (nodes, edges, start) ->
  ∀ source routeKey,
    route edges source routeKey = lastTarget (Workflow.Edges workflow) source routeKey.
Proof.
  intros H source routeKey.
  apply initializeWorkflow_inv in H as (nodes1 & _ & _ & Hfold).
  pose proof (addEdges_route (Workflow.Edges workflow) (∅, nodes1) source routeKey) as Hr.
  rewrite Hfold in Hr. simpl in Hr. rewrite Hr.
  destruct (lastTarget _ _ _); [done|]. unfold route. by rewrite lookup_empty.
Qed.

Lemma createNodes_Err models0 (nodes0 : gmap string N) start0 e :
  createNodes registry models0 nodes0 start0 = Err e ->
  ∃ pre m post err, models0 = (pre ++ m :: post)%list ∧
    Forall (fun x => ∃ n, Create registry x = Ok n) pre ∧
    Create registry m = Err err ∧ e = creation_error m err.
Proof.
  revert nodes0 start0. induction models0 as [|m rest IH]; intros nodes0 start0 H;
    [done|].
  simpl in H. destruct (Create registry m) as [n|err|p] eqn:Hc; [| |done].
  - apply IH in H as (pre & m' & post & err & -> & Hpre & Hm & ->).
    exists (m :: pre), m', post, err. split; [done|]. split; [|done].
    constructor; [by eexists|done].
  - inversion H; subst. exists [], m, rest, err. by repeat split.
Qed.

Lemma createNodes_first_failure pre m post err (nodes0 : gmap string N) start0 :
  Forall (fun x => ∃ n, Create registry x = Ok n) pre ->
  Create registry m = Err err ->
  createNodes registry (pre ++ m :: post) nodes0 start0 = Err (creation_error m err).
Proof.
  intros Hpre Hm. revert nodes0 start0.
  induction Hpre as [|x pre [n Hx] _ IH]; intros nodes0 start0; simpl.
  - by rewrite Hm.
  - rewrite Hx. apply IH.
Qed.

(** X21: when the registry cannot create one of the nodes, Execute
    returns, for the first such node, the error
    "failed to create node <id>: <cause>" wrapping the cause, without
    executing any node: it has read the clock once and drawn the execution
    id, and nothing else. *)
Theorem Execute_creation_failure fuel workflow input w pre m post err :
  Workflow.Nodes workflow = (pre ++ m :: post)%list ->
  Forall (fun x => ∃ n, Create registry x = Ok n) pre ->
  Create registry m = Err err ->
  execution.Execute env registry fuel workflow input w =
    (Some (Err (creation_error m err)),
     mkWorld (S (clock w)) (S (draws w)) (requests w)) ∧
  errors_Is (creation_error m err) err = true.
Proof.
  intros Hnodes Hpre Hm. split.
  - unfold execution.Execute, initializeWorkflow. rewrite Hnodes.
    rewrite (createNodes_first_failure pre m post err ∅ "" Hpre Hm).
    reflexivity.
  - unfold creation_error. simpl. apply orb_true_iff. right.
    destruct err; simpl; by rewrite bool_decide_eq_true_2.
Qed.

Lemma createNodes_start models0 (nodes0 : gmap string N) start0 nodes1 start1 :
  createNodes registry models0 nodes0 start0 = Ok (nodes1, start1) ->
  (∀ m n, m ∈ models0 -> Create registry m = Ok n -> Type_ n = NodeTypeStart ->
          Node.ID m = "") ->
  start0 = "" -> start1 = "".
Proof.
  revert nodes0 start0. induction models0 as [|m rest IH]; intros nodes0 start0 H Hno Hs.
  - by inversion H; subst.
  - simpl in H. destruct (Create registry m) as [n|err|p] eqn:Hc; [|done..].
    apply IH in H; [done| |].
    + intros m' n' Hin. apply Hno. by right.
    + case_decide; [|done]. apply (Hno m n); [by left|done..].
Qed.

(** X22: when every node can be created and none of them is a start node
    with a non-empty id (an empty workflow included), Execute returns the
    error "no start node found in workflow" without executing any node. *)
Theorem Execute_no_start_node fuel workflow input w :
  (∀ m, m ∈ Workflow.Nodes workflow ->
        ∃ n, Create registry m = Ok n ∧ (Type_ n = NodeTypeStart -> Node.ID m = "")) ->
  execution.Execute env registry fuel workflow input w =
    (Some (Err (errors_New "no start node found in workflow")),
     mkWorld (S (clock w)) (S (draws w)) (requests w)).
Proof.
  intros Hall. unfold execution.Execute, initializeWorkflow.
  destruct (createNodes registry (Workflow.Nodes workflow) ∅ "")
    as [[nodes1 start1]|e|p] eqn:Hc.
  - apply createNodes_start in Hc; [|..|done].
    + subst. by rewrite decide_True.
    + intros m n Hin Hm Hty. destruct (Hall m Hin) as (n' & Hm' & Himp).
      rewrite Hm in Hm'. inversion Hm'; subst. by apply Himp.
  - apply createNodes_Err in Hc as (pre & m & post & err & Hnodes & _ & Hm & _).
    destruct (Hall m) as (n & Hn & _); [rewrite Hnodes; set_solver|]. congruence.
  - exfalso. clear fuel input w. revert Hc. generalize (∅ : gmap string N), "".
    induction (Workflow.Nodes workflow) as [|m rest IH]; intros nodes0 start0 Hc; [done|].
    simpl in Hc. destruct (Hall m) as (n & Hn & _); [by left|]. rewrite Hn in Hc.
    eapply IH; [|exact Hc]. intros m' Hin. apply Hall. by right.
Qed.

End Initialize.

(** ** Runs with the registered node types *)
Section Registered.
Import models node props execution run_props workflow.

Lemma addEdge_condition (acc : gmap string (gmap string string) * gmap string main.Builtin)
    e id c' :
  (addEdge acc e).2 !! id = Some (main.Condition c') ->
  ∃ c, acc.2 !! id = Some (main.Condition c) ∧
       c' = if decide (Edge.Source e = id ∧ Edge.SourceHandle e = "true")
            then condition.SetTrueRoute c (Edge.Target e)
            else if decide (Edge.Source e = id ∧ Edge.SourceHandle e = "false")
            then condition.SetFalseRoute c (Edge.Target e)
            else c.
Proof.
  destruct acc as [edges nodes]. unfold addEdge. simpl.
  destruct (decide (Edge.SourceHandle e = "true" ∨ Edge.SourceHandle e = "false"))
    as [Hh|Hh].
  - destruct (nodes !! Edge.Source e) as [n|] eqn:Hn.
    + destruct n as [s|f|i|c|m|z]; simpl;
        try (intros H; exists c'; split; [done|];
             rewrite !decide_False; [done|intros [<- _]; congruence..]).
      destruct (decide (Edge.Source e = id)) as [<-|Hne].
      * rewrite lookup_insert_eq. intros [= <-]. exists c. split; [done|].
        destruct (decide (Edge.SourceHandle e = "true")) as [Ht|Ht].
        -- by rewrite decide_True.
        -- rewrite decide_False by naive_solver.
           rewrite decide_True by naive_solver. done.
      * rewrite lookup_insert_ne by done. intros H. exists c'. split; [done|].
        rewrite !decide_False by naive_solver. done.
    + intros H. exists c'. split; [done|].
      rewrite !decide_False; [done|intros [<- _]; congruence..].
  - intros H. exists c'. split; [done|].
    rewrite !decide_False by naive_solver. done.
Qed.

Lemma addEdge_routes_agree acc e : routes_agree acc -> routes_agree (addEdge acc e).
Proof.
  intros Hinv id c' Hc'. apply addEdge_condition in Hc' as (c & Hc & ->).
  destruct (Hinv id c Hc) as [Ht Hf]. rewrite !addEdge_route.
  destruct (decide (Edge.Source e = id ∧ Edge.SourceHandle e = "true")) as [[Hs Hh]|Hno].
  - simpl. split; [done|]. rewrite decide_False; [done|]. rewrite Hh. naive_solver.
  - destruct (decide (Edge.Source e = id ∧ Edge.SourceHandle e = "false")); by simpl.
Qed.

Lemma addEdges_routes_agree l acc : routes_agree acc -> routes_agree (foldl addEdge acc l).
Proof.
  revert acc. induction l as [|e l IH]; intros acc H; [done|].
  simpl. apply IH. by apply addEdge_routes_agree.
Qed.

Lemma createNodes_conditions models0 (nodes0 : gmap string main.Builtin) start0
    nodes1 start1 :
  createNodes main.nodeRegistry models0 nodes0 start0 = Ok (nodes1, start1) ->
  (∀ id c, nodes0 !! id = Some (main.Condition c) ->
     condition.TrueRoute (condition.config c) = "" ∧
     condition.FalseRoute (condition.config c) = "") ->
  (∀ id c, nodes1 !! id = Some (main.Condition c) ->
     condition.TrueRoute (condition.config c) = "" ∧
     condition.FalseRoute (condition.config c) = "").
Proof.
  revert nodes0 start0. induction models0 as [|m rest IH]; intros nodes0 start0 H Hinv.
  - by inversion H; subst.
  - simpl in H. destruct (Create main.nodeRegistry m) as [n|err|p] eqn:Hc; [|done..].
    eapply IH; [exact H|]. intros id c Hid.
    destruct (decide (Node.ID m = id)) as [<-|Hne].
    + rewrite lookup_insert_eq in Hid. inversion Hid; subst.
      by apply (proj2 (Create_nodeRegistry_inv m _ Hc)).
    + rewrite lookup_insert_ne in Hid by done. by eapply Hinv.
Qed.

Lemma createNodes_dom_eq {N} `{!Node N} (registry : Registry N) models0
    (nodes0 : gmap string N) start0 nodes1 start1 :
  createNodes registry models0 nodes0 start0 = Ok (nodes1, start1) ->
  dom nodes1 = list_to_set (ids models0) ∪ dom nodes0.
Proof.
  revert nodes0 start0. induction models0 as [|m rest IH]; intros nodes0 start0 H.
  - inversion H; subst. simpl. set_solver.
  - simpl in H. destruct (Create registry m) as [n|err|p]; [|done..].
    apply IH in H. rewrite H, dom_insert_L. simpl. set_solver.
Qed.

Lemma addEdges_dom_eq {N} `{!Node N} `{!ConditionCast N} l
    (acc : gmap string (gmap string string) * gmap string N) :
  dom (foldl addEdge acc l).2 = dom acc.2.
Proof.
  revert acc. induction l as [|e l IH]; intros acc; [done|].
  simpl. rewrite IH. destruct acc as [edges nodes]. unfold addEdge. simpl.
  repeat case_match; try done; rewrite dom_insert_L;
    assert (Edge.Source e ∈ dom nodes) by (apply elem_of_dom; by eexists); set_solver.
Qed.

(** What initializeWorkflow builds with the registered node types. *)
Lemma initialized_routes workflow nodes edges start :
  initializeWorkflow main.nodeRegistry workflow = Ok (nodes, edges, start) ->
  routes_agree (edges, nodes) ∧
  ∀ s k, route edges s k = lastTarget (Workflow.Edges workflow) s k.
Proof.
  intros Hinit.
  apply initializeWorkflow_inv in Hinit as (nodes1 & Hcreate & _ & Hfold).
  split.
  - rewrite <- Hfold. apply addEdges_routes_agree. intros id0 c0 Hid0. simpl in *.
    unfold route. rewrite lookup_empty. simpl.
    eapply createNodes_conditions; [exact Hcreate| |exact Hid0].
    intros id1 c1 H1. by rewrite lookup_empty in H1.
  - intros s k.
    pose proof (addEdges_route (Workflow.Edges workflow) (∅, nodes1) s k) as Hr.
    rewrite Hfold in Hr. cbn [fst] in Hr. rewrite Hr.
    destruct (lastTarget (Workflow.Edges workflow) s k); [done|].
    unfold route. by rewrite lookup_empty.
Qed.

(** X23: after initializeWorkflow with the registered node types, the
    true route of a condition node is the target of the last edge leaving
    it by the handle "true", and empty when there is none; likewise the
    false route and the handle "false". *)
Theorem initializeWorkflow_condition_routes workflow nodes edges start id c :
  initializeWorkflow main.nodeRegistry workflow = Ok (nodes, edges, start) ->
  nodes !! id = Some (main.Condition c) ->
  condition.TrueRoute (condition.config c) =
    default "" (lastTarget (Workflow.Edges workflow) id "true") ∧
  condition.FalseRoute (condition.config c) =
    default "" (lastTarget (Workflow.Edges workflow) id "false").
Proof.
  intros Hinit Hc.
  apply initializeWorkflow_inv in Hinit as (nodes1 & Hcreate & _ & Hfold).
  assert (Hagree : routes_agree (foldl addEdge (∅, nodes1) (Workflow.Edges workflow))).
  { apply addEdges_routes_agree. intros id0 c0 Hid0. simpl in *.
    unfold route. rewrite lookup_empty. simpl.
    eapply createNodes_conditions; [exact Hcreate| |exact Hid0].
    intros id1 c1 H1. by rewrite lookup_empty in H1. }
  pose proof (addEdges_route (Workflow.Edges workflow) (∅, nodes1) id "true") as Ht.
  pose proof (addEdges_route (Workflow.Edges workflow) (∅, nodes1) id "false") as Hf.
  rewrite Hfold in Hagree, Ht, Hf. destruct (Hagree id c Hc) as [-> ->].
  simpl in *. rewrite Ht, Hf. unfold route. rewrite lookup_empty. simpl.
  by destruct (lastTarget _ id "true"), (lastTarget _ id "false").
Qed.

End Registered.

Section ValidatedRuns.
Import models node props execution run_props workflow.

Lemma validated_shape nodes edges :
  validateWorkflowStructure nodes edges = None -> accepted_shape nodes edges.
Proof.
  intros H.
  destruct (validate_cases nodes edges)
    as [(Hnil & Hv)
       |[(Hne & Hbad & err0 & s0 & Hv & Hs0 & His0 & Hviol0)
       |[(Hne & Hok & Hnostart & Hv)
       |[(Hne & Hok & Hstart & Hnoend & Hv)
       |[(Hne & Hok & Hend & Hpos & Hv)
       |[(Hne & Hok & Hfirst & Hend & Hlast & Hv)
       |(Hne & Hok & Hfirst & Hlast & Hv)]]]]]];
    rewrite Hv in H; try discriminate.
  apply edges_checked in H. done.
Qed.

Lemma lastTarget_elem l s k t :
  lastTarget l s k = Some t ->
  ∃ e, e ∈ l ∧ Edge.Source e = s ∧ Edge.SourceHandle e = k ∧ Edge.Target e = t.
Proof.
  unfold lastTarget. intros H. apply fmap_Some in H as (e & Hl & ->).
  apply last_Some_elem_of in Hl. apply list_elem_of_filter in Hl as [[? ?] ?].
  by exists e.
Qed.

(** The start node id createNodes settles on, when nodes report the type
    of their model. *)
Lemma createNodes_start_last {N} `{!Node N} (registry : Registry N) models0
    (nodes0 : gmap string N) start0 nodes1 start1 :
  (∀ m n, Create registry m = Ok n -> Type_ n = Node.Type_ m) ->
  createNodes registry models0 nodes0 start0 = Ok (nodes1, start1) ->
  start1 = match last (filter (fun m => Node.Type_ m = NodeTypeStart) models0) with
           | Some m => Node.ID m
           | None => start0
           end.
Proof.
  intros Hty. revert nodes0 start0.
  induction models0 as [|m rest IH]; intros nodes0 start0 H.
  - by inversion H; subst.
  - simpl in H. destruct (Create registry m) as [n|err|p] eqn:Hc; [|done..].
    apply IH in H. rewrite H, filter_cons. rewrite (Hty m n Hc).
    destruct (decide (Node.Type_ m = NodeTypeStart)); [|done].
    destruct (filter _ rest) as [|m' l] eqn:Hf; [done|].
    rewrite last_cons_cons. destruct (last (m' :: l)) eqn:Hl; [done|].
    by apply last_None in Hl.
Qed.

Lemma start_first_only_filter nodes :
  nodes ≠ [] -> start_first_only nodes ->
  ∃ first rest, nodes = first :: rest ∧
    filter (fun m => Node.Type_ m = NodeTypeStart) nodes = [first].
Proof.
  intros Hne Hfirst. destruct nodes as [|first rest]; [done|].
  exists first, rest. split; [done|].
  rewrite filter_cons, decide_True by (by apply (Hfirst 0%nat first)).
  f_equal. destruct (filter _ rest) as [|m l] eqn:Hf; [done|].
  assert (Hin : m ∈ filter (fun m => Node.Type_ m = NodeTypeStart) rest)
    by (rewrite Hf; by left).
  apply list_elem_of_filter in Hin as [Hty Hin].
  apply list_elem_of_lookup in Hin as [i Hi].
  by apply (Hfirst (S i) m Hi) in Hty.
Qed.

(** Only a condition node names the next node, and Execute leaves the
    routes of a condition node as they are. *)
Lemma Builtin_Execute_next env (b : main.Builtin) inputs w b' outputs err w' :
  node.Execute env b inputs w = (b', outputs, err, w') ->
  (∀ c', b' = main.Condition c' -> b = main.Condition c') ∧
  (NextNodeID outputs ≠ "" ->
   ∃ c, b = main.Condition c ∧
        (NextNodeID outputs = condition.TrueRoute (condition.config c) ∨
         NextNodeID outputs = condition.FalseRoute (condition.config c))).
Proof.
  destruct b as [s|f|i|c|e|z]; simpl; unfold main.lift, mbind, M_bind.
  - intros [= <- <- <- <-]. by split.
  - unfold form.Execute, mbind, M_bind, mret, M_ret, NowRFC3339, Now. simpl.
    intros [= <- <- <- <-]. by split.
  - destruct (integration.Execute env i inputs w) as [[[n' o] er] w2] eqn:Hx.
    intros [= <- <- <- <-]. split; [done|].
    revert Hx. unfold integration.Execute, integration.fail, weather.GetWeather.
    unfold mbind, M_bind, mret, M_ret, NowRFC3339, Now, Do. simpl.
    repeat case_match; intros; simplify_eq/=; done.
  - destruct (condition.Execute env c inputs w) as [[[n' o] er] w2] eqn:Hx.
    intros [= <- <- <- <-].
    revert Hx. unfold condition.Execute.
    unfold mbind, M_bind, mret, M_ret, NowRFC3339, Now. simpl.
    repeat case_match; intros; simplify_eq/=; (split; [by intros ? [= <-]|]);
      first [ done | by intros []
            | intros _; exists n'; split; [done|]; first [by left|by right] ].
  - destruct (email.Execute env e inputs w) as [[[n' o] er] w2] eqn:Hx.
    intros [= <- <- <- <-]. split; [done|].
    revert Hx. unfold email.Execute, email.fail, mailer.PrepareAndStubSendEmail,
      mailer.processTemplate.
    unfold mbind, M_bind, mret, M_ret, NowRFC3339, Now, RangeKeys. simpl.
    repeat case_match; intros; simplify_eq/=; done.
  - intros [= <- <- <- <-]. by split.
Qed.

Lemma findNextNode_inv (n : main.Builtin) id outputs edges next :
  findNextNode n id outputs edges = inr next ->
  (NextNodeID outputs ≠ "" ∧ next = NextNodeID outputs) ∨
  (∃ k, route edges id k = Some next).
Proof.
  unfold findNextNode. case_decide as Hnamed; [intros [= <-]; by left|].
  intros Hnext. right. repeat case_match; simplify_eq; by eexists.
Qed.

Lemma inside_Next env input edges st w st' w' :
  inside edges st ->
  iteration env input edges st w = (Next st', w') ->
  inside edges st'.
Proof.
  intros [Hcur Htab Hroutes] Hit.
  apply iteration_inv in Hit
    as [(_ & _ & ?)|(n & n' & outputs & err & w2 & Hn & Hx & Hcase)]; [done|].
  destruct Hcase as [(_ & exec & ? & _)|[(_ & _ & _ & exec & ? & _)|
    [(_ & _ & _ & _ & e & _ & ?)|(-> & Hst & Hty & -> & next & Hnext & Heq)]]];
    try done.
  inversion Heq; subst st'; clear Heq.
  apply Builtin_Execute_next in Hx as [Hkeep Hnamed].
  assert (Hdom : dom (<[currentNodeID st := n']> (nodes st)) = dom (nodes st)).
  { rewrite dom_insert_L. set_solver. }
  split; simpl; rewrite Hdom.
  - apply findNextNode_inv in Hnext as [[Hne ->]|[k Hk]]; [|by eapply Htab].
    destruct (Hnamed Hne) as (c & -> & Hc).
    destruct (Hroutes _ c Hn) as [Ht Hf].
    destruct Hc as [Hc|Hc]; rewrite Hc in *; naive_solver.
  - done.
  - intros id c Hid. destruct (decide (id = currentNodeID st)) as [->|Hne].
    + rewrite lookup_insert_eq in Hid. inversion Hid; subst.
      rewrite (Hkeep c eq_refl) in Hn. by eapply Hroutes.
    + rewrite lookup_insert_ne in Hid by done. by eapply Hroutes.
Qed.

Lemma inside_after env input edges k st w st' w' :
  inside edges st -> props.after env input edges k st w = Some (st', w') ->
  inside edges st'.
Proof.
  revert st' w'. induction k as [|k IH]; intros st' w' Hin Ha.
  - by inversion Ha; subst.
  - apply after_S in Ha as (st1 & w1 & Ha & Hit).
    eapply inside_Next; [|exact Hit]. by eapply IH.
Qed.

(** A validated workflow initialized with the registered node types. *)
Lemma validated_initialized workflow nodes0 edges0 start exec0 :
  validateWorkflowStructure (Workflow.Nodes workflow) (Workflow.Edges workflow) = None ->
  initializeWorkflow main.nodeRegistry workflow = Ok (nodes0, edges0, start) ->
  head (ids (Workflow.Nodes workflow)) = Some start ∧
  dom nodes0 = list_to_set (ids (Workflow.Nodes workflow)) ∧
  inside edges0 (mkLoop nodes0 ∅ exec0 start 1).
Proof.
  intros Hv Hinit.
  apply validated_shape in Hv as (Hne & Hfirst & _ & _ & [Hedges _]).
  pose proof Hinit as Hinit0.
  apply initializeWorkflow_inv in Hinit as (nodes1 & Hcreate & Hstart & Hfold).
  pose proof (createNodes_dom_eq _ _ _ _ _ _ Hcreate) as Hdom1.
  rewrite dom_empty_L, (right_id_L ∅ (∪)) in Hdom1.
  assert (Hdom : dom nodes0 = list_to_set (ids (Workflow.Nodes workflow))).
  { pose proof (addEdges_dom_eq (Workflow.Edges workflow) (∅, nodes1)) as Hd.
    rewrite Hfold in Hd. simpl in Hd. by rewrite Hd. }
  apply createNodes_start_last in Hcreate;
    [|intros m n Hc; by apply (proj1 (Create_nodeRegistry_inv m n Hc))].
  destruct (start_first_only_filter _ Hne Hfirst) as (first & rest & Hnodes & Hfilter).
  rewrite Hfilter in Hcreate. simpl in Hcreate. subst start.
  assert (Hhead : head (ids (Workflow.Nodes workflow)) = Some (Node.ID first))
    by by rewrite Hnodes.
  split; [done|]. split; [done|].
  assert (Htab : ∀ s k t, route edges0 s k = Some t -> t ∈ dom nodes0).
  { intros s k t Hr.
    pose proof (addEdges_route (Workflow.Edges workflow) (∅, nodes1) s k) as Ha.
    rewrite Hfold in Ha. simpl in Ha. rewrite Hr in Ha.
    destruct (lastTarget (Workflow.Edges workflow) s k) as [t'|] eqn:Hl.
    - inversion Ha; subst t'. apply lastTarget_elem in Hl as (e & Hin & _ & _ & <-).
      rewrite Hdom. apply elem_of_list_to_set.
      by apply (proj1 (Forall_forall _ _) Hedges e Hin).
    - unfold route in Ha. by rewrite lookup_empty in Ha. }
  split; simpl.
  - rewrite Hdom, Hnodes. set_solver.
  - done.
  - intros id c Hc.
    destruct (initialized_routes workflow nodes0 edges0 _ Hinit0) as [Hagree _].
    destruct (Hagree id c Hc) as [Ht Hf]. simpl in Ht, Hf.
    rewrite Ht, Hf. split.
    + destruct (route edges0 id "true") as [t|] eqn:Hl; [right|by left].
      by apply (Htab id "true").
    + destruct (route edges0 id "false") as [t|] eqn:Hl; [right|by left].
      by apply (Htab id "false").
Qed.

(** X24: for a workflow that passes validateWorkflowStructure, the
    traversal with the registered node types starts at the first node of
    the node list, and the engine holds a node for exactly the ids of the
    node list. *)
Theorem validated_workflow_starts_at_first_node workflow nodes edges start :
  validateWorkflowStructure (Workflow.Nodes workflow) (Workflow.Edges workflow) = None ->
  initializeWorkflow main.nodeRegistry workflow = Ok (nodes, edges, start) ->
  head (ids (Workflow.Nodes workflow)) = Some start ∧
  dom nodes = list_to_set (ids (Workflow.Nodes workflow)).
Proof.
  intros Hv Hinit.
  apply validated_shape in Hv as (Hne & Hfirst & _ & _ & _).
  apply initializeWorkflow_inv in Hinit as (nodes1 & Hcreate & Hstart & Hfold).
  split.
  - apply createNodes_start_last in Hcreate;
      [|intros m n Hc; by apply (proj1 (Create_nodeRegistry_inv m n Hc))].
    destruct (start_first_only_filter _ Hne Hfirst) as (first & rest & Hnodes & Hfilter).
    rewrite Hfilter in Hcreate. simpl in Hcreate. subst start. by rewrite Hnodes.
  - pose proof (createNodes_dom_eq _ _ _ _ _ _ Hcreate) as Hdom1.
    rewrite dom_empty_L, (right_id_L ∅ (∪)) in Hdom1.
    pose proof (addEdges_dom_eq (Workflow.Edges workflow) (∅, nodes1)) as Hd.
    rewrite Hfold in Hd. simpl in Hd. by rewrite Hd.
Qed.

(** X25: for a workflow that passes validateWorkflowStructure and the
    registered node types, the only errors Execute returns in place of a
    record are a node that cannot be created and
    "node <id> has no outgoing edges" for a node of the workflow; the
    errors "no start node found in workflow" and
    "node <id> not found in workflow" do not occur. *)
Theorem validated_workflow_errors env workflow input fuel w e w' :
  validateWorkflowStructure (Workflow.Nodes workflow) (Workflow.Edges workflow) = None ->
  execution.Execute env main.nodeRegistry fuel workflow input w = (Some (Err e), w') ->
  (∃ m err, m ∈ Workflow.Nodes workflow ∧ Create main.nodeRegistry m = Err err ∧
            e = creation_error m err) ∨
  (∃ id, id ∈ ids (Workflow.Nodes workflow) ∧
         e = errors_New ("node " +:+ id +:+ " has no outgoing edges")).
Proof.
  intros Hv. unfold execution.Execute. unfold mbind at 1, M_bind at 1.
  destruct (newExecution env workflow input w) as [exec0 w0].
  destruct (initializeWorkflow main.nodeRegistry workflow)
    as [[[nodes0 edges0] start]|e0|p] eqn:Hinit; [| |discriminate].
  - intros Hloop. right.
    destruct (validated_initialized workflow nodes0 edges0 start exec0 Hv Hinit)
      as (_ & Hdom & Hinside).
    apply loop_Some in Hloop as (k & st & w1 & _ & Ha & Hit).
    pose proof (inside_after _ _ _ _ _ _ _ _ Hinside Ha) as [Hcur _ _].
    eapply after_dom in Ha as [Hd _]. simpl in Hd.
    apply iteration_inv in Hit
      as [(Hnone & _ & _)|(n & n' & outputs & err & w2 & Hn & Hx & Hcase)].
    { apply elem_of_dom in Hcur as [n Hn]. congruence. }
    destruct Hcase as [(_ & exec & ? & _)|[(_ & _ & _ & exec & ? & _)|
      [(_ & _ & _ & _ & e1 & Hnext & Heq)|(_ & _ & _ & _ & next & _ & ?)]]];
      try done.
    inversion Heq; subst e1. exists (currentNodeID st). split.
    + rewrite Hd, Hdom in Hcur. by apply elem_of_list_to_set in Hcur.
    + unfold findNextNode in Hnext. repeat case_match; by simplify_eq.
  - intros [= -> <-]. left. unfold initializeWorkflow in Hinit.
    destruct (createNodes main.nodeRegistry (Workflow.Nodes workflow) ∅ "")
      as [[nodes1 start1]|e1|p] eqn:Hcreate; [| |discriminate].
    + exfalso. apply validated_shape in Hv as (Hne & Hfirst & _ & [Hfields _] & _).
      apply createNodes_start_last in Hcreate;
        [|intros m n Hc; by apply (proj1 (Create_nodeRegistry_inv m n Hc))].
      destruct (start_first_only_filter _ Hne Hfirst) as (first & rest & Hnodes & Hfilter).
      rewrite Hfilter in Hcreate. simpl in Hcreate. subst start1.
      rewrite Hnodes in Hfields. apply Forall_cons in Hfields as [[Hid _] _].
      rewrite decide_False in Hinit by done.
      by destruct (foldl addEdge _ _).
    + inversion Hinit; subst e1.
      apply createNodes_Err in Hcreate as (pre & m & post & err & Hnodes & _ & Hm & ->).
      exists m, err. split; [rewrite Hnodes; set_solver|done].
Qed.

(** A node of a registered type that fails says so in its status and
    leaves a text under "error"; start, form and end nodes do not fail. *)
Lemma Builtin_Execute_failure env (b : main.Builtin) inputs w b' outputs err w' :
  node.Execute env b inputs w = (b', outputs, err, w') ->
  is_Some err ∨ Status outputs = StatusFailed ->
  Status outputs = StatusFailed ∧
  (∃ text, Data outputs !! "error" = Some (VString text) ∧ text ≠ "") ∧
  (Type_ b' = NodeTypeIntegration ∨ Type_ b' = NodeTypeCondition ∨
   Type_ b' = NodeTypeEmail).
Proof.
  destruct b as [s|f|i|c|e|z]; simpl; unfold main.lift, mbind, M_bind.
  - intros [= <- <- <- <-] [[? [=]]|[=]].
  - unfold form.Execute, mbind, M_bind, mret, M_ret, NowRFC3339, Now. simpl.
    intros [= <- <- <- <-] [[? [=]]|[=]].
  - destruct (integration.Execute env i inputs w) as [[[n' o] er] w2] eqn:Hx.
    intros [= <- <- <- <-] Hf.
    revert Hx. unfold integration.Execute, integration.fail, weather.GetWeather.
    unfold mbind, M_bind, mret, M_ret, NowRFC3339, Now, Do. simpl.
    repeat case_match; intros; simplify_eq/=;
      try (destruct Hf as [[? [=]]|[=]]);
      (split; [done|]; split; [eexists; split; [reflexivity|done]|by left]).
  - destruct (condition.Execute env c inputs w) as [[[n' o] er] w2] eqn:Hx.
    intros [= <- <- <- <-] Hf.
    revert Hx. unfold condition.Execute.
    unfold mbind, M_bind, mret, M_ret, NowRFC3339, Now. simpl.
    repeat case_match; intros; simplify_eq/=;
      try (destruct Hf as [[? [=]]|[=]]);
      (split; [done|]; split; [eexists; split; [reflexivity|done]|right; by left]).
  - destruct (email.Execute env e inputs w) as [[[n' o] er] w2] eqn:Hx.
    intros [= <- <- <- <-] Hf.
    revert Hx. unfold email.Execute, email.fail, mailer.PrepareAndStubSendEmail,
      mailer.processTemplate.
    unfold mbind, M_bind, mret, M_ret, NowRFC3339, Now, RangeKeys. simpl.
    repeat case_match; intros; simplify_eq/=;
      try (destruct Hf as [[? [=]]|[=]]);
      (split; [done|]; split; [eexists; split; [reflexivity|done]|right; by right]).
  - intros [= <- <- <- <-] [[? [=]]|[=]].
Qed.

(** X26: with nodes of the registered types, a record with status Failed
    ends in a step with status Failed and a non-empty error text, and that
    step is of an integration, condition or email node: start, form and
    end nodes do not fail. *)
Theorem failed_record_last_step env (registry : Registry main.Builtin)
    fuel workflow input w exec w' :
  execution.Execute env registry fuel workflow input w = (Some (Ok exec), w') ->
  WorkflowExecution.Status exec = StatusFailed ->
  ∃ step, last_step exec = Some step ∧
    ExecutionStep.Status step = StatusFailed ∧
    ExecutionStep.Error step ≠ "" ∧
    (ExecutionStep.NodeType step = NodeTypeIntegration ∨
     ExecutionStep.NodeType step = NodeTypeCondition ∨
     ExecutionStep.NodeType step = NodeTypeEmail).
Proof.
  intros Hrun Hfailed.
  apply Execute_Ok_inv in Hrun
    as (st & n' & outputs & err & _ & (n & w1 & w2 & _ & Hx) & Hsteps & _ & _ & _ & _ & Hcase).
  destruct Hcase as [[_ Hf]|[Hdone _]]; [|rewrite Hfailed in Hdone; discriminate].
  destruct (Builtin_Execute_failure _ _ _ _ _ _ _ _ Hx Hf)
    as (Hstatus & (text & Htext & Hne) & Hty).
  exists (props.stepOf env st n' outputs).
  split; [unfold last_step; by rewrite Hsteps, last_snoc|].
  simpl. rewrite Htext, decide_True by done. done.
Qed.

(** X27: the node the engine goes to after a condition node that
    completed: the target of the last edge by the handle of the result
    ("true" or "false") when there is one with a non-empty target;
    otherwise the target of the "false" edge, whatever the result; then
    that of the edge without handle; without any of them the error
    "node <id> has no outgoing edges". *)
Theorem condition_route_followed env workflow nodes edges start id c inputs w
    weather temperature :
  initializeWorkflow main.nodeRegistry workflow = Ok (nodes, edges, start) ->
  nodes !! id = Some (main.Condition c) ->
  PriorOutputs inputs !! "weather-api" = Some weather ->
  Data weather !! "temperature" = Some (VFloat temperature) ->
  let met := condition.evaluate (WorkflowInput.Operator (WorkflowInput inputs))
               temperature (WorkflowInput.Threshold (WorkflowInput inputs)) in
  let chosen := default "" (lastTarget (Workflow.Edges workflow) id
                              (if met then "true" else "false")) in
  let '(n', outputs, err, w') := node.Execute env (main.Condition c) inputs w in
  findNextNode n' id outputs edges =
    if decide (chosen ≠ "") then inr chosen
    else match lastTarget (Workflow.Edges workflow) id "false" with
         | Some target => inr target
         | None =>
             match lastTarget (Workflow.Edges workflow) id "" with
             | Some target => inr target
             | None => inl (errors_New ("node " +:+ id +:+ " has no outgoing edges"))
             end
         end.
Proof.
  intros Hinit Hc Hw Ht met chosen.
  destruct (initialized_routes workflow nodes edges start Hinit) as [Hagree Hroute].
  destruct (Hagree id c Hc) as [Htrue Hfalse]. simpl in Htrue, Hfalse.
  rewrite !Hroute in Htrue, Hfalse.
  simpl. unfold main.lift, mbind, M_bind, condition.Execute.
  unfold mbind, M_bind, mret, M_ret, NowRFC3339, Now. simpl.
  rewrite Hw, Ht. simpl. fold met.
  unfold findNextNode. simpl.
  assert (Hnext : (if met then condition.TrueRoute (condition.config c)
                   else condition.FalseRoute (condition.config c)) = chosen).
  { unfold chosen. by destruct met. }
  rewrite Hnext. destruct (decide (chosen ≠ "")) as [Hne|He]; [reflexivity|].
  rewrite !Hroute. rewrite decide_False by done.
  by destruct (lastTarget (Workflow.Edges workflow) id "false"),
       (lastTarget (Workflow.Edges workflow) id "").
Qed.

End ValidatedRuns.

(** ** Runs on acyclic workflows *)
Section AcyclicRuns.
Import models node props execution run_props workflow.








End AcyclicRuns.

(** ** The properties above on the examples *)
Section MoreWitnesses.
Import models node props execution workflow examples more_examples run_props validity.

(** Registering an end factory for "start" replaces the start factory. *)
Lemma Register_then_Create_witness :
  Create (Register main.nodeRegistry "start" (main.factory main.End_ end_.NewNode))
         (plain "a" NodeTypeStart) =
    Ok (main.End_ (end_.mkNode (mkBaseNode "a" "" ""))).
Proof.
  rewrite (proj1 (Register_then_Create main.nodeRegistry "start"
                    (main.factory main.End_ end_.NewNode) (plain "a" NodeTypeStart)));
    reflexivity.
Defined.

Lemma registered_node_types_witness :
  Create main.nodeRegistry (plain "x" "webhook") =
    Err (errors_New "no factory registered for node type webhook").
Proof.
  apply (proj2 (proj2 (registered_node_types "webhook" (plain "x" "webhook")))).
  reflexivity.
Defined.

Lemma condition_Validate_after_routes_witness :
  is_Some (condition.Validate (condition.mkNode (mkBaseNode "condition" "" "")
                                 (condition.mkConfig "" "" ""))).
Proof.
  apply (proj2 (proj2 (condition_Validate_after_routes brancher "" ""
                         (plain "condition" NodeTypeCondition)))).
  reflexivity.
Defined.

(** A condition node run right after the form node. *)
Lemma condition_Execute_missing_temperature_witness :
  let '(n', outputs, err, w') :=
    condition.Execute env0 brancher (after_form "Sydney") w0 in
  n' = brancher ∧ Status outputs = StatusFailed ∧
  err = Some (errors_New "missing temperature") ∧
  Data outputs = {[ "error" := VString "Failed to get temperature" ]} ∧
  NextNodeID outputs = "" ∧ requests w' = requests w0.
Proof.
  apply (condition_Execute_missing_temperature env0 brancher (after_form "Sydney") w0).
  intros weather H. discriminate H.
Defined.

(** 25.5 is not less than 20: the false route. *)
Lemma condition_Execute_records_comparison_witness :
  let '(n', outputs, err, w') :=
    condition.Execute env0 brancher (after_weather OperatorLessThan) w0 in
  n' = brancher ∧ Status outputs = StatusCompleted ∧ err = None ∧
  requests w' = requests w0 ∧
  ∃ (conditionResult : gmap string any) (result : bool),
    Data outputs !! "conditionResult" = Some (VMap conditionResult) ∧
    conditionResult !! "result" = Some (VBool result) ∧
    conditionResult !! "temperature" = Some (VFloat 25.5) ∧
    conditionResult !! "threshold" = Some (VFloat 20) ∧
    conditionResult !! "operator" = Some (VString OperatorLessThan) ∧
    result = false ∧
    NextNodeID outputs = (if result then "email" else "end") ∧
    Data outputs !! "conditionMet" = None.
Proof.
  pose proof (condition_Execute_records_comparison env0 brancher
                (after_weather OperatorLessThan) w0 hot 25.5 eq_refl eq_refl) as H.
  cbv zeta in H.
  destruct (condition.Execute env0 brancher (after_weather OperatorLessThan) w0)
    as [[[n' outputs] err] w'].
  destruct H as (Hn & Hs & He & Hr & cr & result & Hcr & Hres & Ht & Hth & Hop
                 & _ & Hlt & _ & _ & _ & _ & Hnext & Hmet).
  repeat (split; [assumption|]). exists cr, result.
  repeat (split; [assumption|]). split; [exact (Hlt eq_refl)|]. by split.
Defined.

Lemma email_Execute_condition_not_met_witness :
  let '(n', outputs, err, w') := email.Execute env0 alerter before_email_unmet w0 in
  n' = alerter ∧ Status outputs = StatusCompleted ∧ err = None ∧
  Data outputs !! "message" = Some (VString "Email not sent - condition not met") ∧
  Data outputs !! "emailContent" = None ∧
  draws w' = draws w0 ∧ requests w' = requests w0.
Proof.
  apply (email_Execute_condition_not_met env0 alerter before_email_unmet w0 unmet
           {[ "result" := VBool false ]}); reflexivity.
Defined.

Lemma email_Execute_invalid_condition_result_witness :
  let '(n', outputs, err, w') := email.Execute env0 alerter before_email_garbled w0 in
  n' = alerter ∧ Status outputs = StatusFailed ∧
  err = Some (errors_New "invalid condition result format") ∧
  Data outputs = email.failure "Failed to get condition result" ∧
  draws w' = draws w0 ∧ requests w' = requests w0.
Proof.
  apply (email_Execute_invalid_condition_result env0 alerter before_email_garbled w0
           garbled); [reflexivity|left; reflexivity].
Defined.

Lemma email_Execute_missing_recipient_witness :
  let '(n', outputs, err, w') := email.Execute env0 alerter anonymous w0 in
  n' = alerter ∧ Status outputs = StatusFailed ∧
  err = Some (errors_New "missing email") ∧
  Data outputs = email.failure "Failed to get email from form output" ∧
  draws w' = draws w0 ∧ requests w' = requests w0.
Proof.
  apply (email_Execute_missing_recipient env0 alerter anonymous w0 met no_email_form
           {[ "result" := VBool true ]}); reflexivity.
Defined.

Lemma before_email_offers_city : offered (PriorOutputs before_email) "city".
Proof. exists "form", (form_output "Sydney"). split; [reflexivity|by eexists]. Qed.

Lemma before_email_lacks_humidity k o :
  PriorOutputs before_email !! k = Some o -> Data o !! "humidity" = None.
Proof.
  unfold before_email. simpl. intros H.
  apply lookup_insert_Some in H as [[_ <-]|[_ H]]; [reflexivity|].
  apply lookup_insert_Some in H as [[_ <-]|[_ H]]; [reflexivity|].
  apply lookup_singleton_Some in H as [_ <-]. reflexivity.
Qed.

(** The city is there, the humidity is not. *)
Lemma email_Execute_missing_variable_witness :
  let '(n', outputs, err, w') := email.Execute env0 humid before_email w0 in
  n' = humid ∧ Status outputs = StatusFailed ∧
  err = Some (errors_New "missing required variable: humidity") ∧
  Data outputs = email.failure "Missing required variable: humidity" ∧
  requests w' = requests w0.
Proof.
  apply (email_Execute_missing_variable env0 humid before_email w0 met
           (form_output "Sydney") {[ "result" := VBool true ]} "john@example.com"
           ["city"] [] "humidity"); try reflexivity.
  - constructor; [exact before_email_offers_city|constructor].
  - exact before_email_lacks_humidity.
Defined.

Lemma processTemplate_without_placeholders_witness :
  mailer.processTemplate env0 "Good morning" {[ "city" := VString "Sydney" ]} w0 =
    ("Good morning", mkWorld 0 1 []).
Proof.
  apply (processTemplate_without_placeholders env0 "Good morning"
           {[ "city" := VString "Sydney" ]} w0).
  intros key [v H]. apply lookup_singleton_Some in H as [<- _]. reflexivity.
Defined.

(** Both the condition output and the form output have a "message": the
    one visited first is reported. *)
Lemma email_Execute_first_visited_wins_witness :
  (let '(n', outputs, err, w') := email.Execute env0 reporter two_messages w0 in
   Status outputs = StatusCompleted ∧ err = None ∧
   ∃ content : gmap string any,
     Data outputs !! "emailContent" = Some (VMap content) ∧
     content !! "to" = Some (VString "john@example.com") ∧
     content !! "subject" = Some (VString "Report") ∧
     content !! "body" = Some (VString "Status: Temperature condition met")) ∧
  (let '(n', outputs, err, w') := email.Execute env_rev reporter two_messages w0 in
   Status outputs = StatusCompleted ∧ err = None ∧
   ∃ content : gmap string any,
     Data outputs !! "emailContent" = Some (VMap content) ∧
     content !! "to" = Some (VString "john@example.com") ∧
     content !! "subject" = Some (VString "Report") ∧
     content !! "body" = Some (VString "Status: Form submitted")).
Proof.
  split.
  - apply (email_Execute_first_visited_wins env0 reporter two_messages w0 met_message
             form_message {[ "result" := VBool true ]} "john@example.com" "message"
             "condition" ["form"] met_message "Temperature condition met");
      reflexivity.
  - apply (email_Execute_first_visited_wins env_rev reporter two_messages w0 met_message
             form_message {[ "result" := VBool true ]} "john@example.com" "message"
             "form" ["condition"] form_message "Form submitted");
      reflexivity.
Defined.

Lemma nodeRegistry_creation_errors_witness :
  Create main.nodeRegistry (plain "weather-api" NodeTypeIntegration) =
    Err (errors_New "missing API endpoint").
Proof.
  apply (proj2 (nodeRegistry_creation_errors (plain "weather-api" NodeTypeIntegration)
                  (errors_New "missing API endpoint"))).
  right. repeat split; reflexivity.
Defined.

Lemma integration_Execute_missing_city_witness :
  let '(n', outputs, err, w') := integration.Execute env0 fetcher numbered_city w0 in
  n' = fetcher ∧ Status outputs = StatusFailed ∧
  err = Some (errors_New "missing city") ∧
  Data outputs = {[ "error" := VString "Failed to get city from form output" ]} ∧
  requests w' = requests w0.
Proof.
  apply (integration_Execute_missing_city env0 fetcher numbered_city w0 numeric_form);
    reflexivity.
Defined.


Lemma integration_Execute_bad_status_witness :
  let '(n', outputs, err, w') :=
    integration.Execute env503 fetcher (after_form "Sydney") w0 in
  Status outputs = StatusFailed ∧
  err = Some (fmt_Errorf "weather API error: weather API returned status 503"
                (errors_New "weather API returned status 503")) ∧
  Data outputs !! "error" =
    Some (VString "Weather API error: weather API returned status 503") ∧
  Data outputs !! OutputKeyTemperature = None ∧
  requests w' =
    [weather_url "https://weather.test/?lat={lat}&lon={lon}" (-33.75) 151.25].
Proof.
  apply (integration_Execute_bad_status env503 fetcher (after_form "Sydney") w0
           (form_output "Sydney") "Sydney" (-33.75) 151.25 503
           (inl (errors_New "unexpected end of JSON input"))); try reflexivity.
  discriminate.
Defined.

Lemma valid_operators_have_a_case_witness :
  Operator_IsValid (WorkflowInput.Operator sydney) = true ∧
  WorkflowInput.Name sydney ≠ "" ∧ WorkflowInput.City sydney ≠ "" ∧
  Contains (WorkflowInput.Email sydney) "@" = true ∧
  Contains (WorkflowInput.Email sydney) "." = true.
Proof.
  apply (proj2 (valid_operators_have_a_case OperatorEquals sydney)). reflexivity.
Defined.

(** start -> end: two steps, the second with the number 2. *)
Lemma Execute_steps_numbered_witness :
  ∃ step,
    WorkflowExecution.Steps (record_of (outcome 5 short sydney)) !! 1%nat = Some step ∧
    ExecutionStep.StepNumber step = 2%Z ∧
    WorkflowExecution.WorkflowID (record_of (outcome 5 short sydney)) = "wf-short".
Proof.
  assert (Hrun : execution.Execute env0 main.nodeRegistry 5 short sydney w0 =
                   (Some (Ok (record_of (outcome 5 short sydney))),
                    (outcome 5 short sydney).2)) by reflexivity.
  destruct (Execute_steps_numbered env0 main.nodeRegistry 5 short sydney w0 _ _ Hrun)
    as (_ & Hsteps & Hid & _).
  pose (step := default (stepOf env0 (entered short sydney).1
                           (main.Start (start.mkNode (mkBaseNode "" "" "")))
                           (mkOutputs ∅ "" "" "" ""))
                  (WorkflowExecution.Steps (record_of (outcome 5 short sydney)) !! 1%nat)).
  assert (Hstep : WorkflowExecution.Steps (record_of (outcome 5 short sydney)) !! 1%nat
                    = Some step) by reflexivity.
  exists step. split; [exact Hstep|]. split; [|exact Hid].
  exact (proj1 (Hsteps 1%nat step Hstep)).
Defined.

Lemma Execute_completed_at_end_node_witness :
  ∃ step, last_step (record_of (outcome 5 short sydney)) = Some step ∧
          ExecutionStep.NodeType step = NodeTypeEnd.
Proof.
  assert (Hrun : execution.Execute env0 main.nodeRegistry 5 short sydney w0 =
                   (Some (Ok (record_of (outcome 5 short sydney))),
                    (outcome 5 short sydney).2)) by reflexivity.
  apply (proj2 (Execute_completed_at_end_node env0 main.nodeRegistry 5 short sydney w0
                  _ _ Hrun)).
  reflexivity.
Defined.

(** The weather alert workflow after two passes: start and form. *)
Lemma prior_outputs_of_steps_witness :
  length (WorkflowExecution.Steps (execution (reached 2 weather_alert sydney).1)) = 2%nat ∧
  dom (priorOutputs (reached 2 weather_alert sydney).1) =
    list_to_set (ExecutionStep.NodeID <$>
                 WorkflowExecution.Steps (execution (reached 2 weather_alert sydney).1)).
Proof.
  destruct (prior_outputs_of_steps env0 main.nodeRegistry sydney
              (initialized weather_alert).1.2 2 weather_alert w0
              (initialized weather_alert).1.1 (initialized weather_alert).2
              (newExecution env0 weather_alert sydney w0).1
              (newExecution env0 weather_alert sydney w0).2
              (reached 2 weather_alert sydney).1 (reached 2 weather_alert sydney).2)
    as (Hlen & Hdom & _); try reflexivity.
  split; [exact Hlen|exact Hdom].
Defined.

(** Of the two edges that leave "start" without a handle the second
    wins. *)
Lemma initializeWorkflow_last_edge_wins_witness :
  route (initialized rewired).1.2 "start" "" = Some "end".
Proof.
  assert (Hinit : initializeWorkflow main.nodeRegistry rewired =
                    Ok ((initialized rewired).1.1, (initialized rewired).1.2,
                        (initialized rewired).2)) by reflexivity.
  rewrite (initializeWorkflow_last_edge_wins main.nodeRegistry rewired _ _ _ Hinit
             "start" "").
  reflexivity.
Defined.

Lemma Execute_creation_failure_witness :
  execution.Execute env0 main.nodeRegistry 5 with_webhook sydney w0 =
    (Some (Err (creation_error (plain "hook" "webhook")
                  (errors_New "no factory registered for node type webhook"))),
     mkWorld 1 1 []) ∧
  errors_Is (creation_error (plain "hook" "webhook")
               (errors_New "no factory registered for node type webhook"))
            (errors_New "no factory registered for node type webhook") = true.
Proof.
  apply (Execute_creation_failure env0 main.nodeRegistry 5 with_webhook sydney w0
           [plain "start" NodeTypeStart] (plain "hook" "webhook")
           [plain "end" NodeTypeEnd]); try reflexivity.
  constructor; [eexists; reflexivity|constructor].
Defined.

Lemma headless_has_no_start m :
  m ∈ Workflow.Nodes headless ->
  ∃ n, Create main.nodeRegistry m = Ok n ∧ (Type_ n = NodeTypeStart -> Node.ID m = "").
Proof.
  intros Hin. apply elem_of_cons in Hin as [->|Hin].
  { eexists. split; [reflexivity|]. intros [=]. }
  apply list_elem_of_singleton in Hin as ->.
  eexists. split; [reflexivity|]. intros [=].
Qed.

Lemma Execute_no_start_node_witness :
  execution.Execute env0 main.nodeRegistry 5 headless sydney w0 =
    (Some (Err (errors_New "no start node found in workflow")), mkWorld 1 1 []).
Proof.
  apply (Execute_no_start_node env0 main.nodeRegistry 5 headless sydney w0).
  exact headless_has_no_start.
Defined.

(** The condition node of the weather alert workflow got both routes. *)
Lemma initializeWorkflow_condition_routes_witness :
  condition.TrueRoute (condition.config brancher) = "email" ∧
  condition.FalseRoute (condition.config brancher) = "end".
Proof.
  apply (initializeWorkflow_condition_routes weather_alert
           (initialized weather_alert).1.1 (initialized weather_alert).1.2
           (initialized weather_alert).2 "condition" brancher); reflexivity.
Defined.

Lemma validated_workflow_starts_at_first_node_witness :
  head (ids (Workflow.Nodes weather_alert)) = Some (initialized weather_alert).2 ∧
  dom (initialized weather_alert).1.1 = list_to_set (ids (Workflow.Nodes weather_alert)).
Proof.
  apply (validated_workflow_starts_at_first_node weather_alert
           (initialized weather_alert).1.1 (initialized weather_alert).1.2
           (initialized weather_alert).2); reflexivity.
Defined.

(** The form node of [dead_end] has no outgoing edge. *)
Lemma validated_workflow_errors_witness :
  (∃ m err, m ∈ Workflow.Nodes dead_end ∧ Create main.nodeRegistry m = Err err ∧
            errors_New "node form has no outgoing edges" = creation_error m err) ∨
  (∃ id, id ∈ ids (Workflow.Nodes dead_end) ∧
         errors_New "node form has no outgoing edges" =
           errors_New ("node " +:+ id +:+ " has no outgoing edges")).
Proof.
  apply (validated_workflow_errors env0 dead_end sydney 5 w0
           (errors_New "node form has no outgoing edges")
           (outcome 5 dead_end sydney).2); reflexivity.
Defined.

(** The weather alert workflow run for "Nowhereville" fails at the
    integration node. *)
Lemma failed_record_last_step_witness :
  ∃ step, last_step (record_of (outcome 10 weather_alert nowhere)) = Some step ∧
    ExecutionStep.Status step = StatusFailed ∧
    ExecutionStep.Error step ≠ "" ∧
    (ExecutionStep.NodeType step = NodeTypeIntegration ∨
     ExecutionStep.NodeType step = NodeTypeCondition ∨
     ExecutionStep.NodeType step = NodeTypeEmail).
Proof.
  apply (failed_record_last_step env0 main.nodeRegistry 10 weather_alert nowhere
           w0 (record_of (outcome 10 weather_alert nowhere))
           (outcome 10 weather_alert nowhere).2); reflexivity.
Defined.

(** 25.5 is greater than 20, there is no "true" edge, and the engine goes
    on to the target of the "false" edge. *)
Lemma condition_route_followed_witness :
  let '(n', outputs, err, w') :=
    node.Execute env0 (main.Condition one_sided)
                 (after_weather OperatorGreaterThan) w0 in
  findNextNode n' "condition" outputs (initialized one_way).1.2 = inr "end".
Proof.
  exact (condition_route_followed env0 one_way
           (initialized one_way).1.1 (initialized one_way).1.2 (initialized one_way).2
           "condition" one_sided (after_weather OperatorGreaterThan) w0 hot 25.5
           eq_refl eq_refl eq_refl eq_refl).
Defined.



End MoreWitnesses.
